(** * Speechmatics ASR extension: a shallow embedding and its properties

    The development follows the three Python modules of the extension
    [speechmatics_asr_python]:

    - [config.py]      the configuration record and its API-key rotation,
    - [asr_client.py]  the websocket client: audio gain, the timeline
                       offsets and the three transcript handlers,
    - [extension.py]   the extension: error callback, key rotation on quota
                       errors and the audio entry point.

    Python values that come from the provider are untyped; they are modelled
    by a small JSON value type together with the Python operations the
    handlers apply to them ([.get], iteration, indexing, truthiness), each
    of which may raise.  Floating point numbers are idealised as rationals,
    and their products are exact; where the code's binary64 product may
    round, the properties are stated for what does not depend on the
    rounding, or for numbers whose product binary64 holds exactly. *)

From Stdlib Require Import ZArith QArith Qround Qminmax Lia Bool Ascii String.
From stdpp Require Import base option list strings gmap sorting.

Local Open Scope Z_scope.

(** ** Exceptions *)

Inductive pyexn :=
| AttributeError | TypeError | KeyError | IndexError | ValueError | StructError.

Inductive exc (A : Type) :=
| Ok (a : A)
| Raise (e : pyexn).
Arguments Ok {A} a.
Arguments Raise {A} e.

Definition exc_bind {A B} (m : exc A) (f : A -> exc B) : exc B :=
  match m with
  | Ok a => f a
  | Raise e => Raise e
  end.

Definition is_ok {A} (m : exc A) : bool :=
  match m with Ok _ => true | Raise _ => false end.

(** ** Strings: the fragments of [str] the code relies on *)

(** [str.lower()], on the ASCII letters; the bytes of the other characters
    are left as they are.  The result is only searched for the keywords of
    [is_quota_error], which are ASCII, and there the two agree: the only
    characters beyond ASCII that Python lowers to something with an ASCII
    letter are U+0130, to an i followed by U+0307, and U+212A, to a k, and
    no keyword ends in i or has a k. *)
Definition lower_ascii (c : ascii) : ascii :=
  let n := nat_of_ascii c in
  if (65 <=? n)%nat && (n <=? 90)%nat then ascii_of_nat (n + 32) else c.

Fixpoint lower (s : string) : string :=
  match s with
  | EmptyString => EmptyString
  | String c r => String (lower_ascii c) (lower r)
  end.

Fixpoint starts_with (p s : string) : bool :=
  match p, s with
  | EmptyString, _ => true
  | String a p', String b s' => if Ascii.eqb a b then starts_with p' s' else false
  | String _ _, EmptyString => false
  end.

(** [p in s] for strings. *)
Fixpoint str_in (p s : string) : bool :=
  starts_with p s ||
  match s with
  | EmptyString => false
  | String _ s' => str_in p s'
  end.

(** [str.strip()] removes the characters for which [str.isspace] holds:
    U+0009-000D, U+001C-0020, U+0085, U+00A0, U+1680, U+2000-200A, U+2028,
    U+2029, U+202F, U+205F and U+3000.  A string holds the UTF-8 encoding
    of the Python text, so that a white-space character is one, two or three
    bytes long. *)
Definition is_space (c : ascii) : bool :=
  let n := nat_of_ascii c in
  ((9 <=? n)%nat && (n <=? 13)%nat) || ((28 <=? n)%nat && (n <=? 32)%nat).

(** U+0085 is [C2 85] and U+00A0 is [C2 A0]. *)
Definition is_space2 (a b : ascii) : bool :=
  let a := nat_of_ascii a in
  let b := nat_of_ascii b in
  (a =? 194)%nat && ((b =? 133)%nat || (b =? 160)%nat).

(** U+1680 is [E1 9A 80], U+2000-200A are [E2 80 80] to [E2 80 8A],
    U+2028, U+2029 and U+202F are [E2 80 A8], [E2 80 A9] and [E2 80 AF],
    U+205F is [E2 81 9F] and U+3000 is [E3 80 80]. *)
Definition is_space3 (a b d : ascii) : bool :=
  let a := nat_of_ascii a in
  let b := nat_of_ascii b in
  let d := nat_of_ascii d in
  ((a =? 225)%nat && (b =? 154)%nat && (d =? 128)%nat)
  || ((a =? 226)%nat && (b =? 128)%nat
      && (((128 <=? d)%nat && (d <=? 138)%nat)
          || (d =? 168)%nat || (d =? 169)%nat || (d =? 175)%nat))
  || ((a =? 226)%nat && (b =? 129)%nat && (d =? 159)%nat)
  || ((a =? 227)%nat && (b =? 128)%nat && (d =? 128)%nat).

Fixpoint lstrip (s : string) : string :=
  match s with
  | EmptyString => EmptyString
  | String a r =>
      if is_space a then lstrip r else
      match r with
      | EmptyString => s
      | String b r' =>
          if is_space2 a b then lstrip r' else
          match r' with
          | EmptyString => s
          | String d r'' => if is_space3 a b d then lstrip r'' else s
          end
      end
  end.

(** A string of white space only (or empty). *)
Definition all_space (s : string) : bool :=
  match lstrip s with EmptyString => true | _ => false end.

(** The string without its longest suffix of white space: going from the
    right, what is kept starts at the last byte from which the rest is not
    white space only. *)
Fixpoint rstrip (s : string) : string :=
  match s with
  | EmptyString => EmptyString
  | String c r =>
      let kept := String c (rstrip r) in
      if all_space kept then EmptyString else kept
  end.

Definition strip (s : string) : string := rstrip (lstrip s).

Definition str_nonempty (s : string) : bool :=
  match s with EmptyString => false | _ => true end.

(** ** Provider values *)

#[local] Set Warnings "-register-all".

Inductive json :=
| JNull
| JBool (b : bool)
| JNum (q : Q)
| JStr (s : string)
| JList (l : list json)
| JDict (kv : list (string * json)).

(** Python truthiness: [if v:]. *)
Definition truthy (v : json) : bool :=
  match v with
  | JNull => false
  | JBool b => b
  | JNum q => negb (Qeq_bool q 0)
  | JStr s => str_nonempty s
  | JList l => match l with [] => false | _ => true end
  | JDict kv => match kv with [] => false | _ => true end
  end.

Fixpoint assoc (k : string) (kv : list (string * json)) : option json :=
  match kv with
  | [] => None
  | (k', v) :: r => if String.eqb k k' then Some v else assoc k r
  end.

(** [d.get(k, dflt)]: only a dict has the method. *)
Definition py_get (d : json) (k : string) (dflt : json) : exc json :=
  match d with
  | JDict kv => Ok (default dflt (assoc k kv))
  | _ => Raise AttributeError
  end.

(** Iteration ([for x in v]): lists give their elements, dicts their keys,
    strings their characters; nothing else is iterable. *)
Fixpoint chars (s : string) : list json :=
  match s with
  | EmptyString => []
  | String c r => JStr (String c EmptyString) :: chars r
  end.

Definition py_iter (v : json) : exc (list json) :=
  match v with
  | JList l => Ok l
  | JDict kv => Ok (map (fun p => JStr (fst p)) kv)
  | JStr s => Ok (chars s)
  | _ => Raise TypeError
  end.

(** [v[0]]. *)
Definition py_index0 (v : json) : exc json :=
  match v with
  | JList (x :: _) => Ok x
  | JList [] => Raise IndexError
  | JStr (String c _) => Ok (JStr (String c EmptyString))
  | JStr EmptyString => Raise IndexError
  | JDict _ => Raise KeyError
  | _ => Raise TypeError
  end.

(** [v == True]: Python equates the number one with [True]. *)
Definition py_eq_true (v : json) : bool :=
  match v with
  | JBool b => b
  | JNum q => Qeq_bool q 1
  | _ => false
  end.

Definition py_eq_str (v : json) (s : string) : bool :=
  match v with
  | JStr s' => String.eqb s' s
  | _ => false
  end.

(** [int(x)] on a number: truncation towards zero. *)
Definition py_int (q : Q) : Z := Z.quot (Qnum q) (Zpos (Qden q)).

(** * config.py *)

Record SpeechmaticsASRConfig := {
  api_keys : list string;
  key : string;
  current_key_index : Z;
  attempted_key_indices : list Z;
  language : string;
  enable_word_final_mode : bool;
  audio_gain : Q;
}.

Definition set_current_key_index (i : Z) (c : SpeechmaticsASRConfig) :=
  {| api_keys := api_keys c; key := key c; current_key_index := i;
     attempted_key_indices := attempted_key_indices c;
     language := language c;
     enable_word_final_mode := enable_word_final_mode c;
     audio_gain := audio_gain c |}.

Definition set_attempted_key_indices (l : list Z) (c : SpeechmaticsASRConfig) :=
  {| api_keys := api_keys c; key := key c;
     current_key_index := current_key_index c;
     attempted_key_indices := l;
     language := language c;
     enable_word_final_mode := enable_word_final_mode c;
     audio_gain := audio_gain c |}.

Definition num_keys (c : SpeechmaticsASRConfig) : Z := Z.of_nat (length (api_keys c)).

(** [api_keys[i]] for an index in range. *)
Definition key_at (c : SpeechmaticsASRConfig) (i : Z) : string :=
  default EmptyString (api_keys c !! Z.to_nat i).

Definition get_current_key (c : SpeechmaticsASRConfig)
  : string * SpeechmaticsASRConfig :=
  if 0 <? num_keys c then
    if (0 <=? current_key_index c) && (current_key_index c <? num_keys c)
    then (key_at c (current_key_index c), c)
    else (key_at c 0, set_current_key_index 0 c)
  else (key c, c).

(** The [for i in range(len(self.api_keys))] scan of [get_next_key]. *)
Fixpoint scan_unattempted (c : SpeechmaticsASRConfig) (offs : list Z) : option Z :=
  match offs with
  | [] => None
  | i :: r =>
      let next_index := (current_key_index c + 1 + i) `mod` num_keys c in
      if bool_decide (next_index ∈ attempted_key_indices c)
      then scan_unattempted c r
      else Some next_index
  end.

Definition mark_attempted (c : SpeechmaticsASRConfig) : SpeechmaticsASRConfig :=
  if bool_decide (current_key_index c ∈ attempted_key_indices c) then c
  else set_attempted_key_indices (attempted_key_indices c ++ [current_key_index c]) c.

Definition get_next_key (c : SpeechmaticsASRConfig)
  : exc string * SpeechmaticsASRConfig :=
  if 1 <? num_keys c then
    let c1 := mark_attempted c in
    match scan_unattempted c1 (seqZ 0 (num_keys c1)) with
    | Some next_index =>
        (Ok (key_at c1 next_index), set_current_key_index next_index c1)
    | None => (Raise ValueError, c1)
    end
  else
    let '(k, c') := get_current_key c in (Ok k, c').

Definition has_multiple_keys (c : SpeechmaticsASRConfig) : bool :=
  1 <? num_keys c.

Definition has_unattempted_keys (c : SpeechmaticsASRConfig) : bool :=
  if num_keys c <=? 1 then false
  else Z.of_nat (length (attempted_key_indices c)) <? num_keys c.

Definition reset_key_rotation (c : SpeechmaticsASRConfig) : SpeechmaticsASRConfig :=
  set_attempted_key_indices [] (set_current_key_index 0 c).

(** [k] successive calls of [get_next_key], with no reset in between: for
    each call, the configuration before it, what it returned or raised, and
    the configuration after it. *)
Record rotation := {
  before : SpeechmaticsASRConfig;
  outcome : exc string;
  after : SpeechmaticsASRConfig;
}.

Fixpoint rotate_calls (k : nat) (c : SpeechmaticsASRConfig) : list rotation :=
  match k with
  | O => []
  | S k' =>
      let '(r, c1) := get_next_key c in
      {| before := c; outcome := r; after := c1 |} :: rotate_calls k' c1
  end.

Definition succeeded (r : rotation) : bool := is_ok (outcome r).

(** The indices in range that were tried: the attempted ones and the
    current one. *)
Definition tried (c : SpeechmaticsASRConfig) : gset Z :=
  list_to_set (current_key_index c :: attempted_key_indices c)
  ∩ list_to_set (seqZ 0 (num_keys c)).

(** * The modules the client imports but the sources do not contain *)

(** The words of [word.py], as the client builds them.  The fields hold
    what the provider sent, whatever its type. *)
Record SpeechmaticsASRWord := {
  word : json;
  start_ms : Z;
  duration_ms : Z;
  is_punctuation : bool;
  speaker : json;
  channel : json;
}.

(** The three helpers of [word.py] the sentence handler calls.  The client
    is defined over any implementation of them. *)
Class WordModule := {
  convert_words_to_sentence :
    list SpeechmaticsASRWord -> SpeechmaticsASRConfig -> exc string;
  get_sentence_start_ms : list SpeechmaticsASRWord -> exc Z;
  get_sentence_duration_ms : list SpeechmaticsASRWord -> exc Z;
}.

(** [ten_ai_base.timeline.AudioTimeline], by the methods the extension
    uses: the client reads the two durations and resets the timeline; the
    transmit path adds the duration of every chunk it sends. *)
Class AudioTimeline (T : Type) := {
  get_total_user_audio_duration : T -> Z;
  get_audio_duration_before_time : T -> Q -> Q;
  add_user_audio : T -> Z -> T;
  timeline_reset : T -> T;
}.

(** [ten_ai_base.struct.ASRResult] and [ten_ai_base.message.ModuleError],
    as plain records of the fields the extension fills in. *)
Record Word := {
  payload_word : json;
  payload_start_ms : Z;
  payload_duration_ms : Z;
  payload_stable : bool;
}.

Module ASRResult.
Record t := mk {
  text : json;
  final : bool;
  start_ms : Z;
  duration_ms : Z;
  language : string;
  words : list Word;
  metadata : gmap string json;
}.
End ASRResult.

Inductive ModuleErrorCode := FATAL_ERROR | NON_FATAL_ERROR.

Record ModuleError := { code : ModuleErrorCode }.

(** * asr_client.py *)

Inductive log_level := LogDebug | LogInfo | LogWarn | LogError.

(** What the client does to the outside: log lines, and the callbacks it
    schedules ([on_asr_result], [on_asr_error] through [_emit_error],
    [on_asr_open], [on_asr_close]).  The callbacks are the ones
    [start_connection] installs, so they are always present. *)
Inductive client_event :=
| Log (lvl : log_level)
| OnAsrResult (r : ASRResult.t)
| OnAsrError (e : ModuleError)
| OnAsrOpen
| OnAsrClose.

Inductive queue_item :=
| Audio (buf : list Byte.byte)
| FLUSH
| CLOSE.

(** The client object.  [sdk_client] is [self.client]: [None], or the
    vendor's websocket client with its [session_running] attribute.  The
    configuration object is shared with the extension, so it is passed to
    the methods instead of being copied into the record. *)
Record SpeechmaticsASRClient (T : Type) := {
  timeline : T;
  audio_queue : list queue_item;
  sent_user_audio_duration_ms_before_last_reset : Z;
  session_id : option string;
  connected : bool;
  websocket_connected : bool;
  client_needs_stopping : bool;
  sdk_client : option bool;
  cache_words : list SpeechmaticsASRWord;
  audio_send_count : Z;
  events : list client_event;
}.
Arguments timeline {T} _.
Arguments audio_queue {T} _.
Arguments sent_user_audio_duration_ms_before_last_reset {T} _.
Arguments session_id {T} _.
Arguments connected {T} _.
Arguments websocket_connected {T} _.
Arguments client_needs_stopping {T} _.
Arguments sdk_client {T} _.
Arguments cache_words {T} _.
Arguments audio_send_count {T} _.
Arguments events {T} _.

Definition set_timeline {T} (v : _) (c : SpeechmaticsASRClient T)
  : SpeechmaticsASRClient T :=
  {| timeline := v;
     audio_queue := audio_queue c;
     sent_user_audio_duration_ms_before_last_reset := sent_user_audio_duration_ms_before_last_reset c;
     session_id := session_id c;
     connected := connected c;
     websocket_connected := websocket_connected c;
     client_needs_stopping := client_needs_stopping c;
     sdk_client := sdk_client c;
     cache_words := cache_words c;
     audio_send_count := audio_send_count c;
     events := events c |}.

Definition set_audio_queue {T} (v : _) (c : SpeechmaticsASRClient T)
  : SpeechmaticsASRClient T :=
  {| timeline := timeline c;
     audio_queue := v;
     sent_user_audio_duration_ms_before_last_reset := sent_user_audio_duration_ms_before_last_reset c;
     session_id := session_id c;
     connected := connected c;
     websocket_connected := websocket_connected c;
     client_needs_stopping := client_needs_stopping c;
     sdk_client := sdk_client c;
     cache_words := cache_words c;
     audio_send_count := audio_send_count c;
     events := events c |}.

Definition set_sent_user_audio_duration_ms_before_last_reset {T} (v : _) (c : SpeechmaticsASRClient T)
  : SpeechmaticsASRClient T :=
  {| timeline := timeline c;
     audio_queue := audio_queue c;
     sent_user_audio_duration_ms_before_last_reset := v;
     session_id := session_id c;
     connected := connected c;
     websocket_connected := websocket_connected c;
     client_needs_stopping := client_needs_stopping c;
     sdk_client := sdk_client c;
     cache_words := cache_words c;
     audio_send_count := audio_send_count c;
     events := events c |}.

Definition set_session_id {T} (v : _) (c : SpeechmaticsASRClient T)
  : SpeechmaticsASRClient T :=
  {| timeline := timeline c;
     audio_queue := audio_queue c;
     sent_user_audio_duration_ms_before_last_reset := sent_user_audio_duration_ms_before_last_reset c;
     session_id := v;
     connected := connected c;
     websocket_connected := websocket_connected c;
     client_needs_stopping := client_needs_stopping c;
     sdk_client := sdk_client c;
     cache_words := cache_words c;
     audio_send_count := audio_send_count c;
     events := events c |}.

Definition set_connected {T} (v : _) (c : SpeechmaticsASRClient T)
  : SpeechmaticsASRClient T :=
  {| timeline := timeline c;
     audio_queue := audio_queue c;
     sent_user_audio_duration_ms_before_last_reset := sent_user_audio_duration_ms_before_last_reset c;
     session_id := session_id c;
     connected := v;
     websocket_connected := websocket_connected c;
     client_needs_stopping := client_needs_stopping c;
     sdk_client := sdk_client c;
     cache_words := cache_words c;
     audio_send_count := audio_send_count c;
     events := events c |}.

Definition set_websocket_connected {T} (v : _) (c : SpeechmaticsASRClient T)
  : SpeechmaticsASRClient T :=
  {| timeline := timeline c;
     audio_queue := audio_queue c;
     sent_user_audio_duration_ms_before_last_reset := sent_user_audio_duration_ms_before_last_reset c;
     session_id := session_id c;
     connected := connected c;
     websocket_connected := v;
     client_needs_stopping := client_needs_stopping c;
     sdk_client := sdk_client c;
     cache_words := cache_words c;
     audio_send_count := audio_send_count c;
     events := events c |}.

Definition set_client_needs_stopping {T} (v : _) (c : SpeechmaticsASRClient T)
  : SpeechmaticsASRClient T :=
  {| timeline := timeline c;
     audio_queue := audio_queue c;
     sent_user_audio_duration_ms_before_last_reset := sent_user_audio_duration_ms_before_last_reset c;
     session_id := session_id c;
     connected := connected c;
     websocket_connected := websocket_connected c;
     client_needs_stopping := v;
     sdk_client := sdk_client c;
     cache_words := cache_words c;
     audio_send_count := audio_send_count c;
     events := events c |}.

Definition set_sdk_client {T} (v : _) (c : SpeechmaticsASRClient T)
  : SpeechmaticsASRClient T :=
  {| timeline := timeline c;
     audio_queue := audio_queue c;
     sent_user_audio_duration_ms_before_last_reset := sent_user_audio_duration_ms_before_last_reset c;
     session_id := session_id c;
     connected := connected c;
     websocket_connected := websocket_connected c;
     client_needs_stopping := client_needs_stopping c;
     sdk_client := v;
     cache_words := cache_words c;
     audio_send_count := audio_send_count c;
     events := events c |}.

Definition set_cache_words {T} (v : _) (c : SpeechmaticsASRClient T)
  : SpeechmaticsASRClient T :=
  {| timeline := timeline c;
     audio_queue := audio_queue c;
     sent_user_audio_duration_ms_before_last_reset := sent_user_audio_duration_ms_before_last_reset c;
     session_id := session_id c;
     connected := connected c;
     websocket_connected := websocket_connected c;
     client_needs_stopping := client_needs_stopping c;
     sdk_client := sdk_client c;
     cache_words := v;
     audio_send_count := audio_send_count c;
     events := events c |}.

Definition set_audio_send_count {T} (v : _) (c : SpeechmaticsASRClient T)
  : SpeechmaticsASRClient T :=
  {| timeline := timeline c;
     audio_queue := audio_queue c;
     sent_user_audio_duration_ms_before_last_reset := sent_user_audio_duration_ms_before_last_reset c;
     session_id := session_id c;
     connected := connected c;
     websocket_connected := websocket_connected c;
     client_needs_stopping := client_needs_stopping c;
     sdk_client := sdk_client c;
     cache_words := cache_words c;
     audio_send_count := v;
     events := events c |}.

Definition set_events {T} (v : _) (c : SpeechmaticsASRClient T)
  : SpeechmaticsASRClient T :=
  {| timeline := timeline c;
     audio_queue := audio_queue c;
     sent_user_audio_duration_ms_before_last_reset := sent_user_audio_duration_ms_before_last_reset c;
     session_id := session_id c;
     connected := connected c;
     websocket_connected := websocket_connected c;
     client_needs_stopping := client_needs_stopping c;
     sdk_client := sdk_client c;
     cache_words := cache_words c;
     audio_send_count := audio_send_count c;
     events := v |}.

Definition new_client {T} (tl : T) : SpeechmaticsASRClient T :=
  {| timeline := tl; audio_queue := [];
     sent_user_audio_duration_ms_before_last_reset := 0;
     session_id := None; connected := false; websocket_connected := false;
     client_needs_stopping := false; sdk_client := None; cache_words := [];
     audio_send_count := 0; events := [] |}.

Definition emit {T} (e : client_event) (c : SpeechmaticsASRClient T) :=
  set_events (events c ++ [e]) c.

Definition results_of (evs : list client_event) : list ASRResult.t :=
  omap (fun e => match e with OnAsrResult r => Some r | _ => None end) evs.

Definition errors_of (evs : list client_event) : list ModuleError :=
  omap (fun e => match e with OnAsrError r => Some r | _ => None end) evs.

(** ** Audio: [recv_audio_frame] *)

Definition byte_to_Z (b : Byte.byte) : Z := Z.of_N (Byte.to_N b).

Definition byte_of_Z (z : Z) : Byte.byte :=
  default Byte.x00 (Byte.of_N (Z.to_N z)).

(** One ['<h'] item: two bytes, little endian, two's complement. *)
Definition unpack_h (lo hi : Byte.byte) : Z :=
  let u := byte_to_Z lo + 256 * byte_to_Z hi in
  if u <? 32768 then u else u - 65536.

Definition pack_h (z : Z) : list Byte.byte :=
  let u := z `mod` 65536 in
  [byte_of_Z (u `mod` 256); byte_of_Z (u / 256)].

Fixpoint unpack_items (buf : list Byte.byte) : list Z :=
  match buf with
  | lo :: hi :: r => unpack_h lo hi :: unpack_items r
  | _ => []
  end.

(** [struct.unpack(f'<{n}h', buf)]: the buffer must have exactly the size
    of the format. *)
Definition struct_unpack (n : Z) (buf : list Byte.byte) : exc (list Z) :=
  if Z.of_nat (length buf) =? 2 * n then Ok (unpack_items buf)
  else Raise StructError.

(** [struct.pack(f'<{n}h', *xs)]: every item must fit the format. *)
Definition struct_pack (n : Z) (xs : list Z) : exc (list Byte.byte) :=
  if (Z.of_nat (length xs) =? n)
     && forallb (fun x => (-32768 <=? x) && (x <=? 32767)) xs
  then Ok (concat (map pack_h xs))
  else Raise StructError.

(** The body of the gain loop.  The product is the product of the two
    numbers; the code takes it in binary64, which gives the same number
    whenever the product fits 53 significant bits ([exact_gain] below) and
    the nearest binary64 number otherwise.  Both are monotone in the sample
    and are cut to the same range. *)
Definition amplify (gain_factor : Q) (sample : Z) : Z :=
  let amplified := py_int (inject_Z sample * gain_factor) in
  Z.max (-32768) (Z.min 32767 amplified).




Definition log_audio_stats {T} (c : SpeechmaticsASRClient T)
  : SpeechmaticsASRClient T :=
  if connected c then
    let c1 := set_audio_send_count (audio_send_count c + 1) c in
    if audio_send_count c1 `mod` 100 =? 1 then emit (Log LogDebug) c1 else c1
  else c.

(** The [try] block: the outcome is the buffer to enqueue, or the exception. *)
Definition condition_frame {T} (cfg : SpeechmaticsASRConfig)
    (frame_buf : list Byte.byte) (c : SpeechmaticsASRClient T)
  : exc (list Byte.byte) * SpeechmaticsASRClient T :=
  let gain_factor := audio_gain cfg in
  let num_samples := Z.of_nat (length frame_buf) / 2 in
  if 0 <? num_samples then
    match struct_unpack num_samples frame_buf with
    | Raise e => (Raise e, c)
    | Ok samples =>
        let amplified_samples := map (amplify gain_factor) samples in
        let c1 := log_audio_stats c in
        (struct_pack num_samples amplified_samples, c1)
    end
  else (Ok frame_buf, emit (Log LogWarn) c).

Definition fatal_error : ModuleError := {| code := FATAL_ERROR |}.

Definition recv_audio_frame {T} (cfg : SpeechmaticsASRConfig)
    (frame_buf : list Byte.byte) (sid : option string)
    (c : SpeechmaticsASRClient T) : SpeechmaticsASRClient T :=
  match frame_buf with
  | [] => emit (Log LogWarn) c
  | _ =>
      let c0 := set_session_id sid c in
      match condition_frame cfg frame_buf c0 with
      | (Ok buf, c1) => set_audio_queue (audio_queue c1 ++ [Audio buf]) c1
      | (Raise _, c1) =>
          emit (OnAsrError fatal_error) (emit (Log LogError) (emit (Log LogError) c1))
      end
  end.

Definition is_connected {T} (c : SpeechmaticsASRClient T) : bool :=
  match sdk_client c with
  | None => false
  | Some session_running =>
      if client_needs_stopping c then false
      else if negb (connected c) && negb (websocket_connected c) then false
      else session_running
  end.

(** ** Handlers

    A handler body runs in a state-and-exception monad over the client:
    what it did to the client before raising stays done. *)

Definition M (T A : Type) : Type :=
  SpeechmaticsASRClient T -> exc A * SpeechmaticsASRClient T.

Definition ret {T A} (a : A) : M T A := fun c => (Ok a, c).

Definition bind {T A B} (m : M T A) (k : A -> M T B) : M T B :=
  fun c =>
    match m c with
    | (Ok a, c1) => k a c1
    | (Raise e, c1) => (Raise e, c1)
    end.

Definition lift {T A} (r : exc A) : M T A := fun c => (r, c).

Definition get {T} : M T (SpeechmaticsASRClient T) := fun c => (Ok c, c).

Definition modify {T} (f : SpeechmaticsASRClient T -> SpeechmaticsASRClient T)
  : M T unit := fun c => (Ok tt, f c).

Notation "x <- m ;; k" := (bind m (fun x => k))
  (at level 100, m at next level, right associativity).
Notation "m ;;; k" := (bind m (fun _ => k))
  (at level 100, right associativity).

(** [for x in l: body(x)] *)
Fixpoint for_each {T A} (l : list A) (body : A -> M T unit) : M T unit :=
  match l with
  | [] => ret tt
  | x :: r => body x ;;; for_each r body
  end.

(** [try: body  except Exception: handler] for a method that returns nothing. *)
Definition try_except {T} (body : M T unit)
    (handler : SpeechmaticsASRClient T -> SpeechmaticsASRClient T)
    (c : SpeechmaticsASRClient T) : SpeechmaticsASRClient T :=
  match body c with
  | (Ok _, c1) => c1
  | (Raise _, c1) => handler c1
  end.

Definition raised {T A} (m : M T A) (c : SpeechmaticsASRClient T) : bool :=
  negb (is_ok (fst (m c))).

(** [v.get(k, 0) * 1000] for a time in seconds.  A number (or a boolean) is
    scaled; [None] and dicts raise at once; a string or a list would be
    repeated a thousand times and raise at the subtraction that follows in
    every handler, before anything else happens, so they raise here.  The
    product is the product of the two numbers; the code takes it in
    binary64, which may round it (2.01 * 1000 is a little less than 2010
    there), so that the milliseconds computed from it may differ by one.
    Both grow with the time, which is what the order of the start times
    rests on; the theorems below state the value of no start and of no
    duration computed from a provider time, only lemmas on the way do. *)
Definition py_times_1000 (v : json) : exc Q :=
  match v with
  | JNum q => Ok (q * 1000)%Q
  | JBool b => Ok (if b then 1000 else 0)%Q
  | _ => Raise TypeError
  end.

Definition time_ms (d : json) (k : string) : exc Q :=
  exc_bind (py_get d k (JNum 0)) py_times_1000.

Inductive ServerMessageType := AddTranscript | AddPartialTranscript.

Section Client.
Context {T : Type} `{TL : AudioTimeline T} `{WM : WordModule}.

(** The offset every handler adds to a provider time. *)
Definition actual_start (c : SpeechmaticsASRClient T) (t_ms : Q) : Z :=
  py_int (get_audio_duration_before_time (timeline c) t_ms
          + inject_Z (sent_user_audio_duration_ms_before_last_reset c))%Q.

Definition _handle_recognition_started (c : SpeechmaticsASRClient T)
  : SpeechmaticsASRClient T :=
  let c1 := set_websocket_connected true c in
  let c2 := set_sent_user_audio_duration_ms_before_last_reset
              (sent_user_audio_duration_ms_before_last_reset c1
               + get_total_user_audio_duration (timeline c1)) c1 in
  let c3 := set_timeline (timeline_reset (timeline c2)) c2 in
  emit OnAsrOpen (set_connected true c3).

(** [results[0].alternatives[0].speaker], or ["NONE"]. *)
Definition extract_speaker (msg : json) : string :=
  match py_get msg "results" (JList []) with
  | Ok (JList (JDict ((_ :: _) as result) :: _)) =>
      match default (JList []) (assoc "alternatives" result) with
      | JList (JDict ((_ :: _) as alternative) :: _) =>
          match default (JStr EmptyString) (assoc "speaker" alternative) with
          | JStr s =>
              if str_nonempty s && str_nonempty (strip s) then strip s
              else "NONE"
          | _ => "NONE"
          end
      | _ => "NONE"
      end
  | _ => "NONE"
  end.

(** The common body of [_handle_partial_transcript] ([is_final = false])
    and [_handle_transcript_word_final_mode] ([is_final = true]); the two
    differ in that flag only. *)
Definition transcript_body (cfg : SpeechmaticsASRConfig) (is_final : bool)
    (msg : json) : M T unit :=
  metadata <- lift (py_get msg "metadata" (JDict [])) ;;
  text <- lift (py_get metadata "transcript" (JStr EmptyString)) ;;
  if negb (truthy text) then ret tt
  else
    start_ms <- lift (time_ms metadata "start_time") ;;
    end_ms <- lift (time_ms metadata "end_time") ;;
    let _duration_ms := py_int (end_ms - start_ms)%Q in
    c <- get ;;
    let _actual_start_ms := actual_start c start_ms in
    let speaker := extract_speaker msg in
    let result_metadata : gmap string json := {[ "speaker" := JStr speaker ]} in
    modify (emit (OnAsrResult
      (ASRResult.mk text is_final _actual_start_ms _duration_ms
         (language cfg) [] result_metadata))).

Definition report_failure (c : SpeechmaticsASRClient T) :=
  emit (OnAsrError fatal_error) (emit (Log LogError) c).

Definition report_failure_traceback (c : SpeechmaticsASRClient T) :=
  emit (OnAsrError fatal_error) (emit (Log LogError) (emit (Log LogError) c)).

Definition _handle_partial_transcript (cfg : SpeechmaticsASRConfig)
    (msg : json) : SpeechmaticsASRClient T -> SpeechmaticsASRClient T :=
  try_except (transcript_body cfg false msg) report_failure_traceback.

Definition _handle_transcript_word_final_mode (cfg : SpeechmaticsASRConfig)
    (msg : json) : SpeechmaticsASRClient T -> SpeechmaticsASRClient T :=
  try_except (transcript_body cfg true msg) report_failure_traceback.

Definition get_words (ws : list SpeechmaticsASRWord) : list Word :=
  map (fun w => {| payload_word := word w; payload_start_ms := start_ms w;
                   payload_duration_ms := duration_ms w;
                   payload_stable := true |}) ws.

Definition truthy_entry (o : option json) : bool :=
  match o with Some v => truthy v | None => false end.

(** One round of the loop that fills [result_metadata]. *)
Definition add_speaker_channel (md : gmap string json)
    (w : SpeechmaticsASRWord) : gmap string json :=
  let md1 :=
    if truthy (speaker w) && negb (truthy_entry (md !! "speaker"))
    then <["speaker" := speaker w]> md else md in
  if truthy (channel w) && negb (truthy_entry (md1 !! "channel"))
  then <["channel" := channel w]> md1 else md1.

Definition sentence_metadata (ws : list SpeechmaticsASRWord)
  : gmap string json := fold_left add_speaker_channel ws ∅.

(** Lines 512-538: the token of one result, appended to the cache. *)
Definition cache_token (result : json) : M T unit :=
  alternatives <- lift (py_get result "alternatives" (JList [])) ;;
  if truthy alternatives then
    a0 <- lift (py_index0 alternatives) ;;
    text <- lift (py_get a0 "content" (JStr EmptyString)) ;;
    speaker <- lift (py_get a0 "speaker" (JStr EmptyString)) ;;
    if truthy text then
      start_ms <- lift (time_ms result "start_time") ;;
      end_ms <- lift (time_ms result "end_time") ;;
      let duration_ms := py_int (end_ms - start_ms)%Q in
      c <- get ;;
      let actual_start_ms := actual_start c start_ms in
      result_type <- lift (py_get result "type" (JStr EmptyString)) ;;
      let is_punctuation := py_eq_str result_type "punctuation" in
      channel <- lift (py_get result "channel" (JStr EmptyString)) ;;
      let w := {| word := text; start_ms := actual_start_ms;
                  duration_ms := duration_ms;
                  is_punctuation := is_punctuation;
                  speaker := speaker; channel := channel |} in
      modify (fun c => set_cache_words (cache_words c ++ [w]) c)
    else ret tt
  else ret tt.

(** The segment built from the cache, lines 541-568 and 573-599. *)
Definition emit_sentence (cfg : SpeechmaticsASRConfig) (is_final : bool)
  : M T unit :=
  c <- get ;;
  sentence <- lift (convert_words_to_sentence (cache_words c) cfg) ;;
  start_ms <- lift (get_sentence_start_ms (cache_words c)) ;;
  duration_ms <- lift (get_sentence_duration_ms (cache_words c)) ;;
  let result_metadata := sentence_metadata (cache_words c) in
  let word_payload := get_words (cache_words c) in
  modify (emit (OnAsrResult
    (ASRResult.mk (JStr sentence) is_final start_ms duration_ms
       (language cfg) word_payload result_metadata))).

Definition handle_result (cfg : SpeechmaticsASRConfig) (result : json)
  : M T unit :=
  cache_token result ;;;
  is_eos <- lift (py_get result "is_eos" JNull) ;;
  if py_eq_true is_eos then
    emit_sentence cfg true ;;;
    modify (set_cache_words [])
  else ret tt.

Definition sentence_body (cfg : SpeechmaticsASRConfig) (msg : json)
  : M T unit :=
  results <- lift (py_get msg "results" (JDict [])) ;;
  items <- lift (py_iter results) ;;
  for_each items (handle_result cfg) ;;;
  c <- get ;;
  match cache_words c with
  | [] => ret tt
  | _ => emit_sentence cfg false
  end.

Definition _handle_transcript_sentence_final_mode
    (cfg : SpeechmaticsASRConfig) (msg : json)
  : SpeechmaticsASRClient T -> SpeechmaticsASRClient T :=
  try_except (sentence_body cfg msg) report_failure.

Definition _handle_end_transcript (c : SpeechmaticsASRClient T) :=
  emit OnAsrClose (set_connected false (set_websocket_connected false c)).

(** The handlers [start] registers for the two transcript messages. *)
Definition dispatch (cfg : SpeechmaticsASRConfig) (ty : ServerMessageType)
    (msg : json) (c : SpeechmaticsASRClient T) : SpeechmaticsASRClient T :=
  if enable_word_final_mode cfg then
    match ty with
    | AddTranscript => _handle_transcript_word_final_mode cfg msg c
    | AddPartialTranscript => _handle_partial_transcript cfg msg c
    end
  else
    match ty with
    | AddTranscript => _handle_transcript_sentence_final_mode cfg msg c
    | AddPartialTranscript => c
    end.
End Client.

(** * extension.py *)

(** The texts of the errors the extension sends: the vendor's message,
    passed on, or one of the extension's own. *)
Inductive error_text :=
| VendorMessage (s : string)
| KeyMissing
| StartFailed
| AllKeysAttempted
| AllKeysExhausted.

Inductive ext_event :=
| ExtLog (lvl : log_level)
| SendAsrError (code : ModuleErrorCode) (message : error_text)
| ClientStart (auth_token : string)
| ClientStop
| Sleep.

(** The extension object.  [config] is the one configuration object, which
    the client reads as well; [audio_timeline] is the timeline of the base
    class, handed to the client when it is created. *)
Record SpeechmaticsASRExtension (T : Type) := {
  config : SpeechmaticsASRConfig;
  client : option (SpeechmaticsASRClient T);
  audio_timeline : T;
  send_audio_count : Z;
  audio_frame_count : Z;
  ext_events : list ext_event;
}.
Arguments config {T} _.
Arguments client {T} _.
Arguments audio_timeline {T} _.
Arguments send_audio_count {T} _.
Arguments audio_frame_count {T} _.
Arguments ext_events {T} _.

Definition set_config {T} (v : _) (c : SpeechmaticsASRExtension T)
  : SpeechmaticsASRExtension T :=
  {| config := v;
     client := client c;
     audio_timeline := audio_timeline c;
     send_audio_count := send_audio_count c;
     audio_frame_count := audio_frame_count c;
     ext_events := ext_events c |}.

Definition set_client {T} (v : _) (c : SpeechmaticsASRExtension T)
  : SpeechmaticsASRExtension T :=
  {| config := config c;
     client := v;
     audio_timeline := audio_timeline c;
     send_audio_count := send_audio_count c;
     audio_frame_count := audio_frame_count c;
     ext_events := ext_events c |}.

Definition set_send_audio_count {T} (v : _) (c : SpeechmaticsASRExtension T)
  : SpeechmaticsASRExtension T :=
  {| config := config c;
     client := client c;
     audio_timeline := audio_timeline c;
     send_audio_count := v;
     audio_frame_count := audio_frame_count c;
     ext_events := ext_events c |}.

Definition set_audio_frame_count {T} (v : _) (c : SpeechmaticsASRExtension T)
  : SpeechmaticsASRExtension T :=
  {| config := config c;
     client := client c;
     audio_timeline := audio_timeline c;
     send_audio_count := send_audio_count c;
     audio_frame_count := v;
     ext_events := ext_events c |}.

Definition set_ext_events {T} (v : _) (c : SpeechmaticsASRExtension T)
  : SpeechmaticsASRExtension T :=
  {| config := config c;
     client := client c;
     audio_timeline := audio_timeline c;
     send_audio_count := send_audio_count c;
     audio_frame_count := audio_frame_count c;
     ext_events := v |}.

Definition ext_emit {T} (e : ext_event) (x : SpeechmaticsASRExtension T) :=
  set_ext_events (ext_events x ++ [e]) x.

Definition sent_errors (evs : list ext_event) : list (ModuleErrorCode * error_text) :=
  omap (fun e => match e with SendAsrError c m => Some (c, m) | _ => None end) evs.

Definition client_starts (evs : list ext_event) : list string :=
  omap (fun e => match e with ClientStart k => Some k | _ => None end) evs.

Definition ext_is_connected {T} (x : SpeechmaticsASRExtension T) : bool :=
  match client x with
  | None => false
  | Some c => is_connected c
  end.

(** [SpeechmaticsASRClient.stop], by what it leaves in the client. *)
Definition client_stop {T} (c : SpeechmaticsASRClient T) : SpeechmaticsASRClient T :=
  let c1 := set_client_needs_stopping true (emit (Log LogInfo) c) in
  let c2 := set_connected false (set_websocket_connected false c1) in
  let c3 := match sdk_client c2 with
            | Some _ => set_sdk_client None (emit (Log LogInfo) c2)
            | None => c2
            end in
  let c4 := set_audio_queue (audio_queue c3 ++ [FLUSH; CLOSE]) c3 in
  emit (Log LogInfo) c4.

(** [SpeechmaticsASRClient.start]: a new vendor client, not running yet. *)
Definition client_start {T} (c : SpeechmaticsASRClient T) : SpeechmaticsASRClient T :=
  emit (Log LogInfo) (set_client_needs_stopping false (set_sdk_client (Some false) c)).

Definition stop_connection {T} (x : SpeechmaticsASRExtension T)
  : SpeechmaticsASRExtension T :=
  match client x with
  | Some c =>
      let x1 := ext_emit (ExtLog LogInfo) x in
      let x2 := ext_emit ClientStop (set_client (Some (client_stop c)) x1) in
      ext_emit (ExtLog LogInfo) (ext_emit Sleep x2)
  | None => ext_emit (ExtLog LogInfo) x
  end.

(** [start_connection].  [start_raises] says whether [self.client.start()]
    raises; the method catches that and reports it as a non-fatal error.
    The runtime language, the audio dumper and the wiring of the callbacks
    are left out. *)
Definition start_connection {T} (start_raises : bool)
    (x : SpeechmaticsASRExtension T) : SpeechmaticsASRExtension T :=
  let x0 := set_audio_frame_count 0 (ext_emit (ExtLog LogInfo) x) in
  let '(current_key, cfg) := get_current_key (config x0) in
  let x1 := set_config cfg x0 in
  if negb (str_nonempty (strip current_key)) then
    ext_emit (SendAsrError FATAL_ERROR KeyMissing) (ext_emit (ExtLog LogError) x1)
  else
    let x2 := if has_multiple_keys cfg then ext_emit (ExtLog LogInfo) x1 else x1 in
    let c := match client x2 with
             | Some c => c
             | None => new_client (audio_timeline x2)
             end in
    if start_raises then
      ext_emit (SendAsrError NON_FATAL_ERROR StartFailed)
        (ext_emit (ExtLog LogError)
           (ext_emit (ExtLog LogError) (set_client (Some c) x2)))
    else
      ext_emit (ClientStart current_key) (set_client (Some (client_start c)) x2).

Definition quota_keywords : list string :=
  [ "quota"; "credit"; "limit"; "exceeded";
    "401"; "403"; "402";
    "unauthorized"; "forbidden"; "payment required";
    "no credits"; "insufficient"; "balance" ]%string.

Definition is_quota_error (message : string) : bool :=
  let error_lower := lower message in
  existsb (fun keyword => str_in keyword error_lower) quota_keywords.

(** How one reconnection attempt of [_rotate_api_key_and_reconnect] ends:
    the client was started; or [self.client.start()] raised, which
    [start_connection] catches and reports itself; or something else in the
    [try] block raised after the connection was started, which is what the
    last [except] clause of the method is for. *)
Inductive attempt := Started | StartRaised | BodyRaised.

(** [_rotate_api_key_and_reconnect].  The list says how the successive
    reconnection attempts end; when it runs out they succeed. *)
Fixpoint _rotate_api_key_and_reconnect {T} (attempts : list attempt)
    (x : SpeechmaticsASRExtension T) : SpeechmaticsASRExtension T :=
  if negb (has_multiple_keys (config x)) then ext_emit (ExtLog LogError) x
  else if negb (has_unattempted_keys (config x)) then
    ext_emit (SendAsrError FATAL_ERROR AllKeysAttempted)
      (ext_emit (ExtLog LogError) x)
  else
    match get_next_key (config x) with
    | (Raise _, cfg) =>
        ext_emit (SendAsrError FATAL_ERROR AllKeysExhausted)
          (ext_emit (ExtLog LogError) (set_config cfg x))
    | (Ok next_key, cfg) =>
        let x1 := ext_emit (ExtLog LogInfo) (set_config cfg x) in
        let x2 := if ext_is_connected x1
                  then ext_emit Sleep (stop_connection x1) else x1 in
        match attempts with
        | BodyRaised :: rest =>
            let x3 := start_connection false x2 in
            let x4 := ext_emit (ExtLog LogError) x3 in
            if has_unattempted_keys (config x4) then
              _rotate_api_key_and_reconnect rest (ext_emit (ExtLog LogInfo) x4)
            else
              ext_emit (SendAsrError FATAL_ERROR AllKeysExhausted)
                (ext_emit (ExtLog LogError) x4)
        | StartRaised :: _ =>
            ext_emit (ExtLog LogInfo) (start_connection true x2)
        | _ => ext_emit (ExtLog LogInfo) (start_connection false x2)
        end
    end.

Definition on_asr_error {T} (attempts : list attempt) (message : string)
    (x : SpeechmaticsASRExtension T) : SpeechmaticsASRExtension T :=
  let x1 := ext_emit (ExtLog LogError) x in
  let quota_error := is_quota_error message in
  if quota_error && has_multiple_keys (config x1) then
    _rotate_api_key_and_reconnect attempts (ext_emit (ExtLog LogWarn) x1)
  else
    ext_emit (SendAsrError NON_FATAL_ERROR (VendorMessage message)) x1.

(** [send_audio]: the answer and the extension afterwards.  The audio
    dumper is left out, and [recv_audio_frame] catches what it raises. *)
Definition send_audio {T} (frame : list Byte.byte) (_session_id : option string)
    (x : SpeechmaticsASRExtension T) : bool * SpeechmaticsASRExtension T :=
  let x1 := set_send_audio_count (send_audio_count x + 1) x in
  if negb (ext_is_connected x1) then
    (false,
     if send_audio_count x1 `mod` 100 =? 1
     then ext_emit (ExtLog LogWarn) x1 else x1)
  else
    let x2 := if send_audio_count x1 `mod` 100 =? 1
              then ext_emit (ExtLog LogInfo) x1 else x1 in
    let x3 := match client x2 with
              | Some c =>
                  set_client (Some (recv_audio_frame (config x2) frame _session_id c)) x2
              | None => x2
              end in
    (true, x3).

Definition queued_audio {T} (x : SpeechmaticsASRExtension T) : list queue_item :=
  match client x with
  | Some c => audio_queue c
  | None => []
  end.


(** The attempted list as the rotation builds it: indices in range, each
    one once. *)
Definition rotation_wf (c : SpeechmaticsASRConfig) : Prop :=
  NoDup (attempted_key_indices c)
  /\ Forall (fun i => 0 <= i < num_keys c) (attempted_key_indices c).




(** * Implementations of the imported modules, from the specification *)

(** Modelled from the spec: [word.py] ([convert_words_to_sentence],
    [get_sentence_start_ms], [get_sentence_duration_ms]) is imported by the
    client but is not among the sources.  Section 4.3: "the buffer is joined
    into sentence text (punctuation tokens attach without a leading space;
    word tokens are space-joined), a final segment is emitted with startMs =
    first token's absolute start and durationMs spanning first-to-last
    token".  A token whose text is not a string cannot be joined, and an
    empty buffer has no first token: both raise. *)
Fixpoint join_tokens (first : bool) (ws : list SpeechmaticsASRWord) : exc string :=
  match ws with
  | [] => Ok EmptyString
  | w :: r =>
      match word w with
      | JStr s =>
          exc_bind (join_tokens false r) (fun rest =>
            Ok ((if first || is_punctuation w then EmptyString else " ") +:+ s +:+ rest))
      | _ => Raise TypeError
      end
  end.

(** Modelled from the spec: [get_sentence_start_ms] of [word.py], "startMs =
    first token's absolute start"; there is none in an empty buffer. *)
Definition first_token_start (ws : list SpeechmaticsASRWord) : exc Z :=
  match ws with
  | [] => Raise IndexError
  | w :: _ => Ok (start_ms w)
  end.

(** Modelled from the spec: [get_sentence_duration_ms] of [word.py],
    "durationMs spanning first-to-last token": from the start of the first
    token to the end of the last. *)
Definition first_to_last_span (ws : list SpeechmaticsASRWord) : exc Z :=
  match ws, last ws with
  | w :: _, Some l => Ok (start_ms l + duration_ms l - start_ms w)
  | _, _ => Raise IndexError
  end.

(** Modelled from the spec: the three helpers of [word.py] together. *)
Definition spec_word_module : WordModule :=
  {| convert_words_to_sentence := fun ws _ => join_tokens true ws;
     get_sentence_start_ms := first_token_start;
     get_sentence_duration_ms := first_to_last_span |}.

(** Modelled from the spec: [ten_ai_base.timeline.AudioTimeline] is not
    among the sources.  Section 4.2: the timeline keeps "a per-reset
    cursor", the "running count of audio submitted since the last reset;
    advanced by the transmit path as chunks are sent", which [reset]
    zeroes. *)
Record CursorTimeline := { total_user_audio_duration : N }.

(** Modelled from the spec: [AudioTimeline.get_audio_duration_before_time]
    as a count of audio, which is what its name says: the part of the audio
    submitted since the last reset that lies before a provider time, hence
    never more than what was submitted.  Section 4.2 does not say this much:
    it only has the time mapped to an absolute time by adding the offset;
    [literal_timeline] below reads it that way. *)
Definition cursor_before (tl : CursorTimeline) (t_ms : Q) : Q :=
  Qmax 0 (Qmin t_ms (inject_Z (Z.of_N (total_user_audio_duration tl)))).

(** Modelled from the spec: the methods of [AudioTimeline] on the cursor;
    a chunk of negative duration adds nothing. *)
Definition cursor_timeline : AudioTimeline CursorTimeline :=
  {| get_total_user_audio_duration := fun tl => Z.of_N (total_user_audio_duration tl);
     get_audio_duration_before_time := cursor_before;
     add_user_audio := fun tl d =>
       {| total_user_audio_duration := total_user_audio_duration tl + Z.to_N d |};
     timeline_reset := fun _ => {| total_user_audio_duration := 0 |} |}.

(** Modelled from the spec: section 4.2 to the letter,
    "durationBeforeProviderTime(tMs): maps a provider-relative timestamp to
    session-absolute time by adding baseOffsetMs".  The client adds the
    offset itself, so the timeline hands the provider time back as it is,
    whatever audio was submitted. *)
Definition literal_timeline : AudioTimeline CursorTimeline :=
  {| get_total_user_audio_duration := fun tl => Z.of_N (total_user_audio_duration tl);
     get_audio_duration_before_time := fun _ t_ms => t_ms;
     add_user_audio := fun tl d =>
       {| total_user_audio_duration := total_user_audio_duration tl + Z.to_N d |};
     timeline_reset := fun _ => {| total_user_audio_duration := 0 |} |}.

(** What the sessions below need of a timeline, and what neither the code
    nor section 4.2 states: the audio before a time is never negative and
    never more than the audio submitted, it grows with the time, and it
    does not shrink when more audio is submitted.  [cursor_timeline] has
    these properties; [literal_timeline] lacks the second. *)
Class AudioTimelineLaws (T : Type) `{AudioTimeline T} : Prop := {
  before_nonneg : forall tl t, (0 <= get_audio_duration_before_time tl t)%Q;
  before_le_total : forall tl t,
    (get_audio_duration_before_time tl t
     <= inject_Z (get_total_user_audio_duration tl))%Q;
  before_mono : forall tl t t', (t <= t')%Q ->
    (get_audio_duration_before_time tl t
     <= get_audio_duration_before_time tl t')%Q;
  before_add : forall tl d t,
    (get_audio_duration_before_time tl t
     <= get_audio_duration_before_time (add_user_audio tl d) t)%Q;
}.

(** * Well-formed provider messages *)

(** One entry of [results], with the fields the sentence handler reads;
    times are in seconds, as the provider sends them. *)
Record token := {
  tok_content : string;
  tok_start : Q;
  tok_end : Q;
  tok_type : string;
  tok_is_eos : bool;
  tok_speaker : string;
  tok_channel : string;
}.

Definition token_json (t : token) : json :=
  JDict [ ("alternatives",
           JList [JDict [("content", JStr (tok_content t));
                         ("speaker", JStr (tok_speaker t))]]);
          ("start_time", JNum (tok_start t));
          ("end_time", JNum (tok_end t));
          ("type", JStr (tok_type t));
          ("is_eos", JBool (tok_is_eos t));
          ("channel", JStr (tok_channel t)) ]%string.

(** A transcript message: the metadata the word-final and partial handlers
    read, and the results the sentence handler reads. *)
Record provider_message := {
  pm_transcript : string;
  pm_start : Q;
  pm_end : Q;
  pm_tokens : list token;
}.

Definition message_json (m : provider_message) : json :=
  JDict [ ("metadata",
           JDict [("transcript", JStr (pm_transcript m));
                  ("start_time", JNum (pm_start m));
                  ("end_time", JNum (pm_end m))]);
          ("results", JList (map token_json (pm_tokens m))) ]%string.

Definition word_token (content : string) (t0 t1 : Q) (spk ch : string) : token :=
  {| tok_content := content; tok_start := t0; tok_end := t1;
     tok_type := "word"; tok_is_eos := false;
     tok_speaker := spk; tok_channel := ch |}.

Definition punctuation_token (content : string) (t0 t1 : Q) (eos : bool)
    (spk ch : string) : token :=
  {| tok_content := content; tok_start := t0; tok_end := t1;
     tok_type := "punctuation"; tok_is_eos := eos;
     tok_speaker := spk; tok_channel := ch |}.

(** * Sessions: what happens to a client over its life *)

Inductive session_event :=
| SendChunk (duration_ms : Z)
| RecognitionStarted
| Transcript (ty : ServerMessageType) (m : provider_message).

Section Session.
Context {T : Type} `{TL : AudioTimeline T} `{WM : WordModule}.

Definition session_step (cfg : SpeechmaticsASRConfig)
    (c : SpeechmaticsASRClient T) (ev : session_event) : SpeechmaticsASRClient T :=
  match ev with
  | SendChunk d => set_timeline (add_user_audio (timeline c) d) c
  | RecognitionStarted => _handle_recognition_started c
  | Transcript ty m => dispatch cfg ty (message_json m) c
  end.

Definition run_session (cfg : SpeechmaticsASRConfig)
    (tr : list session_event) (c : SpeechmaticsASRClient T) :=
  fold_left (session_step cfg) tr c.
End Session.

(** The provider times (seconds) the registered handler reads in a message. *)
Definition message_times (cfg : SpeechmaticsASRConfig) (ty : ServerMessageType)
    (m : provider_message) : list Q :=
  if enable_word_final_mode cfg then [pm_start m]
  else match ty with
       | AddTranscript => map tok_start (pm_tokens m)
       | AddPartialTranscript => []
       end.

Fixpoint nondecreasing_from (prev : option Q) (ts : list Q) : bool :=
  match ts with
  | [] => true
  | t :: r =>
      match prev with Some p => Qle_bool p t | None => true end
      && nondecreasing_from (Some t) r
  end.

Definition last_time (prev : option Q) (ts : list Q) : option Q :=
  match last ts with Some t => Some t | None => prev end.

(** Within each connection, that is between two [RecognitionStarted], the
    provider's times do not decrease. *)
Fixpoint provider_times_nondecreasing (cfg : SpeechmaticsASRConfig)
    (prev : option Q) (tr : list session_event) : bool :=
  match tr with
  | [] => true
  | SendChunk _ :: r => provider_times_nondecreasing cfg prev r
  | RecognitionStarted :: r => provider_times_nondecreasing cfg None r
  | Transcript ty m :: r =>
      nondecreasing_from prev (message_times cfg ty m)
      && provider_times_nondecreasing cfg
           (last_time prev (message_times cfg ty m)) r
  end.


(** * Notions used to state the properties of the handlers *)

(** [c] was reached from [c0] while handling results: the only events
    added are final segments, and the words buffered in [c0] are, in order,
    the first of the words of those segments followed by the buffer of
    [c]: none was dropped. *)
Definition advanced_from {T} (c0 c : SpeechmaticsASRClient T) : Prop :=
  exists finals,
    events c = events c0 ++ map OnAsrResult finals
    /\ Forall (fun r => ASRResult.final r = true) finals
    /\ get_words (cache_words c0)
         `prefix_of` (concat (map ASRResult.words finals) ++ get_words (cache_words c)).

(** Where an entry of a sentence's metadata comes from: a buffered word
    whose speaker, or channel, is that non-empty value. *)
Definition from_token (ws : list SpeechmaticsASRWord) (k : string) (v : json) : Prop :=
  exists w, w ∈ ws /\ truthy v = true
            /\ ((k = "speaker"%string /\ v = speaker w)
                \/ (k = "channel"%string /\ v = channel w)).

(** The segment the word-final handler ([is_final = true]) or the partial
    handler builds from a well-formed message. *)
Definition transcript_segment {T} `{TL : AudioTimeline T} (cfg : SpeechmaticsASRConfig)
    (is_final : bool) (c : SpeechmaticsASRClient T) (m : provider_message)
  : ASRResult.t :=
  ASRResult.mk (JStr (pm_transcript m)) is_final
    (actual_start c (pm_start m * 1000)%Q)
    (py_int (pm_end m * 1000 - pm_start m * 1000)%Q)
    (language cfg) []
    {[ "speaker"%string := JStr (extract_speaker (message_json m)) ]}.



(** The largest absolute start the client can have computed so far in the
    current connection: the offset alone before the first provider time,
    the absolute start of the last provider time (seconds) afterwards. *)
Definition latest_start {T} `{TL : AudioTimeline T} (c : SpeechmaticsASRClient T)
    (prev : option Q) : Z :=
  match prev with
  | Some p => actual_start c (p * 1000)%Q
  | None => sent_user_audio_duration_ms_before_last_reset c
  end.

(** The order kept between the starts [rs] of the segments emitted, the
    starts [cs] of the buffered words and the latest start [hi]. *)
Definition starts_ordered (word_mode : bool) (hi : Z) (rs cs : list Z) : Prop :=
  StronglySorted Z.le rs
  /\ StronglySorted Z.le cs
  /\ Forall (fun r => r <= hi) rs
  /\ Forall (fun w => w <= hi) cs
  /\ Forall (fun r => Forall (fun w => r <= w) cs) rs
  /\ (word_mode = true -> cs = []).

Definition session_invariant {T} `{TL : AudioTimeline T}
    (cfg : SpeechmaticsASRConfig) (c : SpeechmaticsASRClient T)
    (prev : option Q) : Prop :=
  starts_ordered (enable_word_final_mode cfg) (latest_start c prev)
    (map ASRResult.start_ms (results_of (events c)))
    (map start_ms (cache_words c)).

Definition time_le (prev : option Q) (t : Q) : Prop :=
  match prev with Some p => (p <= t)%Q | None => True end.

(** The word the sentence handler builds from a well-formed result. *)
Definition token_word {T} `{TL : AudioTimeline T} (c : SpeechmaticsASRClient T)
    (t : token) : SpeechmaticsASRWord :=
  {| word := JStr (tok_content t);
     start_ms := actual_start c (tok_start t * 1000)%Q;
     duration_ms := py_int (tok_end t * 1000 - tok_start t * 1000)%Q;
     is_punctuation := String.eqb (tok_type t) "punctuation";
     speaker := JStr (tok_speaker t);
     channel := JStr (tok_channel t) |}.

(** * Concrete values used in the examples *)

Definition demo_config : SpeechmaticsASRConfig :=
  {| api_keys := ["key-one"; "key-two"]%string; key := EmptyString;
     current_key_index := 0; attempted_key_indices := [];
     language := "en"; enable_word_final_mode := false;
     audio_gain := 7 # 4 |}.

Definition demo_timeline : CursorTimeline := {| total_user_audio_duration := 0 |}.

Definition demo_client : SpeechmaticsASRClient CursorTimeline :=
  new_client demo_timeline.

(** An extension that has been started and waits for the provider: the
    client exists, it is not stopping, recognition has not started. *)
Definition demo_connecting : SpeechmaticsASRExtension CursorTimeline :=
  set_send_audio_count 1
    (start_connection false
       {| config := demo_config; client := None; audio_timeline := demo_timeline;
          send_audio_count := 0; audio_frame_count := 0; ext_events := [] |}).

(** The same extension once recognition has started and the vendor's
    session runs. *)
Definition demo_streaming : SpeechmaticsASRExtension CursorTimeline :=
  match client demo_connecting with
  | Some c =>
      set_client (Some (set_sdk_client (Some true)
                          (_handle_recognition_started (TL := cursor_timeline) c)))
        demo_connecting
  | None => demo_connecting
  end.




Definition demo_word_config : SpeechmaticsASRConfig :=
  {| api_keys := ["key-one"; "key-two"]%string; key := EmptyString;
     current_key_index := 0; attempted_key_indices := [];
     language := "en"; enable_word_final_mode := true;
     audio_gain := 7 # 4 |}.



(** A message whose second result is a number instead of an object. *)
Definition broken_message : json :=
  JDict [ ("results"%string,
           JList [ token_json (word_token "hello" 0 (2 # 5) "S1" EmptyString);
                   JNum 42 ]) ].

(** A client with one buffered word that has neither speaker nor channel. *)
Definition demo_buffering : SpeechmaticsASRClient CursorTimeline :=
  set_cache_words
    [ {| word := JStr "hello"; start_ms := 0; duration_ms := 400;
         is_punctuation := false; speaker := JStr EmptyString; channel := JStr EmptyString |} ]
    demo_client.

(** A sentence-final session over two connections: half a second of audio,
    a sentence of two words, a reconnection, more audio, and one more word
    whose provider time starts again near zero. *)
Definition demo_session : list session_event :=
  [ RecognitionStarted;
    SendChunk 500;
    Transcript AddTranscript
      {| pm_transcript := "hello world."; pm_start := 0; pm_end := 1 # 2;
         pm_tokens := [ word_token "hello" (1 # 10) (1 # 5) "S1" EmptyString;
                        word_token "world" (3 # 10) (2 # 5) "S1" EmptyString;
                        punctuation_token "." (2 # 5) (2 # 5) true EmptyString EmptyString ] |};
    RecognitionStarted;
    SendChunk 300;
    Transcript AddTranscript
      {| pm_transcript := "again"; pm_start := 0; pm_end := 1 # 5;
         pm_tokens := [ word_token "again" (1 # 20) (1 # 5) "S1" EmptyString ] |} ].

(** A session over two connections in which the provider's first time lies
    beyond the audio submitted: one word at 0.8 s before any audio was
    sent, a tenth of a second of audio, a reconnection, and one word at
    0 s.  The same session for the sentence handler, each word ending its
    sentence. *)
Definition early_word_session : list session_event :=
  [ RecognitionStarted;
    Transcript AddTranscript
      {| pm_transcript := "early"; pm_start := 4 # 5; pm_end := 1;
         pm_tokens := [] |};
    SendChunk 100;
    RecognitionStarted;
    Transcript AddTranscript
      {| pm_transcript := "again"; pm_start := 0; pm_end := 1 # 5;
         pm_tokens := [] |} ].

Definition early_sentence_session : list session_event :=
  [ RecognitionStarted;
    Transcript AddTranscript
      {| pm_transcript := "early"; pm_start := 4 # 5; pm_end := 1;
         pm_tokens := [ {| tok_content := "early"; tok_start := 4 # 5;
                           tok_end := 1; tok_type := "word"; tok_is_eos := true;
                           tok_speaker := "S1"; tok_channel := EmptyString |} ] |};
    SendChunk 100;
    RecognitionStarted;
    Transcript AddTranscript
      {| pm_transcript := "again"; pm_start := 0; pm_end := 1 # 5;
         pm_tokens := [ {| tok_content := "again"; tok_start := 0;
                           tok_end := 1 # 5; tok_type := "word"; tok_is_eos := true;
                           tok_speaker := "S1"; tok_channel := EmptyString |} ] |} ].

From Stdlib Require Lqa.
From stdpp Require pretty.

(** * Values used in the examples of the further properties *)

(** The configuration after two rotations over the two keys: the second
    one raised, and no key is left. *)
Definition exhausted_config : SpeechmaticsASRConfig :=
  snd (get_next_key (snd (get_next_key demo_config))).

(** A configuration that leaves the volume alone. *)
Definition unit_gain_config : SpeechmaticsASRConfig :=
  {| api_keys := ["key-one"]%string; key := EmptyString;
     current_key_index := 0; attempted_key_indices := [];
     language := "en"; enable_word_final_mode := false;
     audio_gain := 2 # 2 |}.

(** A message that ends one sentence and begins the next. *)
Definition sentence_and_a_half : provider_message :=
  {| pm_transcript := "world. again"; pm_start := 1 # 2; pm_end := 3 # 2;
     pm_tokens := [ word_token "world" (1 # 2) (4 # 5) "S1" EmptyString;
                    punctuation_token "." (4 # 5) (4 # 5) true EmptyString EmptyString;
                    word_token "again" 1 (3 # 2) "S2" EmptyString ] |}.

(** * Notions used to state the further properties *)

(** What [recv_audio_frame] never touches: the timeline and its offset,
    the connection flags, the vendor client, the word buffer and the
    results emitted. *)
Definition same_connection {T} (c c' : SpeechmaticsASRClient T) : Prop :=
  timeline c' = timeline c
  /\ sent_user_audio_duration_ms_before_last_reset c'
     = sent_user_audio_duration_ms_before_last_reset c
  /\ connected c' = connected c
  /\ websocket_connected c' = websocket_connected c
  /\ client_needs_stopping c' = client_needs_stopping c
  /\ sdk_client c' = sdk_client c
  /\ cache_words c' = cache_words c
  /\ results_of (events c') = results_of (events c).


(** The tokens of a message that carry a text, which are the ones the
    sentence handler buffers, and the number of its sentence ends. *)
Definition spoken_tokens (toks : list token) : list token :=
  List.filter (fun t => str_nonempty (tok_content t)) toks.

Definition sentence_ends (toks : list token) : nat :=
  length (List.filter tok_is_eos toks).

(** Successive calls of [send_audio] with the frames of a list: the
    answers, and the extension afterwards. *)
Fixpoint send_audio_all {T} (frames : list (list Byte.byte))
    (_session_id : option string) (x : SpeechmaticsASRExtension T)
  : list bool * SpeechmaticsASRExtension T :=
  match frames with
  | [] => ([], x)
  | frame :: rest =>
      let '(answer, x1) := send_audio frame _session_id x in
      let '(answers, x2) := send_audio_all rest _session_id x1 in
      (answer :: answers, x2)
  end.

(** A key the client may be started with: one of the configured keys,
    with something in it besides blanks. *)
Definition usable_key (c : SpeechmaticsASRConfig) (k : string) : Prop :=
  k ∈ api_keys c /\ str_nonempty (strip k) = true.

(** [x'] was reached from [x] by starting the client with usable keys
    only, the key list being as it was. *)
Definition started_with_usable_keys {T} (x x' : SpeechmaticsASRExtension T) : Prop :=
  api_keys (config x') = api_keys (config x)
  /\ exists new,
       client_starts (ext_events x') = client_starts (ext_events x) ++ new
       /\ Forall (usable_key (config x)) new.

(** An event that is not the start of a client. *)
Definition not_a_start (e : ext_event) : Prop :=
  match e with ClientStart _ => False | _ => True end.


(** * asr_client.py: the reconnection loop [_client_run] *)

(** One round of the loop, as the loop sees it: the clock when the round
    starts; what happened to the client while [run_asr_client] ran, that
    is the handlers the vendor's client called and a [stop] from outside;
    and whether [run_asr_client] raised in the end. *)
Record round (T : Type) := {
  current_time : Q;
  session : SpeechmaticsASRClient T -> SpeechmaticsASRClient T;
  run_raised : bool;
}.
Arguments current_time {T} _.
Arguments session {T} _.
Arguments run_raised {T} _.

(** The local variables of [_client_run], and the sleeps it has taken. *)
Record run_locals := {
  last_connect_time : Q;
  retry_interval : Q;
  slept : list Q;
}.

Definition max_retry_interval : Q := 30.

Definition initial_locals : run_locals :=
  {| last_connect_time := 0; retry_interval := 1 # 2; slept := [] |}.

(** The body of the [while] loop, up to the test that ends it. *)
Definition client_run_round {T} (r : round T) (l : run_locals)
    (c : SpeechmaticsASRClient T) : run_locals * SpeechmaticsASRClient T :=
  let slept1 :=
    if negb (Qle_bool (retry_interval l) (current_time r - last_connect_time l))
    then slept l ++ [retry_interval l] else slept l in
  let c1 := session r (set_websocket_connected false c) in
  if run_raised r then
    ({| last_connect_time := current_time r;
        retry_interval := Qmin (retry_interval l * 2) max_retry_interval;
        slept := slept1 |},
     emit (OnAsrError fatal_error) (emit (Log LogError) (emit (Log LogError) c1)))
  else
    ({| last_connect_time := current_time r;
        retry_interval := 1 # 2;
        slept := slept1 |},
     c1).

(** [_client_run] over the rounds that take place: the loop ends when
    [client_needs_stopping] is set, at the top or at the bottom of a
    round. *)
Fixpoint client_run_from {T} (rounds : list (round T)) (l : run_locals)
    (c : SpeechmaticsASRClient T) : run_locals * SpeechmaticsASRClient T :=
  match rounds with
  | [] => (l, c)
  | r :: rest =>
      if client_needs_stopping c then (l, c)
      else
        let '(l1, c1) := client_run_round r l c in
        if client_needs_stopping c1 then (l1, c1)
        else client_run_from rest l1 c1
  end.

Definition _client_run {T} (rounds : list (round T))
    (c : SpeechmaticsASRClient T) : run_locals * SpeechmaticsASRClient T :=
  client_run_from rounds initial_locals c.

(** A round in which the connection fails and nobody stops the client. *)
Definition failing_round {T} (r : round T) : Prop :=
  run_raised r = true
  /\ forall c, client_needs_stopping (session r c) = client_needs_stopping c.

(** The retry interval after [k] failures in a row: half a second,
    doubled [k] times, capped. *)
Definition backed_off (k : nat) : Q :=
  Qmin (inject_Z (2 ^ Z.of_nat k) * (1 # 2)) max_retry_interval.

(** A connection that fails at once, at the given time, and a session
    that begins at the given time and ends without an exception. *)
Definition refused_at {T} (t : Q) : round T :=
  {| current_time := t; session := fun c => c; run_raised := true |}.

Definition ended_at {T} (t : Q) : round T :=
  {| current_time := t; session := fun c => c; run_raised := false |}.

(** The bounds the loop keeps on its locals. *)
Definition within_bounds (l : run_locals) : Prop :=
  ((1 # 2) <= retry_interval l)%Q
  /\ (retry_interval l <= max_retry_interval)%Q
  /\ Forall (fun d => (1 # 2 <= d)%Q /\ (d <= max_retry_interval)%Q) (slept l).


(** * extension.py: [finalize] and the way of a result to the consumer *)

(** What the extension hands to its base class and to the audio stream on
    this way: [send_asr_result], [send_asr_finalize_end], and the silence
    [internal_drain_mute_pkg] asks the audio stream for. *)
Inductive finalize_event :=
| SendAsrResult (r : ASRResult.t)
| SendAsrFinalizeEnd
| PushMutePkg.

(** The extension together with the field [last_finalize_timestamp] and
    what it has handed on. *)
Record Finalizing (T : Type) := {
  extension : SpeechmaticsASRExtension T;
  last_finalize_timestamp : Z;
  handed_on : list finalize_event;
}.
Arguments extension {T} _.
Arguments last_finalize_timestamp {T} _.
Arguments handed_on {T} _.

Definition set_extension {T} (v : SpeechmaticsASRExtension T) (f : Finalizing T)
  : Finalizing T :=
  {| extension := v;
     last_finalize_timestamp := last_finalize_timestamp f;
     handed_on := handed_on f |}.

Definition set_last_finalize_timestamp {T} (v : Z) (f : Finalizing T)
  : Finalizing T :=
  {| extension := extension f;
     last_finalize_timestamp := v;
     handed_on := handed_on f |}.

Definition hand_on {T} (e : finalize_event) (f : Finalizing T) : Finalizing T :=
  {| extension := extension f;
     last_finalize_timestamp := last_finalize_timestamp f;
     handed_on := handed_on f ++ [e] |}.

Definition internal_drain_disconnect {T} (c : SpeechmaticsASRClient T)
  : SpeechmaticsASRClient T :=
  set_audio_queue (audio_queue c ++ [FLUSH; CLOSE]) c.

Definition _handle_finalize_disconnect {T} (f : Finalizing T) : Finalizing T :=
  match client (extension f) with
  | Some c =>
      set_extension (set_client (Some (internal_drain_disconnect c)) (extension f)) f
  | None => f
  end.

Definition _handle_finalize_mute_pkg {T} (f : Finalizing T) : Finalizing T :=
  match client (extension f) with
  | Some _ => hand_on PushMutePkg f
  | None => f
  end.

(** [finalize]: [now_ms] is [int(datetime.now().timestamp() * 1000)], and
    [drain_mode] the field of that name of the configuration. *)
Definition finalize {T} (now_ms : Z) (drain_mode : string) (f : Finalizing T)
  : Finalizing T :=
  let f1 := set_last_finalize_timestamp now_ms f in
  if String.eqb drain_mode "mute_pkg" then _handle_finalize_mute_pkg f1
  else _handle_finalize_disconnect f1.

Definition _finalize_end {T} (f : Finalizing T) : Finalizing T :=
  if negb (last_finalize_timestamp f =? 0)
  then hand_on SendAsrFinalizeEnd (set_last_finalize_timestamp 0 f)
  else f.

(** [text and text.strip()]: a text that is not a string has no [strip]. *)
Definition text_to_log (text : json) : exc bool :=
  match text with
  | JStr s => Ok (str_nonempty s && str_nonempty (strip s))
  | _ => if truthy text then Raise AttributeError else Ok false
  end.

Definition _handle_asr_result {T} (text : json) (final : bool)
    (start_ms duration_ms : Z) (language : string)
    (metadata : gmap string json) (f : Finalizing T)
  : exc unit * Finalizing T :=
  match text_to_log text with
  | Raise e => (Raise e, f)
  | Ok logged =>
      let f1 := if logged
                then set_extension (ext_emit (ExtLog LogInfo) (extension f)) f
                else f in
      let asr_result :=
        ASRResult.mk text final start_ms duration_ms language [] metadata in
      let f2 := if final then _finalize_end f1 else f1 in
      (Ok tt, hand_on (SendAsrResult asr_result) f2)
  end.

Definition on_asr_result {T} (message_data : ASRResult.t) (f : Finalizing T)
  : exc unit * Finalizing T :=
  _handle_asr_result (ASRResult.text message_data) (ASRResult.final message_data)
    (ASRResult.start_ms message_data) (ASRResult.duration_ms message_data)
    (ASRResult.language message_data) (ASRResult.metadata message_data) f.

(** The results of the client reach [on_asr_result] one by one, each in a
    task of its own: one that raises does not stop the next.  The calls
    are taken one after the other, each running to its end before the
    next begins. *)
Fixpoint on_asr_results {T} (results : list ASRResult.t) (f : Finalizing T)
  : Finalizing T :=
  match results with
  | [] => f
  | r :: rest => on_asr_results rest (snd (on_asr_result r f))
  end.

(** A result as the consumer receives it: without its word list. *)
Definition without_words (r : ASRResult.t) : ASRResult.t :=
  ASRResult.mk (ASRResult.text r) (ASRResult.final r) (ASRResult.start_ms r)
    (ASRResult.duration_ms r) (ASRResult.language r) [] (ASRResult.metadata r).

Definition text_is_string (r : ASRResult.t) : Prop :=
  exists s, ASRResult.text r = JStr s.

(** An extension that has not been asked to finalize. *)
Definition demo_finalizing : Finalizing CursorTimeline :=
  {| extension := demo_streaming; last_finalize_timestamp := 0; handed_on := [] |}.

(** A partial segment and the final segment of a sentence, as the client
    emits them. *)
Definition demo_partial : ASRResult.t :=
  ASRResult.mk (JStr "hello") false 100 300 "en"
    [ {| payload_word := JStr "hello"; payload_start_ms := 100;
         payload_duration_ms := 300; payload_stable := true |} ]
    {[ "speaker"%string := JStr "S1" ]}.

Definition demo_final : ASRResult.t :=
  ASRResult.mk (JStr "hello world.") true 100 900 "en"
    [ {| payload_word := JStr "hello"; payload_start_ms := 100;
         payload_duration_ms := 300; payload_stable := true |} ]
    {[ "speaker"%string := JStr "S1" ]}.

(** * streamid_adapter/extension.py *)

(** What a property getter of a frame answers: the pair of a value, which
    may be [None], and of an error, which is [None] or an error object; or
    it raises. *)
Inductive property (A : Type) :=
| Answer (value : option A) (error : bool)
| GetterRaises (e : pyexn).
Arguments Answer {A} value error.
Arguments GetterRaises {A} e.

(** The properties of an audio frame the adapter reads. *)
Record AudioFrame := {
  stream_id_int : property Z;
  remote_user_id_string : property string;
  remote_user_id_int : property Z;
  remote_user_id_uint64 : property Z;
}.

Inductive adapter_event :=
| AdapterLog (lvl : log_level)
| SetPropertyFromJson (name : string) (value : json)
| SendAudioFrame.

Record StreamIdAdapterExtension := {
  _frame_count : Z;
  adapter_events : list adapter_event;
}.

Definition adapter_emit (e : adapter_event) (a : StreamIdAdapterExtension)
  : StreamIdAdapterExtension :=
  {| _frame_count := _frame_count a;
     adapter_events := adapter_events a ++ [e] |}.

(** [str(v)] for an integer or [None]. *)
Definition py_str (v : option Z) : string :=
  match v with
  | Some z => pretty.pretty z
  | None => "None"
  end.

(** [v != 0]. *)
Definition py_ne_zero (v : option Z) : bool :=
  match v with
  | Some z => negb (z =? 0)
  | None => true
  end.

(** One of the two numeric methods: the identifier found, if any, and the
    adapter afterwards (a getter that raises is logged). *)
Definition try_numeric (p : property Z) (a : StreamIdAdapterExtension)
  : option string * StreamIdAdapterExtension :=
  match p with
  | Answer user_id_int user_err =>
      if negb user_err && py_ne_zero user_id_int
      then (Some (py_str user_id_int), a)
      else (None, a)
  | GetterRaises _ => (None, adapter_emit (AdapterLog LogDebug) a)
  end.

Definition on_audio_frame (frame : AudioFrame) (a : StreamIdAdapterExtension)
  : exc unit * StreamIdAdapterExtension :=
  match stream_id_int frame with
  | GetterRaises e => (Raise e, a)
  | Answer stream_id0 stream_err =>
      let stream_id :=
        match stream_id0 with
        | Some z => if stream_err then 0 else z
        | None => 0
        end in
      (* Method 1: as string *)
      let '(found1, a1) :=
        match remote_user_id_string frame with
        | Answer user_id_str user_err =>
            match user_id_str with
            | Some s => if negb user_err && str_nonempty s
                        then (Some s, a) else (None, a)
            | None => (None, a)
            end
        | GetterRaises _ => (None, adapter_emit (AdapterLog LogDebug) a)
        end in
      (* Method 2: as integer *)
      let '(found2, a2) :=
        match found1 with
        | Some s => (Some s, a1)
        | None => try_numeric (remote_user_id_int frame) a1
        end in
      (* Method 3: as uint64 *)
      let '(found3, a3) :=
        match found2 with
        | Some s => (Some s, a2)
        | None => try_numeric (remote_user_id_uint64 frame) a2
        end in
      (* Fallback: the stream id *)
      let remote_user_id_str :=
        match found3 with
        | Some s => s
        | None => pretty.pretty stream_id
        end in
      let metadata :=
        JDict [ ("session_id", JStr (pretty.pretty stream_id));
                ("speaker", JStr remote_user_id_str) ]%string in
      let a4 := {| _frame_count := _frame_count a3 + 1;
                   adapter_events := adapter_events a3 |} in
      let a5 := if _frame_count a4 `mod` 100 =? 1
                then adapter_emit (AdapterLog LogDebug) a4 else a4 in
      (Ok tt,
       adapter_emit SendAudioFrame
         (adapter_emit (SetPropertyFromJson "metadata" metadata) a5))
  end.

(** What each method accepts of the answer of its getter. *)
Definition usable_string (p : property string) : option string :=
  match p with
  | Answer (Some s) false => if str_nonempty s then Some s else None
  | _ => None
  end.

Definition usable_number (p : property Z) : option string :=
  match p with
  | Answer v false => if py_ne_zero v then Some (py_str v) else None
  | _ => None
  end.

(** The stream id the adapter goes on with. *)
Definition stream_id_of (frame : AudioFrame) : Z :=
  match stream_id_int frame with
  | Answer (Some z) false => z
  | _ => 0
  end.

(** The events of the adapter that are not log lines. *)
Definition adapter_actions (evs : list adapter_event) : list adapter_event :=
  List.filter (fun e => match e with AdapterLog _ => false | _ => true end) evs.

(** * More notions *)

(** The first label of a buffer that Python takes for true: what the
    comment of the metadata loop calls the first non-empty one. *)
Definition first_label (label : SpeechmaticsASRWord -> json)
    (ws : list SpeechmaticsASRWord) : option json :=
  head (List.filter truthy (map label ws)).

(** * asr_client.py: the hot words of [start] *)


Section Hotwords.
(** [str.isdigit] knows the digits of every script; the loop is modelled
    over any such test. *)
Variable isdigit : string -> bool.

End Hotwords.




(** * Properties of [config.py]: key rotation *)

Section Rotation.
Implicit Types c : SpeechmaticsASRConfig.

Lemma num_keys_mark c : num_keys (mark_attempted c) = num_keys c.
Proof. unfold mark_attempted. case_bool_decide; reflexivity. Qed.

Lemma current_mark c :
  current_key_index (mark_attempted c) = current_key_index c.
Proof. unfold mark_attempted. case_bool_decide; reflexivity. Qed.

Lemma attempted_mark c i :
  i ∈ attempted_key_indices (mark_attempted c)
  <-> i ∈ attempted_key_indices c \/ i = current_key_index c.
Proof.
  unfold mark_attempted. case_bool_decide as Hin; simpl.
  - split; [tauto | intros [?| ->]; assumption].
  - rewrite elem_of_app, list_elem_of_singleton. reflexivity.
Qed.

Lemma scan_unattempted_Some c offs n :
  scan_unattempted c offs = Some n ->
  (n ∉ attempted_key_indices c)
  /\ exists i, i ∈ offs /\ n = (current_key_index c + 1 + i) `mod` num_keys c.
Proof.
  induction offs as [|i r IH]; simpl; [discriminate|].
  case_bool_decide as Hin.
  - intros H. destruct (IH H) as [Hn [j [Hj ->]]].
    split; [assumption|]. exists j. split; [right; assumption | reflexivity].
  - intros [= <-]. split; [assumption|].
    exists i. split; [left | reflexivity].
Qed.

Lemma scan_unattempted_None c offs :
  scan_unattempted c offs = None ->
  forall i, i ∈ offs ->
    (current_key_index c + 1 + i) `mod` num_keys c ∈ attempted_key_indices c.
Proof.
  induction offs as [|j r IH]; simpl; intros H i Hi.
  - inversion Hi.
  - case_bool_decide as Hin; [|discriminate].
    apply elem_of_cons in Hi as [-> | Hi]; [assumption | auto].
Qed.

(** Every index in range is reached by the circular scan. *)
Lemma scan_reaches c i :
  0 <= i < num_keys c ->
  exists j, j ∈ seqZ 0 (num_keys c)
            /\ (current_key_index c + 1 + j) `mod` num_keys c = i.
Proof.
  intros Hi. exists ((i - current_key_index c - 1) `mod` num_keys c).
  split.
  - apply elem_of_seqZ. pose proof (Z.mod_pos_bound (i - current_key_index c - 1) (num_keys c)). lia.
  - rewrite Zplus_mod_idemp_r.
    replace (current_key_index c + 1 + (i - current_key_index c - 1)) with i by lia.
    apply Z.mod_small. lia.
Qed.

(** One call that returns: the new index is in range, was not attempted,
    is not the one just left, and the key returned is the key at it. *)
Lemma get_next_key_Ok c k c' :
  1 < num_keys c ->
  get_next_key c = (Ok k, c') ->
  0 <= current_key_index c' < num_keys c
  /\ (current_key_index c' ∉ attempted_key_indices c)
  /\ current_key_index c' <> current_key_index c
  /\ (current_key_index c' ∉ attempted_key_indices c')
  /\ (forall i, i ∈ attempted_key_indices c'
                <-> i ∈ attempted_key_indices c \/ i = current_key_index c)
  /\ api_keys c' = api_keys c
  /\ k = key_at c (current_key_index c').
Proof.
  intros HN. unfold get_next_key.
  destruct (Z.ltb_spec 1 (num_keys c)) as [_|]; [|lia].
  destruct (scan_unattempted _ _) as [n|] eqn:Hscan; [|discriminate].
  intros [= <- <-]. simpl.
  apply scan_unattempted_Some in Hscan as [Hn [j [Hj ->]]].
  rewrite num_keys_mark, current_mark in *.
  assert (Hfresh := Hn). rewrite attempted_mark in Hfresh.
  repeat split.
  - apply Z.mod_pos_bound. lia.
  - apply Z.mod_pos_bound. lia.
  - tauto.
  - tauto.
  - assumption.
  - apply attempted_mark.
  - apply attempted_mark.
  - unfold mark_attempted. case_bool_decide; reflexivity.
  - unfold key_at, mark_attempted. case_bool_decide; reflexivity.
Qed.

(** One call that raises: it is the exhaustion error, every index in range
    is attempted afterwards, and the current index stays. *)
Lemma get_next_key_Raise c e c' :
  get_next_key c = (Raise e, c') ->
  e = ValueError
  /\ 1 < num_keys c
  /\ c' = mark_attempted c
  /\ forall i, 0 <= i < num_keys c -> i ∈ attempted_key_indices c'.
Proof.
  unfold get_next_key.
  destruct (Z.ltb_spec 1 (num_keys c)) as [HN|].
  - destruct (scan_unattempted _ _) as [n|] eqn:Hscan; [discriminate|].
    intros [= <- <-]. repeat split; try assumption.
    intros i Hi.
    destruct (scan_reaches (mark_attempted c) i) as [j [Hj Hji]].
    { rewrite num_keys_mark. assumption. }
    rewrite <- Hji. eapply scan_unattempted_None; eassumption.
  - destruct (get_current_key c). discriminate.
Qed.

Lemma size_range (n : Z) :
  0 <= n -> Z.of_nat (size (list_to_set (seqZ 0 n) : gset Z)) = n.
Proof.
  intros Hn. rewrite size_list_to_set by apply NoDup_seqZ.
  rewrite length_seqZ. lia.
Qed.

Lemma tried_bound c : Z.of_nat (size (tried c)) <= Z.max 0 (num_keys c).
Proof.
  unfold tried.
  etransitivity.
  - apply inj_le. apply subseteq_size. apply intersection_subseteq_r.
  - rewrite size_list_to_set by apply NoDup_seqZ. rewrite length_seqZ. lia.
Qed.

Lemma tried_current c :
  0 <= current_key_index c < num_keys c -> (1 <= size (tried c))%nat.
Proof.
  intros Hc.
  assert (Hin : current_key_index c ∈ tried c).
  { unfold tried. apply elem_of_intersection. split.
    - apply elem_of_list_to_set. left.
    - apply elem_of_list_to_set, elem_of_seqZ. lia. }
  destruct (size (tried c)) eqn:E; [|lia].
  apply size_empty_inv in E. apply leibniz_equiv in E.
  rewrite E in Hin. apply not_elem_of_empty in Hin. destruct Hin.
Qed.

Lemma tried_Ok c k c' :
  1 < num_keys c ->
  get_next_key c = (Ok k, c') ->
  size (tried c') = S (size (tried c)).
Proof.
  intros HN H.
  destruct (get_next_key_Ok _ _ _ HN H)
    as (Hr & Hf & Hne & _ & Hatt & Hkeys & _).
  assert (HN' : num_keys c' = num_keys c) by (unfold num_keys; rewrite Hkeys; reflexivity).
  assert (E : tried c' = {[ current_key_index c' ]} ∪ tried c).
  { apply set_eq. intros i. unfold tried.
    rewrite elem_of_union, !elem_of_intersection, !elem_of_list_to_set,
      !elem_of_cons, elem_of_singleton, HN', Hatt, elem_of_seqZ.
    split.
    - intros [[->|[?| ->]] ?]; tauto.
    - intros [->|[[?|?] ?]]; (split; [tauto | lia]). }
  rewrite E, size_union, size_singleton; [reflexivity|].
  apply disjoint_singleton_l. unfold tried.
  rewrite elem_of_intersection, elem_of_list_to_set, elem_of_cons.
  tauto.
Qed.

Lemma tried_Raise c e c' :
  0 <= current_key_index c < num_keys c ->
  get_next_key c = (Raise e, c') ->
  tried c' = tried c /\ current_key_index c' = current_key_index c
  /\ num_keys c' = num_keys c.
Proof.
  intros Hc H. apply get_next_key_Raise in H as (_ & _ & -> & _).
  rewrite current_mark, num_keys_mark. repeat split.
  apply set_eq. intros i. unfold tried.
  rewrite !elem_of_intersection, !elem_of_list_to_set, !elem_of_cons,
    attempted_mark, current_mark, num_keys_mark. tauto.
Qed.

Lemma rotate_calls_count k : forall c,
  1 < num_keys c ->
  0 <= current_key_index c < num_keys c ->
  (length (filter (fun r => succeeded r = true) (rotate_calls k c))
   + size (tried c) <= Z.to_nat (num_keys c))%nat.
Proof.
  induction k as [|k IH]; intros c HN Hc; simpl.
  - pose proof (tried_bound c). lia.
  - destruct (get_next_key c) as [[key|e] c1] eqn:E.
    + destruct (get_next_key_Ok _ _ _ HN E) as (Hr & _ & _ & _ & _ & Hkeys & _).
      assert (HN' : num_keys c1 = num_keys c) by (unfold num_keys; rewrite Hkeys; reflexivity).
      rewrite filter_cons_True by reflexivity. simpl.
      specialize (IH c1). rewrite HN' in IH.
      rewrite (tried_Ok _ _ _ HN E) in IH.
      specialize (IH HN Hr). lia.
    + destruct (tried_Raise _ _ _ Hc E) as (Ht & Hcur & HN').
      rewrite filter_cons_False by (simpl; discriminate).
      specialize (IH c1). rewrite HN', Ht, Hcur in IH. auto.
Qed.

Lemma rotate_calls_fresh k : forall c,
  1 < num_keys c ->
  Forall (fun r =>
    match outcome r with
    | Ok key =>
        (current_key_index (after r) ∉ attempted_key_indices (before r))
        /\ (current_key_index (after r) ∉ attempted_key_indices (after r))
        /\ key = key_at c (current_key_index (after r))
    | Raise e => e = ValueError
    end) (rotate_calls k c).
Proof.
  induction k as [|k IH]; intros c HN; simpl; [constructor|].
  destruct (get_next_key c) as [[key|e] c1] eqn:E.
  - destruct (get_next_key_Ok _ _ _ HN E) as (Hr & Hf & _ & Hf' & _ & Hkeys & Hk).
    assert (HN' : num_keys c1 = num_keys c) by (unfold num_keys; rewrite Hkeys; reflexivity).
    constructor; [simpl; auto|].
    specialize (IH c1). rewrite HN' in IH. specialize (IH HN).
    eapply Forall_impl; [exact IH|]. intros r. simpl.
    destruct (outcome r); [|auto]. unfold key_at. rewrite Hkeys. auto.
  - destruct (get_next_key_Raise _ _ _ E) as (-> & _ & -> & _).
    constructor; [reflexivity|]. simpl.
    specialize (IH (mark_attempted c)). rewrite num_keys_mark in IH.
    specialize (IH HN).
    eapply Forall_impl; [exact IH|]. intros r. simpl.
    destruct (outcome r); [|auto]. unfold key_at, mark_attempted.
    case_bool_decide; auto.
Qed.

(** Once every index in range is in the attempted list, every call raises. *)
Lemma rotate_calls_exhausted (m : nat) : forall c,
  1 < num_keys c ->
  (forall i, 0 <= i < num_keys c -> i ∈ attempted_key_indices c) ->
  map outcome (rotate_calls m c) = replicate m (Raise ValueError).
Proof.
  induction m as [|m IH]; intros c HN Hall; [reflexivity|].
  cbn [rotate_calls].
  destruct (get_next_key c) as [[k|e] c1] eqn:E.
  - apply get_next_key_Ok in E as (Hr & Hf & _); [|exact HN].
    destruct (Hf (Hall _ Hr)).
  - apply get_next_key_Raise in E as (-> & _ & -> & Hall').
    cbn [map outcome replicate]. f_equal.
    apply IH; [rewrite num_keys_mark; exact HN|].
    rewrite num_keys_mark. exact Hall'.
Qed.

(** From any state at all, at most N calls return: the first call that
    returns leaves the current index in range, and a call that raises has
    every index attempted. *)
Lemma rotate_calls_count_any k : forall c,
  1 < num_keys c ->
  Z.of_nat (length (filter (fun r => succeeded r = true) (rotate_calls k c)))
  <= num_keys c.
Proof.
  induction k as [|k IH]; intros c HN; simpl; [lia|].
  destruct (get_next_key c) as [[key|e] c1] eqn:E.
  - destruct (get_next_key_Ok _ _ _ HN E) as (Hr & _ & _ & _ & _ & Hkeys & _).
    assert (HN' : num_keys c1 = num_keys c)
      by (unfold num_keys; rewrite Hkeys; reflexivity).
    rewrite filter_cons_True by reflexivity. simpl length.
    rewrite <- HN' in Hr, HN.
    pose proof (rotate_calls_count k c1 HN Hr).
    pose proof (tried_current c1 Hr). lia.
  - destruct (get_next_key_Raise _ _ _ E) as (-> & _ & -> & Hall).
    rewrite filter_cons_False by (simpl; discriminate).
    assert (Hnone : map outcome (rotate_calls k (mark_attempted c))
                    = replicate k (Raise ValueError)).
    { apply rotate_calls_exhausted; rewrite num_keys_mark; assumption. }
    assert (Hz : forall rs,
               Forall (fun o => o = Raise ValueError) (map outcome rs) ->
               filter (fun r => succeeded r = true) rs = []).
    { induction rs as [|r rs IHrs]; [reflexivity|].
      cbn [map]. intros Hrs. apply Forall_cons in Hrs as [Hr Hrs].
      rewrite filter_cons_False; [auto|].
      unfold succeeded. rewrite Hr. discriminate. }
    rewrite Hz; [simpl; lia|].
    rewrite Hnone. apply Forall_replicate. reflexivity.
Qed.

(** C4.  In any run of [get_next_key] calls with no [reset_key_rotation]
    in between, over N > 1 keys: every call that returns moves to an index
    that was not in the attempted list, neither before the call nor after
    it, and returns the key at that index; every call that does not return
    raises the exhaustion error.  At most N-1 of the calls return when the
    current index is in range at the start, which is so after
    [reset_key_rotation] and after [get_current_key]; from a start with the
    index out of range the only bound is N. *)
Theorem C4_rotation_fresh_and_bounded (c : SpeechmaticsASRConfig) (k : nat) :
  1 < num_keys c ->
  let returned (c0 : SpeechmaticsASRConfig) :=
    Z.of_nat (length (filter (fun r => succeeded r = true) (rotate_calls k c0))) in
  Forall (fun r =>
    match outcome r with
    | Ok key =>
        (current_key_index (after r) ∉ attempted_key_indices (before r))
        /\ (current_key_index (after r) ∉ attempted_key_indices (after r))
        /\ key = key_at c (current_key_index (after r))
    | Raise e => e = ValueError
    end) (rotate_calls k c)
  /\ (0 <= current_key_index c < num_keys c -> returned c <= num_keys c - 1)
  /\ returned (reset_key_rotation c) <= num_keys c - 1
  /\ returned (snd (get_current_key c)) <= num_keys c - 1
  /\ returned c <= num_keys c.
Proof.
  intros HN returned. subst returned. cbv beta.
  assert (Hin : forall c0, 1 < num_keys c0 ->
            0 <= current_key_index c0 < num_keys c0 ->
            Z.of_nat (length (filter (fun r => succeeded r = true)
                                (rotate_calls k c0))) <= num_keys c0 - 1).
  { intros c0 H0 Hc.
    pose proof (rotate_calls_count k c0 H0 Hc).
    pose proof (tried_current c0 Hc). lia. }
  split; [apply rotate_calls_fresh; assumption|].
  split; [apply Hin; assumption|].
  split; [|split].
  - apply (Hin (reset_key_rotation c)).
    + exact HN.
    + change (0 <= 0 < num_keys c). lia.
  - unfold get_current_key.
    destruct (Z.ltb_spec 0 (num_keys c)); [|lia].
    destruct (Z.leb_spec 0 (current_key_index c));
      [destruct (Z.ltb_spec (current_key_index c) (num_keys c))|]; cbn [andb snd].
    + apply Hin; [assumption | lia].
    + apply (Hin (set_current_key_index 0 c)); [exact HN|].
      change (0 <= 0 < num_keys c). lia.
    + apply (Hin (set_current_key_index 0 c)); [exact HN|].
      change (0 <= 0 < num_keys c). lia.
  - apply rotate_calls_count_any. assumption.
Qed.
End Rotation.

Lemma C4_rotation_witness :
  1 < num_keys demo_config
  /\ Forall (fun r =>
       match outcome r with
       | Ok key =>
           (current_key_index (after r) ∉ attempted_key_indices (before r))
           /\ (current_key_index (after r) ∉ attempted_key_indices (after r))
           /\ key = key_at demo_config (current_key_index (after r))
       | Raise e => e = ValueError
       end) (rotate_calls 3 demo_config)
  /\ Z.of_nat (length (filter (fun r => succeeded r = true)
                         (rotate_calls 3 demo_config))) <= num_keys demo_config - 1.
Proof.
  assert (H1 : 1 < num_keys demo_config) by reflexivity.
  assert (H2 : 0 <= current_key_index demo_config < num_keys demo_config)
    by (split; [discriminate | reflexivity]).
  destruct (C4_rotation_fresh_and_bounded demo_config 3 H1) as (Hf & Hb & _).
  exact (conj H1 (conj Hf (Hb H2))).
Defined.

(** With two keys and the current index at -3, which no key has, both keys
    are returned before the exhaustion error: N calls return, not N-1. *)
Lemma C4_out_of_range_counterexample :
  num_keys (set_current_key_index (-3) demo_config) = 2
  /\ map outcome (rotate_calls 3 (set_current_key_index (-3) demo_config))
     = [Ok "key-one"%string; Ok "key-two"%string; Raise ValueError]
  /\ ~ Z.of_nat (length (filter (fun r => succeeded r = true)
                           (rotate_calls 3 (set_current_key_index (-3) demo_config))))
        <= num_keys (set_current_key_index (-3) demo_config) - 1.
Proof.
  split; [reflexivity|]. split; [reflexivity|].
  vm_compute. intros H. apply H. reflexivity.
Qed.

(** * Properties of the audio path of [asr_client.py] *)

Section Numbers.
Lemma py_int_inject (z : Z) : py_int (inject_Z z) = z.
Proof. unfold py_int. simpl. apply Z.quot_1_r. Qed.

Lemma py_int_floor (q : Q) : 0 <= Qnum q -> py_int q = Qfloor q.
Proof.
  intros H. unfold py_int. destruct q as [n d]. simpl in *.
  apply Z.quot_div_nonneg; lia.
Qed.

Lemma py_int_ceiling (q : Q) : Qnum q <= 0 -> py_int q = Qceiling q.
Proof.
  intros H. unfold py_int, Qceiling. destruct q as [n d]. simpl in *.
  rewrite <- (Z.opp_involutive n) at 1.
  rewrite Z.quot_opp_l by lia.
  f_equal. apply Z.quot_div_nonneg; lia.
Qed.

Lemma Qnum_sign (q : Q) : (0 <= q)%Q <-> 0 <= Qnum q.
Proof. unfold Qle. simpl. lia. Qed.

(** [int] is monotone. *)
Lemma py_int_mono (x y : Q) : (x <= y)%Q -> py_int x <= py_int y.
Proof.
  intros Hxy.
  destruct (Z_le_gt_dec 0 (Qnum x)) as [Hx|Hx].
  - assert (0 <= Qnum y).
    { apply Qnum_sign. apply Qle_trans with x; [apply Qnum_sign|]; assumption. }
    rewrite !py_int_floor by assumption. apply Qfloor_resp_le. assumption.
  - rewrite (py_int_ceiling x) by lia.
    destruct (Z_le_gt_dec 0 (Qnum y)) as [Hy|Hy].
    + rewrite py_int_floor by assumption.
      assert (Qceiling x <= 0).
      { rewrite <- (Qceiling_Z 0). apply Qceiling_resp_le.
        unfold Qle. simpl. lia. }
      assert (0 <= Qfloor y).
      { rewrite <- (Qfloor_Z 0). apply Qfloor_resp_le. apply Qnum_sign. assumption. }
      lia.
    + rewrite py_int_ceiling by lia. apply Qceiling_resp_le. assumption.
Qed.
End Numbers.

Section Packing.
Lemma byte_to_Z_range (b : Byte.byte) : 0 <= byte_to_Z b < 256.
Proof. unfold byte_to_Z. pose proof (Byte.to_N_bounded b). lia. Qed.

Lemma byte_to_of_Z (z : Z) : 0 <= z < 256 -> byte_to_Z (byte_of_Z z) = z.
Proof.
  intros Hz. unfold byte_to_Z, byte_of_Z.
  destruct (Byte.of_N (Z.to_N z)) as [b|] eqn:E.
  - simpl. apply Byte.to_of_N in E. rewrite E. lia.
  - apply Byte.of_N_None_iff in E. lia.
Qed.

Lemma unpack_h_range (lo hi : Byte.byte) : -32768 <= unpack_h lo hi <= 32767.
Proof.
  unfold unpack_h.
  pose proof (byte_to_Z_range lo). pose proof (byte_to_Z_range hi).
  destruct (Z.ltb_spec (byte_to_Z lo + 256 * byte_to_Z hi) 32768); lia.
Qed.

Lemma unpack_pack_h (z : Z) (r : list Byte.byte) :
  -32768 <= z <= 32767 ->
  unpack_items (pack_h z ++ r) = z :: unpack_items r.
Proof.
  intros Hz. unfold pack_h. simpl. f_equal.
  unfold unpack_h.
  pose proof (Z.mod_pos_bound z 65536 ltac:(lia)) as Hu.
  set (u := z `mod` 65536) in *.
  rewrite !byte_to_of_Z.
  - assert (Hd : u `mod` 256 + 256 * (u / 256) = u)
      by (pose proof (Z_div_mod_eq_full u 256); lia).
    rewrite Hd.
    destruct (Z.ltb_spec u 32768) as [Hlt|Hge]; subst u.
    + destruct (Z_le_gt_dec 0 z).
      * apply Z.mod_small. lia.
      * assert (E : z `mod` 65536 = z + 65536).
        { symmetry. apply (Z.mod_unique z 65536 (-1)); lia. }
        lia.
    + destruct (Z_le_gt_dec 0 z).
      * rewrite Z.mod_small in Hge by lia. lia.
      * assert (E : z `mod` 65536 = z + 65536).
        { symmetry. apply (Z.mod_unique z 65536 (-1)); lia. }
        lia.
  - split; [apply Z.div_pos; lia | apply Z.div_lt_upper_bound; lia].
  - apply Z.mod_pos_bound. lia.
Qed.

Lemma unpack_pack_items (xs : list Z) :
  Forall (fun x => -32768 <= x <= 32767) xs ->
  unpack_items (concat (map pack_h xs)) = xs.
Proof.
  induction 1 as [|x xs Hx _ IH]; [reflexivity|].
  cbn [map concat]. rewrite unpack_pack_h by assumption. rewrite IH. reflexivity.
Qed.

Lemma length_pack_items (xs : list Z) :
  length (concat (map pack_h xs)) = (2 * length xs)%nat.
Proof. induction xs as [|x xs IH]; simpl; lia. Qed.

Lemma length_unpack_items : forall (n : nat) (buf : list Byte.byte),
  length buf = (2 * n)%nat -> length (unpack_items buf) = n.
Proof.
  induction n as [|n IH]; intros buf H.
  - destruct buf; [reflexivity | discriminate].
  - destruct buf as [|lo [|hi r]]; simpl in H; try lia.
    simpl. f_equal. apply IH. lia.
Qed.

Lemma unpack_items_range_fuel (n : nat) : forall buf : list Byte.byte,
  (length buf <= n)%nat ->
  Forall (fun x => -32768 <= x <= 32767) (unpack_items buf).
Proof.
  induction n as [|n IH]; intros buf Hlen.
  - destruct buf; [constructor | simpl in Hlen; lia].
  - destruct buf as [|lo [|hi r]]; simpl; try constructor.
    + apply unpack_h_range.
    + apply IH. simpl in Hlen. lia.
Qed.

Lemma unpack_items_range (buf : list Byte.byte) :
  Forall (fun x => -32768 <= x <= 32767) (unpack_items buf).
Proof. apply (unpack_items_range_fuel (length buf)). lia. Qed.
End Packing.

Section Gain.
Lemma amplify_range (g : Q) (s : Z) : -32768 <= amplify g s <= 32767.
Proof. unfold amplify. lia. Qed.


Lemma struct_pack_amplified (g : Q) (samples : list Z) :
  struct_pack (Z.of_nat (length samples)) (map (amplify g) samples)
  = Ok (concat (map pack_h (map (amplify g) samples))).
Proof.
  unfold struct_pack. rewrite length_map, Z.eqb_refl. simpl.
  replace (forallb _ _) with true; [reflexivity|].
  symmetry. apply forallb_forall. intros x Hx.
  apply in_map_iff in Hx as [s [<- _]].
  pose proof (amplify_range g s).
  apply andb_true_iff. split; apply Z.leb_le; lia.
Qed.
End Gain.

Section RecvAudio.
Context {T : Type}.
Implicit Types c : SpeechmaticsASRClient T.

Lemma events_log_audio_stats c :
  errors_of (events (log_audio_stats c)) = errors_of (events c)
  /\ audio_queue (log_audio_stats c) = audio_queue c.
Proof.
  unfold log_audio_stats. destruct (connected c); [|tauto]. simpl.
  destruct (_ =? 1); [|tauto]. simpl. unfold errors_of.
  rewrite omap_app. simpl. rewrite app_nil_r. tauto.
Qed.

(** A frame of whole samples: what is appended to the queue. *)
Lemma recv_audio_frame_even cfg (buf : list Byte.byte) sid c (n : nat) :
  (0 < n)%nat -> length buf = (2 * n)%nat ->
  let c' := recv_audio_frame cfg buf sid c in
  let out := concat (map pack_h (map (amplify (audio_gain cfg)) (unpack_items buf))) in
  audio_queue c' = audio_queue c ++ [Audio out]
  /\ errors_of (events c') = errors_of (events c)
  /\ length out = length buf
  /\ unpack_items out = map (amplify (audio_gain cfg)) (unpack_items buf).
Proof.
  intros Hn Hlen. cbv zeta.
  assert (Hu : length (unpack_items buf) = n) by (apply length_unpack_items; assumption).
  unfold recv_audio_frame.
  destruct buf as [|b0 buf0] eqn:Ebuf; [simpl in Hlen; lia|]. rewrite <- Ebuf in *.
  unfold condition_frame.
  assert (Hq : Z.of_nat (length buf) / 2 = Z.of_nat n).
  { rewrite Hlen. rewrite Nat2Z.inj_mul. rewrite Z.mul_comm. apply Z.div_mul. lia. }
  rewrite Hq.
  destruct (Z.ltb_spec 0 (Z.of_nat n)); [|lia].
  unfold struct_unpack.
  replace (Z.of_nat (length buf) =? 2 * Z.of_nat n) with true
    by (symmetry; apply Z.eqb_eq; lia).
  pose proof (struct_pack_amplified (audio_gain cfg) (unpack_items buf)) as Hp.
  rewrite Hu in Hp. rewrite Hp.
  destruct (events_log_audio_stats (set_session_id sid c)) as [He Hqu].
  unfold set_audio_queue. cbn [audio_queue events].
  rewrite Hqu, He. cbn [set_session_id audio_queue events].
  repeat split.
  - rewrite length_pack_items, length_map. lia.
  - apply unpack_pack_items. apply Forall_forall. intros x Hx.
    apply list_elem_of_In, in_map_iff in Hx as [s [<- _]]. apply amplify_range.
Qed.

(** A frame of three bytes or more with a byte left over: [struct.unpack]
    refuses it, and the frame is reported, not enqueued. *)
Lemma recv_audio_frame_odd cfg (buf : list Byte.byte) sid c (n : nat) :
  (0 < n)%nat -> length buf = (2 * n + 1)%nat ->
  let c' := recv_audio_frame cfg buf sid c in
  audio_queue c' = audio_queue c
  /\ events c' = events c ++ [Log LogError; Log LogError; OnAsrError fatal_error].
Proof.
  intros Hn Hlen. cbv zeta. unfold recv_audio_frame.
  destruct buf as [|b0 buf0] eqn:Ebuf; [simpl in Hlen; lia|]. rewrite <- Ebuf in *.
  unfold condition_frame.
  assert (Hq : Z.of_nat (length buf) / 2 = Z.of_nat n).
  { rewrite Hlen. symmetry. apply (Z.div_unique _ 2 _ 1); lia. }
  rewrite Hq.
  destruct (Z.ltb_spec 0 (Z.of_nat n)); [|lia].
  unfold struct_unpack.
  replace (Z.of_nat (length buf) =? 2 * Z.of_nat n) with false
    by (symmetry; apply Z.eqb_neq; lia).
  simpl. rewrite <- !app_assoc. split; reflexivity.
Qed.
End RecvAudio.




(** C6.  A frame of one byte, which holds no whole sample, is enqueued
    unchanged and a warning is logged; an empty frame changes nothing but
    the log, which receives a warning: nothing is enqueued and no error is
    reported. *)
Theorem C6_single_byte_and_empty_frames {T : Type}
    (cfg : SpeechmaticsASRConfig) (b : Byte.byte) (sid : option string)
    (c : SpeechmaticsASRClient T) :
  (audio_queue (recv_audio_frame cfg [b] sid c) = audio_queue c ++ [Audio [b]]
   /\ events (recv_audio_frame cfg [b] sid c) = events c ++ [Log LogWarn])
  /\ recv_audio_frame cfg [] sid c = emit (Log LogWarn) c
  /\ audio_queue (recv_audio_frame cfg [] sid c) = audio_queue c
  /\ events (recv_audio_frame cfg [] sid c) = events c ++ [Log LogWarn].
Proof. repeat split. Qed.

(** A frame of three bytes: the third byte is not passed on, nothing is
    enqueued and an error is reported. *)
Lemma C6_odd_frame_counterexample :
  audio_queue (recv_audio_frame demo_config [Byte.x01; Byte.x00; Byte.x02]
                 None demo_client) = []
  /\ events (recv_audio_frame demo_config [Byte.x01; Byte.x00; Byte.x02]
               None demo_client)
     = [Log LogError; Log LogError; OnAsrError fatal_error].
Proof. split; reflexivity. Qed.

(** * Properties of [extension.py] *)

Section SendAudio.
Context {T : Type}.
Implicit Types x : SpeechmaticsASRExtension T.

End SendAudio.



Section QuotaRotation.
Context {T : Type}.
Implicit Types x : SpeechmaticsASRExtension T.

Lemma sent_errors_app (l k : list ext_event) :
  sent_errors (l ++ k) = sent_errors l ++ sent_errors k.
Proof. apply omap_app. Qed.

Lemma client_starts_app (l k : list ext_event) :
  client_starts (l ++ k) = client_starts l ++ client_starts k.
Proof. apply omap_app. Qed.

Lemma stop_connection_effect x :
  config (stop_connection x) = config x
  /\ sent_errors (ext_events (stop_connection x)) = sent_errors (ext_events x)
  /\ client_starts (ext_events (stop_connection x)) = client_starts (ext_events x).
Proof.
  unfold stop_connection. destruct (client x); cbn;
    rewrite ?sent_errors_app, ?client_starts_app; cbn;
    rewrite ?app_nil_r; repeat split; reflexivity.
Qed.

Lemma attempted_short (c : SpeechmaticsASRConfig) (i : Z) :
  rotation_wf c -> 0 <= i < num_keys c -> i ∉ attempted_key_indices c ->
  Z.of_nat (length (attempted_key_indices c)) < num_keys c.
Proof.
  intros [Hnd Hall] Hi Hni.
  assert (Hsub : i :: attempted_key_indices c ⊆+ seqZ 0 (num_keys c)).
  { apply NoDup_submseteq.
    - constructor; assumption.
    - intros j Hj. apply elem_of_seqZ.
      apply elem_of_cons in Hj as [->|Hj]; [lia|].
      rewrite Forall_forall in Hall. specialize (Hall j Hj). lia. }
  apply submseteq_length in Hsub. rewrite length_seqZ in Hsub.
  simpl in Hsub. lia.
Qed.

(** The attempted list stays well formed along the rotation, from the
    configuration as constructed or reset. *)
Lemma rotation_wf_reset (c : SpeechmaticsASRConfig) :
  rotation_wf (reset_key_rotation c).
Proof. split; constructor. Qed.

Lemma rotation_wf_mark (c : SpeechmaticsASRConfig) :
  rotation_wf c ->
  0 <= current_key_index c < num_keys c ->
  rotation_wf (mark_attempted c).
Proof.
  intros [Hnd Hall] Hc. unfold rotation_wf, mark_attempted.
  case_bool_decide as Hin; [split; assumption|].
  cbn [attempted_key_indices set_attempted_key_indices].
  split.
  - apply NoDup_app. repeat split; [assumption | | apply NoDup_singleton].
    intros i Hi Hi'. apply list_elem_of_singleton in Hi' as ->. contradiction.
  - apply Forall_app. split; [exact Hall | apply Forall_singleton; exact Hc].
Qed.

Lemma rotation_wf_next (c : SpeechmaticsASRConfig) (r : exc string)
    (c' : SpeechmaticsASRConfig) :
  rotation_wf c ->
  0 <= current_key_index c < num_keys c ->
  get_next_key c = (r, c') ->
  rotation_wf c' /\ 0 <= current_key_index c' < num_keys c'.
Proof.
  intros Hwf Hc E. destruct r as [k|e].
  - destruct (Z.ltb_spec 1 (num_keys c)) as [HN|HN].
    + assert (E' := E).
      apply get_next_key_Ok in E' as (Hr & _ & _ & _ & _ & Hkeys & _); [|exact HN].
      assert (HN' : num_keys c' = num_keys c)
        by (unfold num_keys; rewrite Hkeys; reflexivity).
      rewrite HN'. split; [|exact Hr].
      revert E. unfold get_next_key.
      destruct (Z.ltb_spec 1 (num_keys c)); [|lia].
      destruct (scan_unattempted _ _); [|discriminate].
      intros [= _ <-]. apply (rotation_wf_mark c Hwf Hc).
    + revert E. unfold get_next_key, get_current_key.
      destruct (Z.ltb_spec 1 (num_keys c)); [lia|].
      destruct (Z.ltb_spec 0 (num_keys c)); [|lia].
      destruct (Z.leb_spec 0 (current_key_index c)); [|lia].
      destruct (Z.ltb_spec (current_key_index c) (num_keys c)); [|lia].
      cbn [andb]. intros [= _ <-]. split; assumption.
  - apply get_next_key_Raise in E as (_ & _ & -> & _).
    rewrite current_mark, num_keys_mark.
    split; [apply rotation_wf_mark; assumption | exact Hc].
Qed.







End QuotaRotation.



(** * Properties of the transcript handlers of [asr_client.py] *)

(** Runs the Python-level operations of a handler on values whose shape is
    known, leaving the numbers and the timeline alone. *)
Ltac run_python :=
  cbn beta iota zeta delta
    [bind lift get modify ret time_ms exc_bind py_get py_iter py_index0
     py_times_1000 py_eq_str py_eq_true truthy str_nonempty
     token_json message_json assoc from_option id
     String.eqb Ascii.eqb Bool.eqb fst snd].

Ltac case_exc :=
  match goal with
  | |- context [match ?r with Ok _ => _ | Raise _ => _ end] =>
      destruct r eqn:?; run_python
  end.

Ltac case_bool :=
  match goal with
  | |- context [if ?b then _ else _] => destruct b eqn:?; run_python
  end.

Section Handlers.
Context {T : Type} `{TL : AudioTimeline T} `{WM : WordModule}.
Implicit Types c : SpeechmaticsASRClient T.

(** What [emit_sentence] does: it appends one segment built from the
    cache, or raises and changes nothing. *)
Lemma emit_sentence_spec cfg fin c :
  match emit_sentence cfg fin c with
  | (Ok _, c') =>
      exists s st d,
        convert_words_to_sentence (cache_words c) cfg = Ok s
        /\ get_sentence_start_ms (cache_words c) = Ok st
        /\ get_sentence_duration_ms (cache_words c) = Ok d
        /\ c' = emit (OnAsrResult
                  (ASRResult.mk (JStr s) fin st d (language cfg)
                     (get_words (cache_words c))
                     (sentence_metadata (cache_words c)))) c
  | (Raise _, c') => c' = c
  end.
Proof.
  unfold emit_sentence. run_python.
  destruct (convert_words_to_sentence (cache_words c) cfg) as [s|e]; [|reflexivity].
  destruct (get_sentence_start_ms (cache_words c)) as [st|e]; [|reflexivity].
  destruct (get_sentence_duration_ms (cache_words c)) as [d|e]; [|reflexivity].
  eexists _, _, _. repeat split.
Qed.

(** What [cache_token] does: nothing, or one word appended whose start is
    an [actual_start] of this client; when it raises nothing changed. *)
Lemma cache_token_spec result c :
  match cache_token result c with
  | (Ok _, c') =>
      c' = c
      \/ exists w t, c' = set_cache_words (cache_words c ++ [w]) c
                     /\ start_ms w = actual_start c t
  | (Raise _, c') => c' = c
  end.
Proof.
  unfold cache_token. run_python.
  repeat first [case_exc | case_bool];
    try reflexivity; try (left; reflexivity).
  all: right; eexists _, _; split; reflexivity.
Qed.

(** On a well-formed result [cache_token] never raises. *)
Lemma cache_token_typed (t : token) c :
  cache_token (token_json t) c
  = (Ok tt,
     if str_nonempty (tok_content t)
     then set_cache_words (cache_words c ++ [token_word c t]) c
     else c).
Proof.
  destruct t as [content t0 t1 ty eos spk ch].
  unfold cache_token, token_word. run_python.
  destruct content; reflexivity.
Qed.

Lemma handle_result_typed cfg (t : token) c :
  handle_result cfg (token_json t) c
  = let c1 := if str_nonempty (tok_content t)
              then set_cache_words (cache_words c ++ [token_word c t]) c
              else c in
    if tok_is_eos t then
      match emit_sentence cfg true c1 with
      | (Ok _, c2) => (Ok tt, set_cache_words [] c2)
      | (Raise e, c2) => (Raise e, c2)
      end
    else (Ok tt, c1).
Proof.
  unfold handle_result. unfold bind at 1. rewrite cache_token_typed.
  cbv zeta.
  generalize (if str_nonempty (tok_content t)
              then set_cache_words (cache_words c ++ [token_word c t]) c
              else c).
  intros c1. destruct t as [content t0 t1 ty eos spk ch]. run_python.
  cbn [tok_is_eos]. destruct eos; [|reflexivity].
  unfold bind, modify.
  destruct (emit_sentence cfg true c1) as [[[]|e] c2]; reflexivity.
Qed.
Lemma token_word_frame c c1 (t : token) :
  timeline c1 = timeline c ->
  sent_user_audio_duration_ms_before_last_reset c1
  = sent_user_audio_duration_ms_before_last_reset c ->
  token_word c1 t = token_word c t.
Proof.
  intros H1 H2. unfold token_word, actual_start. rewrite H1, H2. reflexivity.
Qed.

(** The loop of the sentence handler over well-formed results, when no
    helper of [word.py] raises. *)
Lemma for_each_typed cfg (toks : list token) : forall c c1,
  for_each (map token_json toks) (handle_result cfg) c = (Ok tt, c1) ->
  timeline c1 = timeline c
  /\ sent_user_audio_duration_ms_before_last_reset c1
     = sent_user_audio_duration_ms_before_last_reset c
  /\ exists finals,
       events c1 = events c ++ map OnAsrResult finals
       /\ Forall (fun r => ASRResult.final r = true) finals
       /\ length finals = sentence_ends toks
       /\ concat (map ASRResult.words finals) ++ get_words (cache_words c1)
          = get_words (cache_words c ++ map (token_word c) (spoken_tokens toks)).
Proof.
  induction toks as [|t r IH]; intros c c1.
  - intros [= <-]. split; [reflexivity|]. split; [reflexivity|].
    exists []. cbn. rewrite !app_nil_r. repeat split. constructor.
  - change (for_each (map token_json (t :: r)) (handle_result cfg) c)
      with (bind (handle_result cfg (token_json t))
              (fun _ => for_each (map token_json r) (handle_result cfg)) c).
    unfold bind. rewrite handle_result_typed. cbv zeta.
    change (spoken_tokens (t :: r))
      with (if str_nonempty (tok_content t) then t :: spoken_tokens r
            else spoken_tokens r).
    change (sentence_ends (t :: r))
      with (length (if tok_is_eos t then t :: List.filter tok_is_eos r
                    else List.filter tok_is_eos r)).
    set (c0 := if str_nonempty (tok_content t)
               then set_cache_words (cache_words c ++ [token_word c t]) c
               else c).
    assert (Hc0 : timeline c0 = timeline c
                  /\ sent_user_audio_duration_ms_before_last_reset c0
                     = sent_user_audio_duration_ms_before_last_reset c
                  /\ events c0 = events c
                  /\ cache_words c0
                     = cache_words c
                       ++ map (token_word c)
                            (if str_nonempty (tok_content t) then [t] else [])).
    { unfold c0. destruct (str_nonempty (tok_content t)); repeat split.
      cbn. rewrite app_nil_r. reflexivity. }
    destruct Hc0 as (Htl0 & Hs0 & He0 & Hw0). clearbody c0.
    destruct (tok_is_eos t).
    + pose proof (emit_sentence_spec cfg true c0) as Hs.
      destruct (emit_sentence cfg true c0) as [[[]|e] c2]; [|discriminate].
      destruct Hs as (s & st & d & _ & _ & _ & ->).
      set (R := ASRResult.mk (JStr s) true st d (language cfg)
                  (get_words (cache_words c0)) (sentence_metadata (cache_words c0))).
      set (c3 := set_cache_words [] (emit (OnAsrResult R) c0)).
      assert (Hc3 : timeline c3 = timeline c0
                    /\ sent_user_audio_duration_ms_before_last_reset c3
                       = sent_user_audio_duration_ms_before_last_reset c0
                    /\ events c3 = events c0 ++ [OnAsrResult R]
                    /\ cache_words c3 = []) by (repeat split).
      destruct Hc3 as (Htl3 & Hs3 & He3 & Hw3). clearbody c3.
      intros E. apply IH in E as (Htl & Hsent & finals & He & Hf & Hl & Hw).
      split; [congruence|]. split; [congruence|].
      exists (R :: finals). split; [|split; [|split]].
      * rewrite He, He3, He0, <- app_assoc. reflexivity.
      * constructor; [reflexivity | assumption].
      * cbn [length]. rewrite Hl. reflexivity.
      * assert (Hm : map (token_word c3) (spoken_tokens r)
                     = map (token_word c) (spoken_tokens r)).
        { apply map_ext. intros t'. apply token_word_frame; congruence. }
        cbn [map concat]. rewrite <- app_assoc, Hw, Hw3, Hm.
        change (ASRResult.words R) with (get_words (cache_words c0)).
        rewrite Hw0. unfold get_words. cbn [app]. rewrite <- !map_app. f_equal.
        rewrite <- app_assoc. f_equal.
        destruct (str_nonempty (tok_content t)); reflexivity.
    + intros E. apply IH in E as (Htl & Hsent & finals & He & Hf & Hl & Hw).
      split; [congruence|]. split; [congruence|].
      exists finals. split; [|split; [|split]].
      * rewrite He, He0. reflexivity.
      * assumption.
      * assumption.
      * assert (Hm : map (token_word c0) (spoken_tokens r)
                     = map (token_word c) (spoken_tokens r)).
        { apply map_ext. intros t'. apply token_word_frame; congruence. }
        rewrite Hw, Hw0, Hm. unfold get_words. f_equal.
        rewrite <- app_assoc. f_equal.
        destruct (str_nonempty (tok_content t)); reflexivity.
Qed.

Lemma get_words_app (ws1 ws2 : list SpeechmaticsASRWord) :
  get_words (ws1 ++ ws2) = get_words ws1 ++ get_words ws2.
Proof. apply map_app. Qed.

(** The same loop, by the texts of the words: the words buffered before
    are kept as they are, and the words added are those of the tokens that
    carry a text, in their order. *)
Lemma for_each_texts cfg (toks : list token) c c1 :
  for_each (map token_json toks) (handle_result cfg) c = (Ok tt, c1) ->
  exists finals new,
    events c1 = events c ++ map OnAsrResult finals
    /\ Forall (fun r => ASRResult.final r = true) finals
    /\ length finals = sentence_ends toks
    /\ concat (map ASRResult.words finals) ++ get_words (cache_words c1)
       = get_words (cache_words c) ++ new
    /\ map payload_word new
       = map (fun t => JStr (tok_content t)) (spoken_tokens toks).
Proof.
  intros E. apply for_each_typed in E as (_ & _ & finals & He & Hf & Hl & Hw).
  exists finals, (get_words (map (token_word c) (spoken_tokens toks))).
  split; [exact He|]. split; [exact Hf|]. split; [exact Hl|].
  split; [rewrite Hw; apply get_words_app|].
  unfold get_words. rewrite !map_map. reflexivity.
Qed.

(** A result on which the handler raises: no event was added, and the
    buffer is as it was or longer by the word of this result. *)
Lemma handle_result_raise cfg result c e c2 :
  handle_result cfg result c = (Raise e, c2) ->
  c2 = c \/ exists w, c2 = set_cache_words (cache_words c ++ [w]) c.
Proof.
  unfold handle_result, bind.
  pose proof (cache_token_spec result c) as Hc.
  destruct (cache_token result c) as [[[]|e0] c1];
    [|intros [= _ <-]; left; exact Hc].
  assert (Hc1 : c1 = c \/ exists w, c1 = set_cache_words (cache_words c ++ [w]) c).
  { destruct Hc as [->|(w & t & -> & _)]; [left; reflexivity | right; eauto]. }
  clear Hc. unfold lift.
  destruct (py_get result "is_eos" JNull) as [is_eos|e0];
    [|intros [= _ <-]; exact Hc1].
  destruct (py_eq_true is_eos); [|discriminate].
  pose proof (emit_sentence_spec cfg true c1) as Hs.
  destruct (emit_sentence cfg true c1) as [[[]|e0] c3]; [discriminate|].
  intros [= _ <-]. subst c3. exact Hc1.
Qed.

(** The loop stops at the first result on which its body raises. *)
Lemma for_each_stops {A} (body : A -> M T unit) (l1 : list A) (x : A)
    (l2 : list A) : forall c c1 e c2,
  for_each l1 body c = (Ok tt, c1) ->
  body x c1 = (Raise e, c2) ->
  for_each (l1 ++ x :: l2) body c = (Raise e, c2).
Proof.
  induction l1 as [|y l1 IH]; intros c c1 e c2.
  - intros [= <-] Hx. cbn [app for_each]. unfold bind. rewrite Hx. reflexivity.
  - change (for_each ((y :: l1) ++ x :: l2) body c)
      with (bind (body y) (fun _ => for_each (l1 ++ x :: l2) body) c).
    change (for_each (y :: l1) body c)
      with (bind (body y) (fun _ => for_each l1 body) c).
    unfold bind.
    destruct (body y c) as [[[]|e0] c0]; [|discriminate].
    apply IH.
Qed.
End Handlers.

Section SentenceExample.
Context {T : Type} `{TL : AudioTimeline T}.
Implicit Types c : SpeechmaticsASRClient T.


End SentenceExample.


Section SentenceMetadata.
Implicit Types ws : list SpeechmaticsASRWord.

Lemma add_speaker_channel_source ws (md : gmap string json) w :
  w ∈ ws ->
  (forall k v, md !! k = Some v -> from_token ws k v) ->
  forall k v, add_speaker_channel md w !! k = Some v -> from_token ws k v.
Proof.
  intros Hw Hmd k v. unfold add_speaker_channel.
  destruct (truthy (speaker w) && negb (truthy_entry (md !! "speaker"))) eqn:Es;
  destruct (truthy (channel w) && negb (truthy_entry (_ !! "channel"))) eqn:Ec;
    rewrite ?lookup_insert; repeat case_decide; subst;
    intros Hk; try (injection Hk as <-); auto.
  all: try (apply andb_true_iff in Ec as [Ec _]).
  all: try (apply andb_true_iff in Es as [Es _]).
  all: try (exists w; split; [assumption|]; split; [assumption|]; tauto).
Qed.

Lemma sentence_metadata_source_from ws0 : forall ws (md : gmap string json),
  (forall w, w ∈ ws -> w ∈ ws0) ->
  (forall k v, md !! k = Some v -> from_token ws0 k v) ->
  forall k v, fold_left add_speaker_channel ws md !! k = Some v ->
              from_token ws0 k v.
Proof.
  induction ws as [|w ws IH]; intros md Hsub Hmd k v; simpl.
  - apply Hmd.
  - apply IH.
    + intros w' Hw'. apply Hsub. right. assumption.
    + apply add_speaker_channel_source; [apply Hsub; left | assumption].
Qed.

(** Every entry of a sentence's metadata is the non-empty speaker or
    channel of one of its words. *)
Lemma sentence_metadata_source ws k v :
  sentence_metadata ws !! k = Some v -> from_token ws k v.
Proof.
  apply (sentence_metadata_source_from ws ws ∅); [auto|].
  intros k' v' H. rewrite lookup_empty in H. discriminate.
Qed.

Lemma sentence_metadata_no_speaker ws :
  Forall (fun w => truthy (speaker w) = false) ws ->
  sentence_metadata ws !! "speaker" = None.
Proof.
  intros Hall. destruct (sentence_metadata ws !! "speaker") as [v|] eqn:E; [|reflexivity].
  apply sentence_metadata_source in E as (w & Hw & Hv & [[_ ->]|[? _]]); [|discriminate].
  rewrite Forall_forall in Hall. rewrite (Hall w Hw) in Hv. discriminate.
Qed.

Lemma sentence_metadata_no_channel ws :
  Forall (fun w => truthy (channel w) = false) ws ->
  sentence_metadata ws !! "channel" = None.
Proof.
  intros Hall. destruct (sentence_metadata ws !! "channel") as [v|] eqn:E; [|reflexivity].
  apply sentence_metadata_source in E as (w & Hw & Hv & [[? _]|[_ ->]]); [discriminate|].
  rewrite Forall_forall in Hall. rewrite (Hall w Hw) in Hv. discriminate.
Qed.
End SentenceMetadata.

Section SentenceSegments.
Context {T : Type} `{WM : WordModule}.
Implicit Types c : SpeechmaticsASRClient T.

(** C10.  A segment built from the buffer in sentence-final mode takes
    its metadata from the buffered words only: with no non-empty speaker
    among them the metadata has no speaker entry, with no non-empty
    channel it has no channel entry, and every entry it has is the
    non-empty speaker or channel of one of the words, so the handler
    never puts a sentinel of its own there. *)
Theorem C10_sentence_metadata_has_no_sentinel
    (cfg : SpeechmaticsASRConfig) (is_final : bool) c c' :
  emit_sentence cfg is_final c = (Ok tt, c') ->
  exists r,
    events c' = events c ++ [OnAsrResult r]
    /\ ASRResult.words r = get_words (cache_words c)
    /\ ASRResult.metadata r = sentence_metadata (cache_words c)
    /\ (Forall (fun w => truthy (speaker w) = false) (cache_words c) ->
        ASRResult.metadata r !! "speaker" = None)
    /\ (Forall (fun w => truthy (channel w) = false) (cache_words c) ->
        ASRResult.metadata r !! "channel" = None)
    /\ (forall k v, ASRResult.metadata r !! k = Some v ->
                    from_token (cache_words c) k v).
Proof.
  intros H. pose proof (emit_sentence_spec cfg is_final c) as Hs.
  rewrite H in Hs. destruct Hs as (s & st & d & _ & _ & _ & ->).
  eexists. split; [reflexivity|]. cbn.
  split; [reflexivity|]. split; [reflexivity|].
  split; [apply sentence_metadata_no_speaker|].
  split; [apply sentence_metadata_no_channel|].
  apply sentence_metadata_source.
Qed.
End SentenceSegments.

Lemma C10_sentence_metadata_witness :
  exists r,
    events (snd (emit_sentence (WM := spec_word_module)
                   demo_config true demo_buffering))
    = events demo_buffering ++ [OnAsrResult r]
    /\ ASRResult.words r = get_words (cache_words demo_buffering)
    /\ ASRResult.metadata r = sentence_metadata (cache_words demo_buffering)
    /\ (Forall (fun w => truthy (speaker w) = false) (cache_words demo_buffering) ->
        ASRResult.metadata r !! "speaker" = None)
    /\ (Forall (fun w => truthy (channel w) = false) (cache_words demo_buffering) ->
        ASRResult.metadata r !! "channel" = None)
    /\ (forall k v, ASRResult.metadata r !! k = Some v ->
                    from_token (cache_words demo_buffering) k v).
Proof.
  exact (C10_sentence_metadata_has_no_sentinel (WM := spec_word_module)
           demo_config true demo_buffering _ eq_refl).
Defined.

Section FailedMessages.
Context {T : Type} `{TL : AudioTimeline T} `{WM : WordModule}.
Implicit Types c : SpeechmaticsASRClient T.

Lemma advanced_refl c : advanced_from c c.
Proof.
  exists []. cbn. rewrite app_nil_r. repeat split; [constructor|].
  exists []. rewrite app_nil_r. reflexivity.
Qed.

Lemma advanced_append c0 c w :
  advanced_from c0 c ->
  advanced_from c0 (set_cache_words (cache_words c ++ [w]) c).
Proof.
  intros (finals & He & Hf & Hp). exists finals. cbn.
  repeat split; try assumption.
  unfold get_words in *. rewrite map_app, app_assoc.
  apply prefix_app_r. assumption.
Qed.

Lemma advanced_flush c0 c r :
  advanced_from c0 c ->
  ASRResult.final r = true ->
  ASRResult.words r = get_words (cache_words c) ->
  advanced_from c0 (set_cache_words [] (emit (OnAsrResult r) c)).
Proof.
  intros (finals & He & Hf & Hp) Hfin Hw. exists (finals ++ [r]). cbn.
  rewrite He, map_app, <- app_assoc. split; [reflexivity|].
  split; [apply Forall_app; split; [assumption | repeat constructor; assumption]|].
  rewrite map_app, concat_app. cbn. rewrite Hw, !app_nil_r. assumption.
Qed.

(** Handling one result, whether it succeeds or raises, keeps what was
    there. *)
Lemma handle_result_advance cfg result c0 c :
  advanced_from c0 c ->
  advanced_from c0 (snd (handle_result cfg result c)).
Proof.
  intros Ha. unfold handle_result, bind.
  pose proof (cache_token_spec result c) as Hc.
  destruct (cache_token result c) as [[[]|e] c1]; cbn [fst snd]; [|subst; assumption].
  assert (Ha1 : advanced_from c0 c1).
  { destruct Hc as [->|(w & t & -> & _)]; [assumption | apply advanced_append; assumption]. }
  clear Hc. unfold lift.
  destruct (py_get result "is_eos" JNull) as [is_eos|e]; cbn [fst snd]; [|assumption].
  destruct (py_eq_true is_eos); cbn [fst snd]; [|assumption].
  pose proof (emit_sentence_spec cfg true c1) as Hs.
  destruct (emit_sentence cfg true c1) as [[[]|e] c2]; cbn [fst snd]; [|subst; assumption].
  destruct Hs as (s & st & d & _ & _ & _ & ->).
  apply advanced_flush; [assumption | reflexivity | reflexivity].
Qed.

Lemma for_each_advance cfg (items : list json) : forall c0 c,
  advanced_from c0 c ->
  advanced_from c0 (snd (for_each items (handle_result cfg) c)).
Proof.
  induction items as [|x r IH]; intros c0 c Ha; [exact Ha|].
  change (for_each (x :: r) (handle_result cfg) c)
    with (bind (handle_result cfg x) (fun _ => for_each r (handle_result cfg)) c).
  unfold bind. pose proof (handle_result_advance cfg x c0 c Ha) as H1.
  destruct (handle_result cfg x c) as [[[]|e] c1]; cbn [fst snd] in *.
  - apply IH. assumption.
  - assumption.
Qed.

(** The state in which the body of the sentence handler stops when it
    raises: it was reached by handling results, nothing else. *)
Lemma sentence_body_raise cfg msg c e c2 :
  sentence_body cfg msg c = (Raise e, c2) -> advanced_from c c2.
Proof.
  unfold sentence_body, bind, lift, get.
  destruct (py_get msg "results" (JDict [])) as [results|e0]; cbn [fst snd];
    [|intros [= _ <-]; apply advanced_refl].
  destruct (py_iter results) as [items|e0]; cbn [fst snd];
    [|intros [= _ <-]; apply advanced_refl].
  pose proof (for_each_advance cfg items c c (advanced_refl c)) as Hf.
  destruct (for_each items (handle_result cfg) c) as [[[]|e0] c1]; cbn [fst snd] in *;
    [|intros [= _ <-]; assumption].
  destruct (cache_words c1) eqn:Ec; [discriminate|].
  pose proof (emit_sentence_spec cfg false c1) as Hs.
  destruct (emit_sentence cfg false c1) as [[[]|e0] c3]; [discriminate|].
  intros [= _ <-]. subst. assumption.
Qed.

(** The word-final and partial handlers never touch the buffer, and
    emit nothing before they raise. *)
Lemma transcript_body_frame cfg fin msg c :
  cache_words (snd (transcript_body cfg fin msg c)) = cache_words c
  /\ (is_ok (fst (transcript_body cfg fin msg c)) = false ->
      snd (transcript_body cfg fin msg c) = c).
Proof.
  unfold transcript_body, bind, lift, get, modify, ret.
  repeat first [case_exc | case_bool]; split; try reflexivity; try discriminate.
Qed.

(** C7.  A message on which the sentence handler fails is logged and
    reported once, as an error built with the code [FATAL_ERROR], and no
    preview is emitted; what the results handled before the failure did
    stays done, so the buffer is not restored.  When the results before
    the failing one are well formed, the client is left as those results
    left it, with their words appended and their sentences flushed as
    final segments, but for the report and, at most, the word of the
    failing result itself.  Whatever the results, the segments emitted are
    final ones, and every word that was buffered is, in order, in one of
    them or still buffered.  The buffer is as it was before the message
    when the results cannot be read at all.  The partial and word-final
    handlers never touch the buffer.  The extension passes an error
    without quota keyword on as non-fatal. *)
Theorem C7_failed_message_keeps_earlier_results
    (cfg : SpeechmaticsASRConfig) (msg : json) c
    (is_final : bool) (attempts : list attempt) (message : string)
    (x : SpeechmaticsASRExtension T) :
  (forall (toks : list token) (bad : json) (rest : list json) c1 e c2,
     py_get msg "results" (JDict [])
     = Ok (JList (map token_json toks ++ bad :: rest)) ->
     for_each (map token_json toks) (handle_result cfg) c = (Ok tt, c1) ->
     handle_result cfg bad c1 = (Raise e, c2) ->
     let c' := _handle_transcript_sentence_final_mode cfg msg c in
     events c' = events c1 ++ [Log LogError; OnAsrError {| code := FATAL_ERROR |}]
     /\ (cache_words c' = cache_words c1
         \/ exists w, cache_words c' = cache_words c1 ++ [w])
     /\ exists finals new,
          events c1 = events c ++ map OnAsrResult finals
          /\ Forall (fun r => ASRResult.final r = true) finals
          /\ length finals = sentence_ends toks
          /\ concat (map ASRResult.words finals) ++ get_words (cache_words c1)
             = get_words (cache_words c) ++ new
          /\ map payload_word new
             = map (fun t => JStr (tok_content t)) (spoken_tokens toks))
  /\ (raised (sentence_body cfg msg) c = true ->
     (exists finals,
        events (_handle_transcript_sentence_final_mode cfg msg c)
        = events c ++ map OnAsrResult finals
                   ++ [Log LogError; OnAsrError {| code := FATAL_ERROR |}]
        /\ Forall (fun r => ASRResult.final r = true) finals
        /\ get_words (cache_words c)
             `prefix_of`
           (concat (map ASRResult.words finals)
              ++ get_words (cache_words
                              (_handle_transcript_sentence_final_mode cfg msg c))))
     /\ (is_ok (exc_bind (py_get msg "results" (JDict [])) py_iter) = false ->
         cache_words (_handle_transcript_sentence_final_mode cfg msg c)
         = cache_words c))
  /\ (raised (transcript_body cfg is_final msg) c = true ->
      events (try_except (transcript_body cfg is_final msg)
                report_failure_traceback c)
      = events c ++ [Log LogError; Log LogError;
                     OnAsrError {| code := FATAL_ERROR |}]
      /\ cache_words (try_except (transcript_body cfg is_final msg)
                        report_failure_traceback c)
         = cache_words c)
  /\ (is_quota_error message = false ->
      sent_errors (ext_events (on_asr_error attempts message x))
      = sent_errors (ext_events x) ++ [(NON_FATAL_ERROR, VendorMessage message)]).
Proof.
  split; [|split; [|split]].
  - intros toks bad rest c1 e c2 Hres Hdone Hbad. cbv zeta.
    assert (E : sentence_body cfg msg c = (Raise e, c2)).
    { unfold sentence_body. unfold bind at 1, lift at 1. rewrite Hres.
      unfold bind at 1, lift at 1. cbn [py_iter].
      unfold bind at 1.
      rewrite (for_each_stops (handle_result cfg) _ bad rest c c1 e c2 Hdone Hbad).
      reflexivity. }
    unfold _handle_transcript_sentence_final_mode, try_except. rewrite E.
    unfold report_failure. cbn [events cache_words emit set_events].
    rewrite <- app_assoc. cbn [app].
    apply handle_result_raise in Hbad.
    split; [destruct Hbad as [->|[w ->]]; reflexivity|].
    split; [destruct Hbad as [->|[w ->]]; [left | right; exists w]; reflexivity|].
    apply (for_each_texts cfg toks c c1 Hdone).
  - intros Hr. unfold raised in Hr.
    unfold _handle_transcript_sentence_final_mode, try_except.
    destruct (sentence_body cfg msg c) as [[[]|e] c2] eqn:E; [discriminate|].
    split.
    + destruct (sentence_body_raise _ _ _ _ _ E) as (finals & He & Hf & Hp).
      exists finals. cbn. rewrite He, <- !app_assoc. cbn.
      repeat split; assumption.
    + intros Hread. revert E. unfold sentence_body, bind, lift.
      destruct (py_get msg "results" (JDict [])) as [results|e0]; cbn in *;
        [|intros [= _ <-]; reflexivity].
      destruct (py_iter results) as [items|e0]; cbn in *;
        [discriminate | intros [= _ <-]; reflexivity].
  - intros Hr. unfold raised in Hr. unfold try_except.
    destruct (transcript_body_frame cfg is_final msg c) as [Hc Hs].
    destruct (transcript_body cfg is_final msg c) as [[[]|e] c2];
      [discriminate|].
    cbn in *. rewrite (Hs eq_refl). rewrite <- !app_assoc. split; reflexivity.
  - intros Hq. unfold on_asr_error. rewrite Hq. cbn.
    unfold sent_errors. rewrite !omap_app. cbn. rewrite app_nil_r. reflexivity.
Qed.
End FailedMessages.

Lemma C7_failed_message_witness :
  let hello := word_token "hello" 0 (2 # 5) "S1" EmptyString in
  let c1 := snd (for_each (map token_json [hello])
                   (handle_result (TL := cursor_timeline) (WM := spec_word_module)
                      demo_config) demo_client) in
  let c' := _handle_transcript_sentence_final_mode
              (TL := cursor_timeline) (WM := spec_word_module)
              demo_config broken_message demo_client in
  (events c' = events c1 ++ [Log LogError; OnAsrError {| code := FATAL_ERROR |}]
   /\ (cache_words c' = cache_words c1
       \/ exists w, cache_words c' = cache_words c1 ++ [w])
   /\ exists finals new,
        events c1 = events demo_client ++ map OnAsrResult finals
        /\ Forall (fun r => ASRResult.final r = true) finals
        /\ length finals = sentence_ends [hello]
        /\ concat (map ASRResult.words finals) ++ get_words (cache_words c1)
           = get_words (cache_words demo_client) ++ new
        /\ map payload_word new
           = map (fun t => JStr (tok_content t)) (spoken_tokens [hello]))
  /\ (exists finals,
        events c' = events demo_client ++ map OnAsrResult finals
            ++ [Log LogError; OnAsrError {| code := FATAL_ERROR |}]
        /\ Forall (fun r => ASRResult.final r = true) finals
        /\ get_words (cache_words demo_client)
             `prefix_of`
           (concat (map ASRResult.words finals) ++ get_words (cache_words c'))).
Proof.
  cbv zeta. split.
  - exact (proj1 (C7_failed_message_keeps_earlier_results
                    (TL := cursor_timeline) (WM := spec_word_module)
                    demo_config broken_message demo_client
                    true [] "boom" demo_streaming)
             [word_token "hello" 0 (2 # 5) "S1" EmptyString] (JNum 42) []
             _ AttributeError _ eq_refl eq_refl eq_refl).
  - exact (proj1 (proj1 (proj2 (C7_failed_message_keeps_earlier_results
                    (TL := cursor_timeline) (WM := spec_word_module)
                    demo_config broken_message demo_client
                    true [] "boom" demo_streaming)) eq_refl)).
Defined.

(** A message whose first result is a word and whose second is malformed:
    the handler fails, and the word of the first result stays in the
    buffer, which was empty before; the error is built as a fatal one. *)
Lemma C7_buffer_changed_counterexample :
  raised (sentence_body (TL := cursor_timeline) (WM := spec_word_module)
            demo_config broken_message) demo_client = true
  /\ cache_words demo_client = []
  /\ map word (cache_words (_handle_transcript_sentence_final_mode
                 (TL := cursor_timeline) (WM := spec_word_module)
                 demo_config broken_message demo_client))
     = [JStr "hello"]
  /\ events (_handle_transcript_sentence_final_mode
               (TL := cursor_timeline) (WM := spec_word_module)
               demo_config broken_message demo_client)
     = [Log LogError; OnAsrError {| code := FATAL_ERROR |}].
Proof. repeat split. Qed.

Section WordFinal.
Context {T : Type} `{TL : AudioTimeline T} `{WM : WordModule}.
Implicit Types c : SpeechmaticsASRClient T.

(** The common body on a well-formed message: one segment when the
    transcript is not empty, nothing otherwise; it never raises. *)
Lemma transcript_body_typed cfg fin (m : provider_message) c :
  transcript_body cfg fin (message_json m) c
  = (Ok tt,
     if str_nonempty (pm_transcript m)
     then emit (OnAsrResult (transcript_segment cfg fin c m)) c
     else c).
Proof.
  destruct m as [transcript t0 t1 toks].
  unfold transcript_body, transcript_segment. run_python.
  cbn [pm_transcript]. destruct transcript; reflexivity.
Qed.

Lemma transcript_segment_emit cfg fin e c m :
  transcript_segment cfg fin (emit e c) m = transcript_segment cfg fin c m.
Proof. reflexivity. Qed.





End WordFinal.



(** * Absolute start times over a session *)

Section OrderedStarts.
Lemma sorted_snoc (l : list Z) (x : Z) :
  StronglySorted Z.le l -> Forall (fun y => y <= x) l ->
  StronglySorted Z.le (l ++ [x]).
Proof.
  intros Hs Hf. apply StronglySorted_app. repeat split.
  - intros x1 x2 H1 H2. apply list_elem_of_singleton in H2 as ->.
    rewrite Forall_forall in Hf. auto.
  - assumption.
  - repeat constructor.
Qed.

Lemma starts_ordered_weaken m h h' rs cs :
  starts_ordered m h rs cs -> h <= h' -> starts_ordered m h' rs cs.
Proof.
  intros (H1 & H2 & H3 & H4 & H5 & H6) Hle. repeat split; try assumption.
  - eapply Forall_impl; [exact H3|]. cbn. intros. lia.
  - eapply Forall_impl; [exact H4|]. cbn. intros. lia.
Qed.

Lemma starts_ordered_push h rs cs s :
  starts_ordered false h rs cs -> h <= s ->
  starts_ordered false s rs (cs ++ [s]).
Proof.
  intros (H1 & H2 & H3 & H4 & H5 & H6) Hle. repeat split.
  - assumption.
  - apply sorted_snoc; [assumption|].
    eapply Forall_impl; [exact H4|]. cbn. intros. lia.
  - eapply Forall_impl; [exact H3|]. cbn. intros. lia.
  - apply Forall_app. split; [|repeat constructor; lia].
    eapply Forall_impl; [exact H4|]. cbn. intros. lia.
  - rewrite Forall_forall in *. intros r Hr.
    apply Forall_app. split; [auto|].
    repeat constructor. specialize (H3 r Hr). cbn in H3. lia.
  - discriminate.
Qed.

Lemma starts_ordered_preview m h rs s cs :
  starts_ordered m h rs (s :: cs) ->
  starts_ordered m h (rs ++ [s]) (s :: cs).
Proof.
  intros (H1 & H2 & H3 & H4 & H5 & H6). repeat split; try assumption.
  - apply sorted_snoc; [assumption|].
    eapply Forall_impl; [exact H5|]. cbn. intros r Hr.
    apply Forall_cons in Hr as [Hr _]. exact Hr.
  - apply Forall_app. split; [assumption|].
    apply Forall_cons in H4 as [H4 _]. repeat constructor. exact H4.
  - apply Forall_app. split; [assumption|].
    repeat constructor; [lia|].
    apply StronglySorted_cons in H2 as [H2 _]. exact H2.
Qed.

Lemma starts_ordered_flush m h rs s cs :
  starts_ordered m h rs (s :: cs) ->
  starts_ordered m h (rs ++ [s]) [].
Proof.
  intros H. destruct (starts_ordered_preview _ _ _ _ _ H)
    as (H1 & H2 & H3 & H4 & H5 & H6).
  repeat split; try assumption; try constructor.
  apply Forall_forall. intros; constructor.
Qed.

Lemma starts_ordered_word m h rs s :
  starts_ordered m h rs [] -> h <= s ->
  starts_ordered m s (rs ++ [s]) [].
Proof.
  intros (H1 & H2 & H3 & H4 & H5 & H6) Hle. repeat split; try constructor.
  - apply sorted_snoc; [assumption|].
    eapply Forall_impl; [exact H3|]. cbn. intros. lia.
  - apply Forall_app. split; [|repeat constructor; lia].
    eapply Forall_impl; [exact H3|]. cbn. intros. lia.
  - apply Forall_forall. intros; constructor.
Qed.
End OrderedStarts.

Section Timestamps.
Context {T : Type} `{TL : AudioTimeline T} {Laws : AudioTimelineLaws T}.
Implicit Types c : SpeechmaticsASRClient T.

Lemma py_int_inject_plus (a b : Z) :
  py_int (inject_Z a + inject_Z b)%Q = a + b.
Proof. unfold py_int. cbn. rewrite Z.quot_1_r. lia. Qed.

Lemma total_nonneg (tl : T) : 0 <= get_total_user_audio_duration tl.
Proof.
  rewrite Zle_Qle.
  eapply Qle_trans; [apply (before_nonneg tl 0) | apply before_le_total].
Qed.

Lemma actual_start_mono c (t t' : Q) :
  (t <= t')%Q -> actual_start c t <= actual_start c t'.
Proof.
  intros H. unfold actual_start. apply py_int_mono.
  apply Qplus_le_l. apply before_mono. assumption.
Qed.

Lemma actual_start_lower c (t : Q) :
  sent_user_audio_duration_ms_before_last_reset c <= actual_start c t.
Proof.
  unfold actual_start.
  rewrite <- (py_int_inject (sent_user_audio_duration_ms_before_last_reset c)) at 1.
  apply py_int_mono.
  rewrite <- (Qplus_0_l (inject_Z _)) at 1.
  apply Qplus_le_l. apply before_nonneg.
Qed.

Lemma actual_start_upper c (t : Q) :
  actual_start c t
  <= get_total_user_audio_duration (timeline c)
     + sent_user_audio_duration_ms_before_last_reset c.
Proof.
  unfold actual_start. rewrite <- py_int_inject_plus.
  apply py_int_mono. apply Qplus_le_l. apply before_le_total.
Qed.

Lemma latest_start_step c prev (t : Q) :
  time_le prev t -> latest_start c prev <= actual_start c (t * 1000)%Q.
Proof.
  destruct prev as [p|]; cbn; intros H.
  - apply actual_start_mono. apply Qmult_le_compat_r; [assumption|].
    unfold Qle. cbn. lia.
  - apply actual_start_lower.
Qed.

Lemma latest_start_time c prev prev' :
  match prev' with
  | Some t => time_le prev t
  | None => prev = None
  end ->
  latest_start c prev <= latest_start c prev'.
Proof.
  destruct prev' as [t|]; intros H.
  - apply latest_start_step. assumption.
  - subst. reflexivity.
Qed.

Lemma invariant_send_chunk cfg c prev d :
  session_invariant cfg c prev ->
  session_invariant cfg (set_timeline (add_user_audio (timeline c) d) c) prev.
Proof.
  unfold session_invariant. intros H.
  eapply starts_ordered_weaken; [exact H|].
  destruct prev as [p|]; cbn; [|reflexivity].
  unfold actual_start. cbn. apply py_int_mono.
  apply Qplus_le_l. apply before_add.
Qed.

Lemma latest_start_emit e c prev :
  latest_start (emit e c) prev = latest_start c prev.
Proof. destruct prev; reflexivity. Qed.

Lemma latest_start_set_cache ws c prev :
  latest_start (set_cache_words ws c) prev = latest_start c prev.
Proof. destruct prev; reflexivity. Qed.

Lemma events_emit (e : client_event) c : events (emit e c) = events c ++ [e].
Proof. reflexivity. Qed.

Lemma cache_words_emit (e : client_event) c :
  cache_words (emit e c) = cache_words c.
Proof. reflexivity. Qed.

Lemma events_set_cache ws c : events (set_cache_words ws c) = events c.
Proof. reflexivity. Qed.

Lemma cache_words_set_cache ws c : cache_words (set_cache_words ws c) = ws.
Proof. reflexivity. Qed.

Lemma results_of_snoc (evs : list client_event) (e : client_event) :
  results_of (evs ++ [e])
  = results_of evs ++ match e with OnAsrResult r => [r] | _ => [] end.
Proof. unfold results_of. rewrite omap_app. destruct e; reflexivity. Qed.

Lemma invariant_recognition_started cfg c prev :
  session_invariant cfg c prev ->
  session_invariant cfg (_handle_recognition_started c) None.
Proof.
  unfold session_invariant, _handle_recognition_started. intros H.
  cbn. rewrite results_of_snoc, app_nil_r.
  eapply starts_ordered_weaken; [exact H|].
  destruct prev as [p|]; cbn.
  - pose proof (actual_start_upper c (p * 1000)%Q). lia.
  - pose proof (total_nonneg (timeline c)). lia.
Qed.

Lemma invariant_later cfg c prev prev' :
  session_invariant cfg c prev ->
  match prev' with
  | Some t => time_le prev t
  | None => prev = None
  end ->
  session_invariant cfg c prev'.
Proof.
  unfold session_invariant. intros H Hp.
  eapply starts_ordered_weaken; [exact H|].
  apply latest_start_time. assumption.
Qed.

Lemma invariant_report cfg c prev :
  session_invariant cfg c prev ->
  session_invariant cfg (report_failure c) prev
  /\ session_invariant cfg (report_failure_traceback c) prev.
Proof.
  unfold session_invariant, report_failure, report_failure_traceback, emit.
  intros H. cbn. rewrite !results_of_snoc, !app_nil_r.
  destruct prev; split; exact H.
Qed.

(** Word-final mode: the word-final and the partial handler. *)
Lemma invariant_word_message cfg fin (m : provider_message) c prev :
  session_invariant cfg c prev ->
  cache_words c = [] ->
  time_le prev (pm_start m) ->
  session_invariant cfg
    (try_except (transcript_body cfg fin (message_json m))
       report_failure_traceback c)
    (Some (pm_start m))
  /\ cache_words (try_except (transcript_body cfg fin (message_json m))
                    report_failure_traceback c) = [].
Proof.
  intros H Hc Ht. unfold try_except. rewrite transcript_body_typed.
  destruct (str_nonempty (pm_transcript m)).
  - split; [|exact Hc].
    unfold session_invariant in *.
    rewrite latest_start_emit, cache_words_emit, events_emit.
    rewrite results_of_snoc, map_app, Hc in *. cbn [map].
    apply starts_ordered_word with (h := latest_start c prev); [exact H|].
    apply latest_start_step. assumption.
  - split; [|exact Hc]. eapply invariant_later; eassumption.
Qed.
End Timestamps.

Section SentenceTimestamps.
Context {T : Type} `{TL : AudioTimeline T} {Laws : AudioTimelineLaws T}.
Implicit Types c : SpeechmaticsASRClient T.

Lemma starts_ordered_clear m h rs cs :
  starts_ordered m h rs cs -> starts_ordered m h rs [].
Proof.
  intros (H1 & H2 & H3 & H4 & H5 & H6).
  repeat split; try assumption; try constructor.
  apply Forall_forall. intros; constructor.
Qed.

(** A segment built from the buffer, with the start of the specification
    for [get_sentence_start_ms]. *)
Lemma invariant_emit_sentence cfg fin c prev :
  session_invariant cfg c prev ->
  let c2 := snd (emit_sentence (WM := spec_word_module) cfg fin c) in
  session_invariant cfg c2 prev
  /\ session_invariant cfg (set_cache_words [] c2) prev.
Proof.
  intros H. cbv zeta.
  pose proof (emit_sentence_spec (WM := spec_word_module) cfg fin c) as Hs.
  destruct (emit_sentence cfg fin c) as [[[]|e] c2]; cbn [snd].
  - destruct Hs as (s & st & d & _ & Hst & _ & ->).
    cbn [get_sentence_start_ms spec_word_module] in Hst.
    unfold first_token_start in Hst.
    destruct (cache_words c) as [|w0 ws] eqn:Ec; [discriminate|].
    injection Hst as <-.
    unfold session_invariant in *.
    rewrite latest_start_set_cache, latest_start_emit, events_set_cache,
      cache_words_set_cache, events_emit, cache_words_emit.
    rewrite results_of_snoc, map_app, Ec in *.
    cbn [map ASRResult.start_ms] in *.
    split.
    + apply starts_ordered_preview. exact H.
    + eapply starts_ordered_flush. exact H.
  - subst c2. split; [exact H|].
    unfold session_invariant in *.
    rewrite latest_start_set_cache, events_set_cache, cache_words_set_cache.
    cbn [map]. eapply starts_ordered_clear. exact H.
Qed.

Lemma invariant_token cfg (t : token) c prev :
  enable_word_final_mode cfg = false ->
  session_invariant cfg c prev ->
  time_le prev (tok_start t) ->
  session_invariant cfg
    (snd (handle_result (WM := spec_word_module) cfg (token_json t) c))
    (Some (tok_start t)).
Proof.
  intros Hmode H Ht. rewrite handle_result_typed. cbv zeta.
  assert (H1 : session_invariant cfg
                 (if str_nonempty (tok_content t)
                  then set_cache_words (cache_words c ++ [token_word c t]) c
                  else c)
                 (Some (tok_start t))).
  { destruct (str_nonempty (tok_content t)).
    - unfold session_invariant in *.
      rewrite latest_start_set_cache, events_set_cache, cache_words_set_cache.
      rewrite map_app. cbn [map]. rewrite Hmode in *.
      apply starts_ordered_push with (h := latest_start c prev); [exact H|].
      apply latest_start_step. assumption.
    - eapply invariant_later; eassumption. }
  revert H1.
  generalize (if str_nonempty (tok_content t)
              then set_cache_words (cache_words c ++ [token_word c t]) c
              else c).
  intros c1 H1. destruct (tok_is_eos t); [|exact H1].
  destruct (invariant_emit_sentence cfg true c1 _ H1) as [Ha Hb].
  destruct (emit_sentence cfg true c1) as [[[]|e] c2]; cbn [fst snd] in *;
    assumption.
Qed.

Lemma last_time_cons prev (t : Q) (ts : list Q) :
  last_time prev (t :: ts) = last_time (Some t) ts.
Proof.
  unfold last_time. destruct ts as [|q ts]; [reflexivity|].
  change (last (t :: q :: ts)) with (last (q :: ts)).
  destruct (last (q :: ts)) eqn:E; [reflexivity|].
  apply last_None in E. discriminate.
Qed.

Lemma nondecreasing_last (ts : list Q) : forall p : Q,
  nondecreasing_from (Some p) ts = true ->
  exists t, last_time (Some p) ts = Some t /\ (p <= t)%Q.
Proof.
  induction ts as [|t0 ts IH]; intros p H.
  - exists p. split; [reflexivity | apply Qle_refl].
  - cbn in H. apply andb_true_iff in H as [H0 H1].
    apply Qle_bool_iff in H0.
    destruct (IH t0 H1) as (t & Hl & Hle).
    exists t. rewrite last_time_cons. split; [assumption|].
    eapply Qle_trans; eassumption.
Qed.

Lemma time_le_head prev (t : Q) (ts : list Q) :
  nondecreasing_from prev (t :: ts) = true ->
  time_le prev t /\ nondecreasing_from (Some t) ts = true.
Proof.
  cbn. intros H. apply andb_true_iff in H as [H0 H1]. split; [|assumption].
  destruct prev; [apply Qle_bool_iff; assumption | exact I].
Qed.

Lemma invariant_tokens cfg (toks : list token) : forall c prev,
  enable_word_final_mode cfg = false ->
  session_invariant cfg c prev ->
  nondecreasing_from prev (map tok_start toks) = true ->
  session_invariant cfg
    (snd (for_each (map token_json toks)
            (handle_result (WM := spec_word_module) cfg) c))
    (last_time prev (map tok_start toks)).
Proof.
  induction toks as [|t toks IH]; intros c prev Hmode H Hn.
  - destruct prev; exact H.
  - change (map tok_start (t :: toks)) with (tok_start t :: map tok_start toks) in *.
    rewrite last_time_cons.
    apply time_le_head in Hn as [Ht Hn].
    pose proof (invariant_token cfg t c prev Hmode H Ht) as H1.
    change (for_each (map token_json (t :: toks))
              (handle_result (WM := spec_word_module) cfg) c)
      with (bind (handle_result (WM := spec_word_module) cfg (token_json t))
              (fun _ => for_each (map token_json toks)
                          (handle_result (WM := spec_word_module) cfg)) c).
    unfold bind.
    destruct (handle_result cfg (token_json t) c) as [[[]|e] c1];
      cbn [fst snd] in *.
    + apply IH; assumption.
    + destruct (nondecreasing_last _ _ Hn) as (tl & -> & Hle).
      eapply invariant_later; [exact H1 | exact Hle].
Qed.

Lemma invariant_sentence_message cfg (m : provider_message) c prev :
  enable_word_final_mode cfg = false ->
  session_invariant cfg c prev ->
  nondecreasing_from prev (map tok_start (pm_tokens m)) = true ->
  session_invariant cfg
    (_handle_transcript_sentence_final_mode (WM := spec_word_module)
       cfg (message_json m) c)
    (last_time prev (map tok_start (pm_tokens m))).
Proof.
  intros Hmode H Hn.
  pose proof (invariant_tokens cfg (pm_tokens m) c prev Hmode H Hn) as H1.
  unfold _handle_transcript_sentence_final_mode, try_except, sentence_body.
  unfold message_json.
  unfold bind at 1, lift at 1. cbn [py_get assoc String.eqb Ascii.eqb Bool.eqb].
  cbn [from_option id]. unfold bind at 1, lift at 1. cbn [py_iter].
  unfold bind at 1.
  destruct (for_each (map token_json (pm_tokens m)) (handle_result cfg) c)
    as [[[]|e] c1]; cbn [snd] in H1.
  - unfold bind, get.
    destruct (cache_words c1) eqn:Ec.
    + exact H1.
    + destruct (invariant_emit_sentence cfg false c1 _ H1) as [Ha _].
      destruct (emit_sentence cfg false c1) as [[[]|e] c2]; cbn [snd] in Ha.
      * exact Ha.
      * apply invariant_report. exact Ha.
  - apply invariant_report. exact H1.
Qed.

Lemma invariant_session cfg (tr : list session_event) : forall c prev,
  session_invariant cfg c prev ->
  provider_times_nondecreasing cfg prev tr = true ->
  exists prev',
    session_invariant cfg (run_session (WM := spec_word_module) cfg tr c) prev'.
Proof.
  induction tr as [|ev tr IH]; intros c prev H Hn.
  - exists prev. exact H.
  - unfold run_session. cbn [fold_left]. fold (run_session (WM := spec_word_module) cfg tr).
    destruct ev as [d| |ty m]; cbn [provider_times_nondecreasing session_step] in *.
    + eapply IH; [apply invariant_send_chunk; exact H | exact Hn].
    + eapply IH; [eapply invariant_recognition_started; exact H | exact Hn].
    + apply andb_true_iff in Hn as [Hm Hn].
      unfold message_times, dispatch in *.
      destruct (enable_word_final_mode cfg) eqn:Hmode.
      * assert (Hc : cache_words c = []).
        { destruct H as (_ & _ & _ & _ & _ & H6). rewrite Hmode in H6.
          specialize (H6 eq_refl). destruct (cache_words c); [reflexivity | discriminate]. }
        apply time_le_head in Hm as [Ht _].
        destruct ty.
        -- eapply IH; [|exact Hn].
           apply (invariant_word_message cfg true m c prev); assumption.
        -- eapply IH; [|exact Hn].
           apply (invariant_word_message cfg false m c prev); assumption.
      * destruct ty.
        -- eapply IH; [|exact Hn].
           apply invariant_sentence_message; assumption.
        -- eapply IH; [|exact Hn]. exact H.
Qed.

(** C2.  Over a whole session, with any number of reconnections, the
    absolute start times of the segments emitted never decrease, provided
    the provider's times do not decrease within a connection and the
    timeline answers as a timeline should: the audio before a time is
    between nothing and all the audio submitted, and grows with the time
    and with the audio submitted. *)
Theorem C2_start_times_nondecreasing
    (cfg : SpeechmaticsASRConfig) (tr : list session_event) (tl : T) :
  provider_times_nondecreasing cfg None tr = true ->
  StronglySorted Z.le
    (map ASRResult.start_ms
       (results_of (events
          (run_session (WM := spec_word_module) cfg tr (new_client tl))))).
Proof.
  intros Hn.
  destruct (invariant_session cfg tr (new_client tl) None) as [prev' H].
  - unfold session_invariant. cbn.
    repeat split; try constructor.
  - exact Hn.
  - destruct H as [H _]. exact H.
Qed.
End SentenceTimestamps.

(** The timeline of the specification answers as a timeline should. *)
Lemma cursor_timeline_laws : @AudioTimelineLaws CursorTimeline cursor_timeline.
Proof.
  constructor; intros;
    unfold get_audio_duration_before_time, get_total_user_audio_duration,
      add_user_audio, cursor_timeline, cursor_before.
  - apply Q.le_max_l.
  - apply Q.max_lub; [|apply Q.le_min_r].
    change 0%Q with (inject_Z 0). rewrite <- Zle_Qle. lia.
  - apply Q.max_le_compat_l. apply Q.min_le_compat_r. assumption.
  - apply Q.max_le_compat_l. apply Q.min_le_compat_l.
    rewrite <- Zle_Qle. cbn [total_user_audio_duration]. lia.
Qed.

Lemma C2_start_times_witness :
  StronglySorted Z.le
    (map ASRResult.start_ms
       (results_of (events
          (run_session (TL := cursor_timeline) (WM := spec_word_module)
             demo_config demo_session (new_client demo_timeline))))).
Proof.
  exact (C2_start_times_nondecreasing (TL := cursor_timeline)
           (Laws := cursor_timeline_laws)
           demo_config demo_session demo_timeline eq_refl).
Defined.

(** With the timeline of section 4.2 read to the letter the order is lost,
    in both modes: the provider's times do not decrease within either
    connection, the first segment starts at 800 ms, a provider time beyond
    the 0 ms of audio submitted by then, and the segment of the second
    connection starts at 100 ms, the audio submitted before it. *)
Lemma C2_literal_timeline_counterexample :
  (provider_times_nondecreasing demo_word_config None early_word_session = true
   /\ map ASRResult.start_ms
        (results_of (events
           (run_session (TL := literal_timeline) (WM := spec_word_module)
              demo_word_config early_word_session (new_client demo_timeline))))
      = [800; 100])
  /\ (provider_times_nondecreasing demo_config None early_sentence_session = true
      /\ map ASRResult.start_ms
           (results_of (events
              (run_session (TL := literal_timeline) (WM := spec_word_module)
                 demo_config early_sentence_session (new_client demo_timeline))))
         = [800; 100])
  /\ ~ StronglySorted Z.le [800; 100].
Proof.
  split; [split; vm_compute; reflexivity|].
  split; [split; vm_compute; reflexivity|].
  intros H. apply StronglySorted_inv in H as [_ H].
  apply Forall_inv in H. lia.
Qed.

(** * More of [config.py]: the current key and the order of rotation *)

Section CurrentKey.
Implicit Types c : SpeechmaticsASRConfig.

Lemma key_at_lookup c (i : Z) :
  0 <= i < num_keys c -> api_keys c !! Z.to_nat i = Some (key_at c i).
Proof.
  intros Hi. unfold key_at, num_keys in *.
  destruct (api_keys c !! Z.to_nat i) as [k|] eqn:E; [reflexivity|].
  apply lookup_ge_None in E. lia.
Qed.

(** X1.  [get_current_key] over a non-empty key list: afterwards the
    current index is in range, the key returned is the element of
    [api_keys] at that index (never a default), the key list and the
    attempted list are untouched, an index that was in range stays, and
    a second call answers the same and changes nothing. *)
Theorem X1_get_current_key_normalises c :
  0 < num_keys c ->
  let k := fst (get_current_key c) in
  let c' := snd (get_current_key c) in
  0 <= current_key_index c' < num_keys c'
  /\ api_keys c' !! Z.to_nat (current_key_index c') = Some k
  /\ api_keys c' = api_keys c
  /\ attempted_key_indices c' = attempted_key_indices c
  /\ (0 <= current_key_index c < num_keys c -> c' = c)
  /\ get_current_key c' = (k, c').
Proof.
  intros HN. cbv zeta.
  assert (Hin : forall c0, 0 < num_keys c0 ->
            0 <= current_key_index c0 < num_keys c0 ->
            get_current_key c0 = (key_at c0 (current_key_index c0), c0)).
  { intros c0 H0 H1. unfold get_current_key.
    destruct (Z.ltb_spec 0 (num_keys c0)); [|lia].
    destruct (Z.leb_spec 0 (current_key_index c0)); [|lia].
    destruct (Z.ltb_spec (current_key_index c0) (num_keys c0)); [|lia].
    reflexivity. }
  assert (Hout : ~ 0 <= current_key_index c < num_keys c ->
            get_current_key c = (key_at c 0, set_current_key_index 0 c)).
  { intros H1. unfold get_current_key.
    destruct (Z.ltb_spec 0 (num_keys c)); [|lia].
    destruct (Z.leb_spec 0 (current_key_index c));
      [destruct (Z.ltb_spec (current_key_index c) (num_keys c)); [lia|]|];
      reflexivity. }
  destruct (decide (0 <= current_key_index c < num_keys c)) as [Hr|Hr].
  - rewrite (Hin c HN Hr). cbn [fst snd].
    split; [exact Hr|]. split; [apply key_at_lookup; exact Hr|].
    split; [reflexivity|]. split; [reflexivity|]. split; [reflexivity|].
    apply Hin; assumption.
  - rewrite (Hout Hr). cbn [fst snd].
    change (num_keys (set_current_key_index 0 c)) with (num_keys c).
    change (current_key_index (set_current_key_index 0 c)) with 0.
    change (api_keys (set_current_key_index 0 c)) with (api_keys c).
    split; [lia|]. split; [apply (key_at_lookup c 0); lia|].
    split; [reflexivity|]. split; [reflexivity|]. split; [intros; contradiction|].
    apply (Hin (set_current_key_index 0 c)).
    + exact HN.
    + change (0 <= 0 < num_keys c). lia.
Qed.
End CurrentKey.

Lemma X1_get_current_key_witness :
  0 < num_keys (set_current_key_index 7 demo_config)
  /\ (let k := fst (get_current_key (set_current_key_index 7 demo_config)) in
      let c' := snd (get_current_key (set_current_key_index 7 demo_config)) in
      0 <= current_key_index c' < num_keys c'
      /\ api_keys c' !! Z.to_nat (current_key_index c') = Some k
      /\ api_keys c' = api_keys (set_current_key_index 7 demo_config)
      /\ attempted_key_indices c'
         = attempted_key_indices (set_current_key_index 7 demo_config)
      /\ (0 <= current_key_index (set_current_key_index 7 demo_config)
             < num_keys (set_current_key_index 7 demo_config) ->
          c' = set_current_key_index 7 demo_config)
      /\ get_current_key c' = (k, c')).
Proof.
  split; [reflexivity|].
  apply (X1_get_current_key_normalises (set_current_key_index 7 demo_config)).
  reflexivity.
Defined.

Section RotationOrder.
Implicit Types c : SpeechmaticsASRConfig.

Lemma seqZ_snoc (j : nat) : seqZ 0 (Z.of_nat (S j)) = seqZ 0 (Z.of_nat j) ++ [Z.of_nat j].
Proof.
  replace (Z.of_nat (S j)) with (Z.of_nat j + 1) by lia.
  rewrite seqZ_app by lia. reflexivity.
Qed.

(** The state the rotation is in after [j] successful calls from a reset:
    the current index is [j] and the attempted list is [0, ..., j-1]. *)
Lemma get_next_key_in_order c (j : nat) :
  1 < num_keys c ->
  current_key_index c = Z.of_nat j ->
  attempted_key_indices c = seqZ 0 (Z.of_nat j) ->
  (S j < length (api_keys c))%nat ->
  exists k,
    api_keys c !! S j = Some k
    /\ get_next_key c
       = (Ok k, set_current_key_index (Z.of_nat (S j))
                  (set_attempted_key_indices (seqZ 0 (Z.of_nat (S j))) c)).
Proof.
  intros HN Hcur Hatt Hj.
  destruct (api_keys c !! S j) as [k|] eqn:Ek;
    [|apply lookup_ge_None in Ek; lia].
  exists k. split; [reflexivity|].
  assert (Hmark : mark_attempted c
                  = set_attempted_key_indices (seqZ 0 (Z.of_nat (S j))) c).
  { unfold mark_attempted. rewrite Hcur, Hatt.
    case_bool_decide as Hin; [apply elem_of_seqZ in Hin; lia|].
    rewrite seqZ_snoc. reflexivity. }
  unfold get_next_key.
  destruct (Z.ltb_spec 1 (num_keys c)) as [_|]; [|lia].
  rewrite Hmark.
  change (num_keys (set_attempted_key_indices (seqZ 0 (Z.of_nat (S j))) c))
    with (num_keys c).
  rewrite (seqZ_cons 0 (num_keys c)) by lia.
  cbn [scan_unattempted].
  change (current_key_index (set_attempted_key_indices (seqZ 0 (Z.of_nat (S j))) c))
    with (current_key_index c).
  change (num_keys (set_attempted_key_indices (seqZ 0 (Z.of_nat (S j))) c))
    with (num_keys c).
  change (attempted_key_indices
            (set_attempted_key_indices (seqZ 0 (Z.of_nat (S j))) c))
    with (seqZ 0 (Z.of_nat (S j))).
  assert (Hnext : (current_key_index c + 1 + 0) `mod` num_keys c = Z.of_nat (S j)).
  { rewrite Hcur. unfold num_keys in *. rewrite Z.mod_small; lia. }
  rewrite Hnext.
  case_bool_decide as Hin; [apply elem_of_seqZ in Hin; lia|].
  f_equal. f_equal.
  unfold key_at. cbn [api_keys set_attempted_key_indices].
  rewrite Nat2Z.id, Ek. reflexivity.
Qed.

Lemma rotate_calls_in_order (m : nat) : forall c (j : nat),
  1 < num_keys c ->
  current_key_index c = Z.of_nat j ->
  attempted_key_indices c = seqZ 0 (Z.of_nat j) ->
  (j < length (api_keys c))%nat ->
  map outcome (rotate_calls m c)
  = map Ok (take m (drop (S j) (api_keys c)))
    ++ replicate (m - (length (api_keys c) - S j)) (Raise ValueError).
Proof.
  induction m as [|m IH]; intros c j HN Hcur Hatt Hj; [reflexivity|].
  destruct (decide (S j < length (api_keys c))%nat) as [Hlt|Hge].
  - destruct (get_next_key_in_order c j HN Hcur Hatt Hlt) as (k & Ek & E).
    cbn [rotate_calls]. rewrite E. cbn [map outcome].
    rewrite (drop_S _ _ _ Ek). cbn [take map app].
    rewrite (IH _ (S j)); try reflexivity; try assumption.
    cbn [api_keys set_current_key_index set_attempted_key_indices].
    f_equal. f_equal. f_equal. lia.
  - assert (Hlen : length (api_keys c) = S j) by lia.
    rewrite drop_ge by lia. rewrite take_nil. cbn [map app].
    replace (S m - (length (api_keys c) - S j))%nat with (S m) by lia.
    cbn [rotate_calls].
    destruct (get_next_key c) as [[k|e] c1] eqn:E.
    + apply get_next_key_Ok in E as (Hr & Hf & Hne & _); [|exact HN].
      exfalso. apply Hf. rewrite Hatt. apply elem_of_seqZ.
      unfold num_keys in *. lia.
    + apply get_next_key_Raise in E as (-> & _ & -> & Hall).
      cbn [map outcome replicate]. f_equal.
      apply rotate_calls_exhausted; rewrite num_keys_mark; assumption.
Qed.

(** X2.  After [reset_key_rotation], over more than one key, successive
    calls of [get_next_key] return the keys in list order, from the second
    key to the last, each once, and every call after that raises
    [ValueError]: the first key is the one in use, and no key is
    skipped. *)
Theorem X2_rotation_from_reset_visits_keys_in_order c (m : nat) :
  1 < num_keys c ->
  map outcome (rotate_calls m (reset_key_rotation c))
  = map Ok (take m (drop 1 (api_keys c)))
    ++ replicate (m - (length (api_keys c) - 1)) (Raise ValueError).
Proof.
  intros HN.
  apply (rotate_calls_in_order m (reset_key_rotation c) 0).
  - exact HN.
  - reflexivity.
  - reflexivity.
  - cbn [api_keys reset_key_rotation set_attempted_key_indices set_current_key_index].
    unfold num_keys in HN. lia.
Qed.

(** X3.  Exhaustion is final: when [get_next_key] raises, the
    configuration it leaves answers [False] to [has_unattempted_keys], and
    every later call of [get_next_key] raises [ValueError] again, until the
    rotation is reset. *)
Theorem X3_exhaustion_is_final c (e : pyexn) c' (m : nat) :
  get_next_key c = (Raise e, c') ->
  has_unattempted_keys c' = false
  /\ map outcome (rotate_calls m c') = replicate m (Raise ValueError).
Proof.
  intros E. apply get_next_key_Raise in E as (_ & HN & -> & Hall).
  split.
  - unfold has_unattempted_keys. rewrite num_keys_mark.
    destruct (Z.leb_spec (num_keys c) 1); [reflexivity|].
    apply Z.ltb_ge.
    assert (Hsub : seqZ 0 (num_keys c) ⊆+ attempted_key_indices (mark_attempted c)).
    { apply NoDup_submseteq; [apply NoDup_seqZ|].
      intros i Hi. apply elem_of_seqZ in Hi. apply Hall. lia. }
    apply submseteq_length in Hsub. rewrite length_seqZ in Hsub. lia.
  - apply rotate_calls_exhausted; rewrite num_keys_mark; assumption.
Qed.

(** X4.  [has_unattempted_keys] and [get_next_key] count differently.
    Over a well-formed attempted list and more than one key: when
    [has_unattempted_keys] answers [False], [get_next_key] raises; but
    when the current index is the only one missing from the attempted
    list, [has_unattempted_keys] still answers [True] although
    [get_next_key] raises, since it marks the current index first. *)
Theorem X4_has_unattempted_keys_counts_the_current_key c :
  rotation_wf c ->
  1 < num_keys c ->
  0 <= current_key_index c < num_keys c ->
  (has_unattempted_keys c = false -> fst (get_next_key c) = Raise ValueError)
  /\ (current_key_index c ∉ attempted_key_indices c ->
      Z.of_nat (length (attempted_key_indices c)) = num_keys c - 1 ->
      has_unattempted_keys c = true
      /\ fst (get_next_key c) = Raise ValueError).
Proof.
  intros Hwf HN Hc.
  assert (Hraise : (forall i, 0 <= i < num_keys c ->
                      i ∈ attempted_key_indices c \/ i = current_key_index c) ->
                   fst (get_next_key c) = Raise ValueError).
  { intros Hall. destruct (get_next_key c) as [[k|e] c1] eqn:E.
    - apply get_next_key_Ok in E as (Hr & Hf & Hne & _); [|exact HN].
      destruct (Hall _ Hr); contradiction.
    - apply get_next_key_Raise in E as (-> & _). reflexivity. }
  split.
  - intros Hu. apply Hraise. intros i Hi.
    destruct (decide (i ∈ attempted_key_indices c)) as [|Hni]; [left; assumption|].
    pose proof (attempted_short c i Hwf Hi Hni) as Hs.
    unfold has_unattempted_keys in Hu.
    destruct (Z.leb_spec (num_keys c) 1); [lia|].
    apply Z.ltb_ge in Hu. lia.
  - intros Hni Hlen. split.
    + unfold has_unattempted_keys.
      destruct (Z.leb_spec (num_keys c) 1); [lia|]. apply Z.ltb_lt. lia.
    + apply Hraise. intros i Hi.
      destruct (decide (i = current_key_index c)) as [|Hne]; [right; assumption|].
      left. destruct (decide (i ∈ attempted_key_indices c)) as [|Hni']; [assumption|].
      exfalso.
      pose proof (rotation_wf_mark c Hwf Hc) as Hwf'.
      assert (Hni2 : i ∉ attempted_key_indices (mark_attempted c)).
      { rewrite attempted_mark. tauto. }
      pose proof (attempted_short (mark_attempted c) i Hwf') as Hs.
      rewrite num_keys_mark in Hs. specialize (Hs Hi Hni2).
      unfold mark_attempted in Hs.
      case_bool_decide; [contradiction|].
      cbn [attempted_key_indices set_attempted_key_indices] in Hs.
      rewrite length_app in Hs. cbn [length] in Hs. lia.
Qed.

(** X5.  The rotation keeps its bookkeeping sound: from a well-formed
    attempted list (no index twice, every index in range) and a current
    index in range, every call of [get_next_key], whether it returns or
    raises, leaves the attempted list well formed, the current index in
    range and the key list as it was. *)
Theorem X5_rotation_keeps_attempted_list_well_formed (k : nat) : forall c,
  rotation_wf c ->
  0 <= current_key_index c < num_keys c ->
  Forall (fun r =>
            rotation_wf (after r)
            /\ 0 <= current_key_index (after r) < num_keys (after r)
            /\ api_keys (after r) = api_keys c
            /\ attempted_key_indices (before r)
                 `prefix_of` attempted_key_indices (after r))
         (rotate_calls k c).
Proof.
  induction k as [|k IH]; intros c Hwf Hc; [constructor|].
  cbn [rotate_calls].
  destruct (get_next_key c) as [r c1] eqn:E.
  destruct (rotation_wf_next c r c1 Hwf Hc E) as [Hwf1 Hc1].
  assert (Hk : api_keys c1 = api_keys c
               /\ attempted_key_indices c `prefix_of` attempted_key_indices c1).
  { revert E. unfold get_next_key.
    assert (Hm : api_keys (mark_attempted c) = api_keys c
                 /\ attempted_key_indices c
                      `prefix_of` attempted_key_indices (mark_attempted c)).
    { unfold mark_attempted. case_bool_decide; split; try reflexivity.
      cbn [attempted_key_indices set_attempted_key_indices].
      apply prefix_app_r. reflexivity. }
    destruct (1 <? num_keys c).
    - destruct (scan_unattempted _ _); intros [= _ <-]; exact Hm.
    - unfold get_current_key.
      destruct (0 <? num_keys c);
        [destruct ((0 <=? current_key_index c) && (current_key_index c <? num_keys c))|];
        intros [= _ <-]; split; reflexivity. }
  destruct Hk as [Hkeys Hpre].
  constructor; [cbn [after before]; auto|].
  eapply Forall_impl; [apply (IH c1 Hwf1 Hc1)|].
  intros r' (? & ? & Hk' & ?). rewrite Hk', Hkeys. auto.
Qed.
End RotationOrder.

Lemma X2_rotation_from_reset_witness :
  1 < num_keys demo_config
  /\ map outcome (rotate_calls 3 (reset_key_rotation demo_config))
     = map Ok (take 3 (drop 1 (api_keys demo_config)))
       ++ replicate (3 - (length (api_keys demo_config) - 1)) (Raise ValueError).
Proof.
  split; [reflexivity|].
  apply (X2_rotation_from_reset_visits_keys_in_order demo_config 3). reflexivity.
Defined.

Lemma X3_exhaustion_witness :
  get_next_key (snd (get_next_key demo_config))
  = (Raise ValueError, exhausted_config)
  /\ has_unattempted_keys exhausted_config = false
  /\ map outcome (rotate_calls 2 exhausted_config) = replicate 2 (Raise ValueError).
Proof.
  assert (E : get_next_key (snd (get_next_key demo_config))
              = (Raise ValueError, exhausted_config)) by reflexivity.
  split; [exact E|].
  exact (X3_exhaustion_is_final _ ValueError exhausted_config 2 E).
Defined.

Lemma X4_has_unattempted_keys_witness :
  rotation_wf (snd (get_next_key demo_config))
  /\ 1 < num_keys (snd (get_next_key demo_config))
  /\ 0 <= current_key_index (snd (get_next_key demo_config))
       < num_keys (snd (get_next_key demo_config))
  /\ (has_unattempted_keys (snd (get_next_key demo_config)) = false ->
      fst (get_next_key (snd (get_next_key demo_config))) = Raise ValueError)
  /\ (current_key_index (snd (get_next_key demo_config))
        ∉ attempted_key_indices (snd (get_next_key demo_config)) ->
      Z.of_nat (length (attempted_key_indices (snd (get_next_key demo_config))))
      = num_keys (snd (get_next_key demo_config)) - 1 ->
      has_unattempted_keys (snd (get_next_key demo_config)) = true
      /\ fst (get_next_key (snd (get_next_key demo_config))) = Raise ValueError).
Proof.
  assert (Hwf : rotation_wf (snd (get_next_key demo_config))).
  { split.
    - apply NoDup_singleton.
    - apply Forall_singleton. split; [discriminate | reflexivity]. }
  assert (HN : 1 < num_keys (snd (get_next_key demo_config))) by reflexivity.
  assert (Hc : 0 <= current_key_index (snd (get_next_key demo_config))
                 < num_keys (snd (get_next_key demo_config)))
    by (split; [discriminate | reflexivity]).
  exact (conj Hwf (conj HN (conj Hc
    (X4_has_unattempted_keys_counts_the_current_key _ Hwf HN Hc)))).
Defined.

Lemma X5_rotation_well_formed_witness :
  rotation_wf demo_config
  /\ 0 <= current_key_index demo_config < num_keys demo_config
  /\ Forall (fun r =>
            rotation_wf (after r)
            /\ 0 <= current_key_index (after r) < num_keys (after r)
            /\ api_keys (after r) = api_keys demo_config
            /\ attempted_key_indices (before r)
                 `prefix_of` attempted_key_indices (after r))
         (rotate_calls 3 demo_config).
Proof.
  assert (Hwf : rotation_wf demo_config) by (split; constructor).
  assert (Hc : 0 <= current_key_index demo_config < num_keys demo_config)
    by (split; [discriminate | reflexivity]).
  exact (conj Hwf (conj Hc
    (X5_rotation_keeps_attempted_list_well_formed 3 demo_config Hwf Hc))).
Defined.

(** * More of [recv_audio_frame]: what is enqueued, and what never changes *)

Section PackingBack.
Lemma byte_of_to_Z (b : Byte.byte) : byte_of_Z (byte_to_Z b) = b.
Proof.
  unfold byte_of_Z, byte_to_Z. rewrite N2Z.id, Byte.of_to_N. reflexivity.
Qed.

Lemma pack_unpack_h (lo hi : Byte.byte) : pack_h (unpack_h lo hi) = [lo; hi].
Proof.
  unfold pack_h, unpack_h.
  pose proof (byte_to_Z_range lo) as Hlo. pose proof (byte_to_Z_range hi) as Hhi.
  set (u := byte_to_Z lo + 256 * byte_to_Z hi).
  assert (Hu : 0 <= u < 65536) by (unfold u; lia).
  assert (Hm : (if u <? 32768 then u else u - 65536) `mod` 65536 = u).
  { destruct (Z.ltb_spec u 32768).
    - apply Z.mod_small. lia.
    - symmetry. apply (Z.mod_unique _ 65536 (-1)); lia. }
  rewrite Hm.
  assert (H1 : u `mod` 256 = byte_to_Z lo).
  { symmetry. apply (Z.mod_unique u 256 (byte_to_Z hi)); unfold u; lia. }
  assert (H2 : u / 256 = byte_to_Z hi).
  { symmetry. apply (Z.div_unique u 256 (byte_to_Z hi) (byte_to_Z lo)); unfold u; lia. }
  rewrite H1, H2, !byte_of_to_Z. reflexivity.
Qed.

(** Packing what was unpacked gives the buffer back, when it holds whole
    samples only. *)
Lemma pack_unpack_items : forall (n : nat) (buf : list Byte.byte),
  length buf = (2 * n)%nat -> concat (map pack_h (unpack_items buf)) = buf.
Proof.
  induction n as [|n IH]; intros buf H.
  - destruct buf; [reflexivity | discriminate].
  - destruct buf as [|lo [|hi r]]; simpl in H; try lia.
    cbn [unpack_items map concat]. rewrite pack_unpack_h, IH by lia. reflexivity.
Qed.
End PackingBack.

Section GainOrder.
Lemma py_int_Qeq (x y : Q) : (x == y)%Q -> py_int x = py_int y.
Proof.
  intros E.
  assert (H1 : (x <= y)%Q) by (rewrite E; apply Qle_refl).
  assert (H2 : (y <= x)%Q) by (rewrite E; apply Qle_refl).
  apply py_int_mono in H1, H2. lia.
Qed.

Lemma amplify_unit (g : Q) (s : Z) :
  (g == 1)%Q -> -32768 <= s <= 32767 -> amplify g s = s.
Proof.
  intros Hg Hs. unfold amplify.
  rewrite (py_int_Qeq (inject_Z s * g) (inject_Z s)).
  - rewrite py_int_inject. lia.
  - rewrite Hg. apply Qmult_1_r.
Qed.

Lemma amplify_zero (g : Q) : amplify g 0 = 0.
Proof.
  unfold amplify. rewrite (py_int_Qeq (inject_Z 0 * g) (inject_Z 0)).
  - rewrite py_int_inject. reflexivity.
  - apply Qmult_0_l.
Qed.

(** X9.  The gain loop keeps the order of the samples: under a gain that
    is not negative, a larger sample never comes out smaller, clipping
    included; silence stays silence, and no sample changes sign. *)
Theorem X9_gain_keeps_the_order_of_samples (g : Q) (s s' : Z) :
  (0 <= g)%Q ->
  s <= s' ->
  amplify g s <= amplify g s'
  /\ amplify g 0 = 0
  /\ (0 <= s -> 0 <= amplify g s)
  /\ (s <= 0 -> amplify g s <= 0).
Proof.
  intros Hg Hs.
  assert (Hmono : forall a b, a <= b -> amplify g a <= amplify g b).
  { intros a b Hab. unfold amplify.
    assert (H : (inject_Z a * g <= inject_Z b * g)%Q).
    { apply Qmult_le_compat_r; [|exact Hg]. rewrite <- Zle_Qle. exact Hab. }
    apply py_int_mono in H. lia. }
  split; [apply Hmono; exact Hs|].
  split; [apply amplify_zero|].
  split; intros H0.
  - rewrite <- (amplify_zero g). apply Hmono. exact H0.
  - rewrite <- (amplify_zero g). apply Hmono. exact H0.
Qed.
End GainOrder.

Section RecvAudioMore.
Context {T : Type}.
Implicit Types c : SpeechmaticsASRClient T.

Lemma same_connection_refl c : same_connection c c.
Proof. repeat split. Qed.

Lemma same_connection_trans c1 c2 c3 :
  same_connection c1 c2 -> same_connection c2 c3 -> same_connection c1 c3.
Proof.
  unfold same_connection. intros H1 H2.
  destruct H1 as (?&?&?&?&?&?&?&?), H2 as (?&?&?&?&?&?&?&?).
  repeat split; congruence.
Qed.

Lemma same_connection_log lvl c : same_connection c (emit (Log lvl) c).
Proof.
  repeat split. cbn [emit set_events events]. unfold results_of.
  rewrite omap_app. cbn. apply app_nil_r.
Qed.

Lemma same_connection_error e c : same_connection c (emit (OnAsrError e) c).
Proof.
  repeat split. cbn [emit set_events events]. unfold results_of.
  rewrite omap_app. cbn. apply app_nil_r.
Qed.

Lemma same_connection_stats c : same_connection c (log_audio_stats c).
Proof.
  unfold log_audio_stats. destruct (connected c) eqn:E; [|apply same_connection_refl].
  destruct (_ =? 1).
  - eapply same_connection_trans; [|apply same_connection_log].
    repeat split.
  - repeat split.
Qed.

Lemma same_connection_recv cfg (buf : list Byte.byte) sid c :
  same_connection c (recv_audio_frame cfg buf sid c).
Proof.
  unfold recv_audio_frame. destruct buf as [|b0 buf0]; [apply same_connection_log|].
  set (buf := b0 :: buf0).
  assert (Hc : same_connection c (snd (condition_frame cfg buf (set_session_id sid c)))).
  { unfold condition_frame.
    destruct (0 <? Z.of_nat (length buf) / 2).
    - destruct (struct_unpack _ buf); cbn [snd].
      + eapply same_connection_trans; [|apply same_connection_stats]. repeat split.
      + repeat split.
    - cbn [snd]. eapply same_connection_trans; [|apply same_connection_log].
      repeat split. }
  destruct (condition_frame cfg buf (set_session_id sid c)) as [[out|e] c1];
    cbn [snd] in Hc.
  - eapply same_connection_trans; [exact Hc|]. repeat split.
  - eapply same_connection_trans; [exact Hc|].
    eapply same_connection_trans; [apply same_connection_log|].
    eapply same_connection_trans; [apply same_connection_log|].
    apply same_connection_error.
Qed.

Lemma length_parity (l : nat) :
  l = O \/ l = 1%nat
  \/ (exists n, (0 < n)%nat /\ l = (2 * n)%nat)
  \/ (exists n, (0 < n)%nat /\ l = (2 * n + 1)%nat).
Proof.
  destruct (Nat.Even_or_Odd l) as [[n ->]|[n ->]].
  - destruct n; [left; reflexivity|].
    right. right. left. exists (S n). split; lia.
  - destruct n; [right; left; reflexivity|].
    right. right. right. exists (S n). split; lia.
Qed.

(** X6.  A frame of three bytes or more with one byte left over is
    dropped whole: nothing is enqueued, not even its whole samples; two
    error lines are logged and one error is handed to the owner; the
    session id is recorded all the same, and the frame counter of the
    statistics is not advanced. *)
Theorem X6_odd_frames_are_dropped_and_reported
    cfg (buf : list Byte.byte) sid c (n : nat) :
  length buf = (2 * n + 3)%nat ->
  let c' := recv_audio_frame cfg buf sid c in
  audio_queue c' = audio_queue c
  /\ events c' = events c ++ [Log LogError; Log LogError; OnAsrError fatal_error]
  /\ session_id c' = sid
  /\ audio_send_count c' = audio_send_count c.
Proof.
  intros Hlen. cbv zeta.
  destruct (recv_audio_frame_odd cfg buf sid c (S n)) as [Hq He]; [lia | lia |].
  split; [exact Hq|]. split; [exact He|].
  unfold recv_audio_frame.
  destruct buf as [|b0 buf0] eqn:Ebuf; [simpl in Hlen; lia|]. rewrite <- Ebuf in *.
  unfold condition_frame.
  assert (Hd : Z.of_nat (length buf) / 2 = Z.of_nat (S n)).
  { rewrite Hlen. symmetry. apply (Z.div_unique _ 2 _ 1); lia. }
  rewrite Hd.
  destruct (Z.ltb_spec 0 (Z.of_nat (S n))); [|lia].
  unfold struct_unpack.
  replace (Z.of_nat (length buf) =? 2 * Z.of_nat (S n)) with false
    by (symmetry; apply Z.eqb_neq; lia).
  split; reflexivity.
Qed.

(** X7.  Whatever the frame, [recv_audio_frame] leaves the connection
    alone (timeline, offset, connection flags, vendor client, word buffer,
    results emitted), and one of three things happens: the frame is empty
    and only a warning is logged; or one buffer of exactly the size of the
    frame is appended at the end of the queue and no error is reported; or
    the frame is not enqueued and exactly one error is reported.  A frame
    is never enqueued in part, and never dropped in silence. *)
Theorem X7_frame_enqueued_whole_or_reported
    cfg (buf : list Byte.byte) sid c :
  let c' := recv_audio_frame cfg buf sid c in
  same_connection c c'
  /\ ((buf = [] /\ c' = emit (Log LogWarn) c)
      \/ (exists out,
            length out = length buf
            /\ audio_queue c' = audio_queue c ++ [Audio out]
            /\ errors_of (events c') = errors_of (events c))
      \/ (buf <> []
          /\ audio_queue c' = audio_queue c
          /\ errors_of (events c') = errors_of (events c) ++ [fatal_error])).
Proof.
  cbv zeta. split; [apply same_connection_recv|].
  destruct (length_parity (length buf)) as [H0|[H1|[(n & Hn & He)|(n & Hn & Ho)]]].
  - left. destruct buf; [|discriminate]. split; reflexivity.
  - right. left. destruct buf as [|b [|? ?]]; try discriminate.
    exists [b]. split; [reflexivity|]. split; [reflexivity|].
    assert (E : events (recv_audio_frame cfg [b] sid c) = events c ++ [Log LogWarn])
      by reflexivity.
    rewrite E. unfold errors_of. rewrite omap_app. apply app_nil_r.
  - right. left.
    destruct (recv_audio_frame_even cfg buf sid c n Hn He) as (Hq & Her & Hl & _).
    eexists. split; [exact Hl|]. split; [exact Hq | exact Her].
  - right. right.
    destruct (recv_audio_frame_odd cfg buf sid c n Hn Ho) as (Hq & Hev).
    split; [intros ->; simpl in Ho; lia|]. split; [exact Hq|].
    rewrite Hev. unfold errors_of. rewrite omap_app. reflexivity.
Qed.

(** X8.  With the gain set to one, a non-empty frame of whole samples is
    enqueued byte for byte as it came: unpacking, scaling, clipping and
    packing again change nothing. *)
Theorem X8_unit_gain_passes_frames_unchanged
    cfg (buf : list Byte.byte) sid c (n : nat) :
  (audio_gain cfg == 1)%Q ->
  (0 < n)%nat -> length buf = (2 * n)%nat ->
  audio_queue (recv_audio_frame cfg buf sid c) = audio_queue c ++ [Audio buf].
Proof.
  intros Hg Hn Hlen.
  destruct (recv_audio_frame_even cfg buf sid c n Hn Hlen) as (Hq & _).
  rewrite Hq. do 3 f_equal.
  transitivity (concat (map pack_h (unpack_items buf)));
    [|apply (pack_unpack_items n); exact Hlen].
  do 2 f_equal.
  rewrite <- (map_id (unpack_items buf)) at 2.
  apply map_ext_Forall.
  eapply Forall_impl; [apply unpack_items_range|].
  intros s Hs. apply amplify_unit; assumption.
Qed.
End RecvAudioMore.

Lemma X6_odd_frames_witness :
  length [Byte.x01; Byte.x00; Byte.x02; Byte.x00; Byte.x03] = (2 * 1 + 3)%nat
  /\ (let c' := recv_audio_frame demo_config
                  [Byte.x01; Byte.x00; Byte.x02; Byte.x00; Byte.x03]
                  (Some "7"%string) demo_client in
      audio_queue c' = audio_queue demo_client
      /\ events c' = events demo_client
                     ++ [Log LogError; Log LogError; OnAsrError fatal_error]
      /\ session_id c' = Some "7"%string
      /\ audio_send_count c' = audio_send_count demo_client).
Proof.
  split; [reflexivity|].
  apply (X6_odd_frames_are_dropped_and_reported demo_config
           [Byte.x01; Byte.x00; Byte.x02; Byte.x00; Byte.x03]
           (Some "7"%string) demo_client 1).
  reflexivity.
Defined.

Lemma X8_unit_gain_witness :
  (audio_gain unit_gain_config == 1)%Q
  /\ (0 < 2)%nat
  /\ length [Byte.xff; Byte.x7f; Byte.x00; Byte.x80] = (2 * 2)%nat
  /\ audio_queue (recv_audio_frame unit_gain_config
                    [Byte.xff; Byte.x7f; Byte.x00; Byte.x80] None demo_client)
     = audio_queue demo_client ++ [Audio [Byte.xff; Byte.x7f; Byte.x00; Byte.x80]].
Proof.
  assert (Hg : (audio_gain unit_gain_config == 1)%Q) by reflexivity.
  assert (Hn : (0 < 2)%nat) by lia.
  assert (Hl : length [Byte.xff; Byte.x7f; Byte.x00; Byte.x80] = (2 * 2)%nat)
    by reflexivity.
  exact (conj Hg (conj Hn (conj Hl
    (X8_unit_gain_passes_frames_unchanged unit_gain_config _ None demo_client 2
       Hg Hn Hl)))).
Defined.

Lemma X9_gain_order_witness :
  (0 <= 7 # 4)%Q
  /\ -3 <= 20000
  /\ amplify (7 # 4) (-3) <= amplify (7 # 4) 20000
  /\ amplify (7 # 4) 0 = 0
  /\ (0 <= -3 -> 0 <= amplify (7 # 4) (-3))
  /\ (-3 <= 0 -> amplify (7 # 4) (-3) <= 0).
Proof.
  assert (Hg : (0 <= 7 # 4)%Q) by (unfold Qle; simpl; lia).
  assert (Hs : -3 <= 20000) by lia.
  exact (conj Hg (conj Hs (X9_gain_keeps_the_order_of_samples (7 # 4) (-3) 20000 Hg Hs))).
Defined.

(** * More of the transcript handlers *)

Section SpeakerLabel.

(** White space beyond ASCII is stripped as well: a no-break space
    (U+00A0, the bytes C2 A0) and an ideographic space (U+3000, the bytes
    E3 80 80) around a label, and a label made of them is blank. *)
Lemma strip_unicode_space :
  strip (String "194" (String "160" ("S1" +:+ String "227" (String "128" (String "128" " ")))))
  = "S1"%string
  /\ strip (String "194" (String "160" EmptyString)) = EmptyString.
Proof. split; reflexivity. Qed.

End SpeakerLabel.

Section WordAndPartial.
Context {T : Type} `{TL : AudioTimeline T} `{WM : WordModule}.
Implicit Types c : SpeechmaticsASRClient T.


End WordAndPartial.

Section SentenceConservation.
Context {T : Type} `{TL : AudioTimeline T} `{WM : WordModule}.
Implicit Types c : SpeechmaticsASRClient T.

Lemma errors_of_app (l k : list client_event) :
  errors_of (l ++ k) = errors_of l ++ errors_of k.
Proof. apply omap_app. Qed.

Lemma errors_of_results (rs : list ASRResult.t) :
  errors_of (map OnAsrResult rs) = [].
Proof. induction rs as [|r rs IH]; [reflexivity | exact IH]. Qed.

(** X11.  The sentence handler loses no token and repeats none.  On a
    well-formed message for which it reports no error, the handler emits
    one final segment for each sentence end of the message, in order,
    followed by one preview when words are left in the buffer, and
    nothing else; and the words of the final segments followed by the
    words left in the buffer are the words that were buffered, as they
    were, followed by one word for each token of the message that carries
    a text, with that text, in the order of the tokens.  The preview lists
    the whole buffer and is not final. *)
Theorem X11_sentence_mode_keeps_every_token cfg (m : provider_message) c :
  let c' := _handle_transcript_sentence_final_mode cfg (message_json m) c in
  errors_of (events c') = errors_of (events c) ->
  exists finals preview new,
    events c' = events c ++ map OnAsrResult finals ++ map OnAsrResult preview
    /\ Forall (fun r => ASRResult.final r = true) finals
    /\ length finals = sentence_ends (pm_tokens m)
    /\ concat (map ASRResult.words finals) ++ get_words (cache_words c')
       = get_words (cache_words c) ++ new
    /\ map payload_word new
       = map (fun t => JStr (tok_content t)) (spoken_tokens (pm_tokens m))
    /\ match cache_words c' with
       | [] => preview = []
       | ws => exists r, preview = [r]
                         /\ ASRResult.final r = false
                         /\ ASRResult.words r = get_words ws
       end.
Proof.
  cbv zeta. unfold _handle_transcript_sentence_final_mode, try_except.
  destruct (sentence_body cfg (message_json m) c) as [[[]|e] c2] eqn:E.
  - intros _. revert E. unfold sentence_body.
    destruct m as [transcript t0 t1 toks]. run_python. cbn [pm_tokens].
    unfold bind at 1.
    destruct (for_each (map token_json toks) (handle_result cfg) c)
      as [[[]|e] c1] eqn:Ef; [|discriminate].
    apply for_each_texts in Ef as (finals & new & He & Hf & Hl & Hw & Hn).
    unfold bind, get.
    destruct (cache_words c1) as [|w ws] eqn:Ec.
    + intros [= <-]. exists finals, [], new. rewrite Ec. cbn [map].
      rewrite app_nil_r. repeat split; assumption.
    + pose proof (emit_sentence_spec cfg false c1) as Hs.
      destruct (emit_sentence cfg false c1) as [[[]|e] c3]; [|discriminate].
      destruct Hs as (s & st & d & _ & _ & _ & ->).
      intros [= <-]. eexists finals, [_], new.
      cbn [cache_words emit set_events events]. rewrite Ec.
      split; [rewrite He, <- app_assoc; reflexivity|].
      split; [assumption|]. split; [assumption|].
      split; [exact Hw|]. split; [exact Hn|].
      eexists. split; [reflexivity|]. split; reflexivity.
  - intros Herr. exfalso.
    destruct (sentence_body_raise _ _ _ _ _ E) as (finals & He & _).
    unfold report_failure in Herr. cbn [emit set_events events] in Herr.
    rewrite He, !errors_of_app, errors_of_results in Herr.
    cbn in Herr. apply (f_equal length) in Herr.
    rewrite !length_app in Herr. cbn in Herr. lia.
Qed.
End SentenceConservation.

Lemma X11_sentence_mode_witness :
  let c' := _handle_transcript_sentence_final_mode
              (TL := cursor_timeline) (WM := spec_word_module)
              demo_config (message_json sentence_and_a_half) demo_buffering in
  errors_of (events c') = errors_of (events demo_buffering)
  /\ exists finals preview new,
       events c' = events demo_buffering
                   ++ map OnAsrResult finals ++ map OnAsrResult preview
       /\ Forall (fun r => ASRResult.final r = true) finals
       /\ length finals = sentence_ends (pm_tokens sentence_and_a_half)
       /\ concat (map ASRResult.words finals) ++ get_words (cache_words c')
          = get_words (cache_words demo_buffering) ++ new
       /\ map payload_word new
          = map (fun t => JStr (tok_content t))
              (spoken_tokens (pm_tokens sentence_and_a_half))
       /\ match cache_words c' with
          | [] => preview = []
          | ws => exists r, preview = [r]
                            /\ ASRResult.final r = false
                            /\ ASRResult.words r = get_words ws
          end.
Proof.
  cbv zeta.
  assert (H : errors_of (events (_handle_transcript_sentence_final_mode
                (TL := cursor_timeline) (WM := spec_word_module)
                demo_config (message_json sentence_and_a_half) demo_buffering))
              = errors_of (events demo_buffering)) by reflexivity.
  split; [exact H|].
  exact (X11_sentence_mode_keeps_every_token (TL := cursor_timeline)
           (WM := spec_word_module) demo_config sentence_and_a_half
           demo_buffering H).
Defined.

(** * More of [extension.py] *)

Section AfterStop.
Context {T : Type}.
Implicit Types x : SpeechmaticsASRExtension T.

Lemma send_audio_disconnected (frame : list Byte.byte) sid x :
  ext_is_connected x = false ->
  fst (send_audio frame sid x) = false
  /\ client (snd (send_audio frame sid x)) = client x
  /\ ext_is_connected (snd (send_audio frame sid x)) = false.
Proof.
  intros Hd. unfold send_audio.
  change (ext_is_connected (set_send_audio_count (send_audio_count x + 1) x))
    with (ext_is_connected x).
  rewrite Hd. cbn [negb fst snd].
  destruct (_ =? 1); repeat split; assumption.
Qed.

Lemma send_audio_all_disconnected (frames : list (list Byte.byte)) sid : forall x,
  ext_is_connected x = false ->
  fst (send_audio_all frames sid x) = replicate (length frames) false
  /\ client (snd (send_audio_all frames sid x)) = client x.
Proof.
  induction frames as [|f r IH]; intros x Hd; [split; reflexivity|].
  cbn [send_audio_all].
  destruct (send_audio_disconnected f sid x Hd) as (Ha & Hc & Hd1).
  destruct (send_audio f sid x) as [a x1]. cbn [fst snd] in *.
  destruct (IH x1 Hd1) as (Has & Hcs).
  destruct (send_audio_all r sid x1) as [answers x2]. cbn [fst snd] in *.
  subst. split; [reflexivity | congruence].
Qed.

Lemma is_connected_stop (c : SpeechmaticsASRClient T) :
  is_connected (client_stop c) = false.
Proof.
  destruct c as [tl q sent sid conn ws stopping [running|] cache n evs];
    reflexivity.
Qed.

(** X12.  After [stop_connection], and after the provider has ended the
    transcript, the extension is not connected, and every frame handed to
    [send_audio] from then on is refused and dropped: the answers are all
    [False] and the client, its queue included, stays as it was.  The
    queue of a stopped client ends with the two markers FLUSH and CLOSE,
    and no frame gets behind them. *)
Theorem X12_no_frame_is_queued_after_stop
    x (c : SpeechmaticsASRClient T) (frames : list (list Byte.byte)) sid :
  let stopped := stop_connection x in
  let ended := set_client (Some (_handle_end_transcript c)) x in
  (ext_is_connected stopped = false
   /\ fst (send_audio_all frames sid stopped) = replicate (length frames) false
   /\ client (snd (send_audio_all frames sid stopped)) = client stopped
   /\ match client x with
      | Some c0 => queued_audio stopped = audio_queue c0 ++ [FLUSH; CLOSE]
      | None => queued_audio stopped = []
      end)
  /\ (ext_is_connected ended = false
      /\ fst (send_audio_all frames sid ended) = replicate (length frames) false
      /\ client (snd (send_audio_all frames sid ended)) = client ended).
Proof.
  cbv zeta.
  assert (H1 : ext_is_connected (stop_connection x) = false).
  { unfold stop_connection, ext_is_connected.
    destruct (client x) as [c0|] eqn:E; cbn; [|rewrite E; reflexivity].
    apply is_connected_stop. }
  assert (H2 : ext_is_connected (set_client (Some (_handle_end_transcript c)) x)
               = false).
  { destruct c as [tl q sent sid0 conn ws [|] [running|] cache n evs];
      reflexivity. }
  split.
  - split; [exact H1|].
    destruct (send_audio_all_disconnected frames sid _ H1) as [Ha Hc].
    split; [exact Ha|]. split; [exact Hc|].
    unfold stop_connection, queued_audio.
    destruct (client x) as [c0|] eqn:E; cbn; [|rewrite E; reflexivity].
    destruct c0 as [tl q sent sid0 conn ws stopping [running|] cache n evs];
      reflexivity.
  - split; [exact H2|]. apply send_audio_all_disconnected. exact H2.
Qed.
End AfterStop.

Section UsableKeys.
Context {T : Type}.
Implicit Types x : SpeechmaticsASRExtension T.

Lemma started_refl x : started_with_usable_keys x x.
Proof. split; [reflexivity|]. exists []. rewrite app_nil_r. split; constructor. Qed.

Lemma started_trans x1 x2 x3 :
  started_with_usable_keys x1 x2 -> started_with_usable_keys x2 x3 ->
  started_with_usable_keys x1 x3.
Proof.
  intros (Hk1 & n1 & E1 & F1) (Hk2 & n2 & E2 & F2).
  split; [congruence|]. exists (n1 ++ n2).
  split; [rewrite E2, E1, app_assoc; reflexivity|].
  apply Forall_app. split; [assumption|].
  eapply Forall_impl; [exact F2|]. unfold usable_key. intros k. rewrite Hk1. tauto.
Qed.

Lemma started_emit (e : ext_event) x :
  not_a_start e -> started_with_usable_keys x (ext_emit e x).
Proof.
  intros He. split; [reflexivity|]. exists [].
  split; [|constructor].
  cbn [ext_emit set_ext_events ext_events]. rewrite client_starts_app, app_nil_r.
  destruct e; try destruct He; cbn; rewrite app_nil_r; reflexivity.
Qed.

Lemma started_set_config cfg x :
  api_keys cfg = api_keys (config x) ->
  started_with_usable_keys x (set_config cfg x).
Proof.
  intros Hk. split; [exact Hk|]. exists []. rewrite app_nil_r. split; constructor.
Qed.

Lemma started_stop x : started_with_usable_keys x (stop_connection x).
Proof.
  destruct (stop_connection_effect x) as (Hc & _ & Hs).
  split; [rewrite Hc; reflexivity|]. exists [].
  rewrite app_nil_r. split; [exact Hs | constructor].
Qed.

Lemma get_current_key_usable (c : SpeechmaticsASRConfig) :
  0 < num_keys c ->
  fst (get_current_key c) ∈ api_keys c
  /\ api_keys (snd (get_current_key c)) = api_keys c.
Proof.
  intros HN. unfold get_current_key.
  destruct (Z.ltb_spec 0 (num_keys c)); [|lia].
  assert (H0 : key_at c 0 ∈ api_keys c).
  { eapply list_elem_of_lookup_2. apply (key_at_lookup c 0). lia. }
  destruct (Z.leb_spec 0 (current_key_index c));
    [destruct (Z.ltb_spec (current_key_index c) (num_keys c))|];
    cbn [andb fst snd]; split; try reflexivity; try exact H0.
  eapply list_elem_of_lookup_2. apply key_at_lookup. lia.
Qed.

(** [start_connection] starts the client with the current key, and only
    when that key is not blank. *)
Lemma started_start (start_raises : bool) x :
  0 < num_keys (config x) ->
  started_with_usable_keys x (start_connection start_raises x).
Proof.
  intros HN. unfold start_connection.
  change (config (set_audio_frame_count 0 (ext_emit (ExtLog LogInfo) x)))
    with (config x).
  destruct (get_current_key_usable (config x) HN) as [Hin Hkeys].
  destruct (get_current_key (config x)) as [k cfg]. cbn [fst snd] in Hin, Hkeys.
  set (x0 := set_audio_frame_count 0 (ext_emit (ExtLog LogInfo) x)).
  assert (H0 : started_with_usable_keys x x0).
  { split; [reflexivity|]. exists []. split; [|constructor].
    unfold x0. cbn. rewrite client_starts_app. reflexivity. }
  assert (H1 : started_with_usable_keys x (set_config cfg x0)).
  { eapply started_trans; [exact H0|]. apply started_set_config. exact Hkeys. }
  clearbody x0.
  destruct (str_nonempty (strip k)) eqn:Ek; cbn [negb].
  - set (x2 := if has_multiple_keys cfg
               then ext_emit (ExtLog LogInfo) (set_config cfg x0)
               else set_config cfg x0).
    assert (H2 : started_with_usable_keys x x2).
    { unfold x2. destruct (has_multiple_keys cfg); [|exact H1].
      eapply started_trans; [exact H1 | apply started_emit; exact I]. }
    clearbody x2.
    destruct start_raises.
    + eapply started_trans; [exact H2|].
      eapply started_trans; [|apply started_emit; exact I].
      eapply started_trans; [|apply started_emit; exact I].
      eapply started_trans; [|apply started_emit; exact I].
      split; [reflexivity|]. exists []. rewrite app_nil_r. split; constructor.
    + destruct H2 as (Hk2 & new & E2 & F2).
      split; [exact Hk2|]. exists (new ++ [k]).
      split.
      * cbn [ext_emit set_ext_events ext_events set_client].
        rewrite client_starts_app, E2, <- app_assoc. reflexivity.
      * apply Forall_app. split; [exact F2|].
        apply Forall_singleton. split; assumption.
  - eapply started_trans; [exact H1|].
    eapply started_trans; apply started_emit; exact I.
Qed.

Lemma get_next_key_keys (c : SpeechmaticsASRConfig) :
  api_keys (snd (get_next_key c)) = api_keys c.
Proof.
  unfold get_next_key.
  assert (Hm : api_keys (mark_attempted c) = api_keys c).
  { unfold mark_attempted. case_bool_decide; reflexivity. }
  destruct (1 <? num_keys c).
  - destruct (scan_unattempted _ _); cbn [snd]; exact Hm.
  - unfold get_current_key.
    destruct (0 <? num_keys c);
      [destruct ((0 <=? current_key_index c) && (current_key_index c <? num_keys c))|];
      reflexivity.
Qed.

Lemma started_rotate (attempts : list attempt) : forall x,
  started_with_usable_keys x (_rotate_api_key_and_reconnect attempts x).
Proof.
  induction attempts as [|a rest IH]; intros x.
  - cbn [_rotate_api_key_and_reconnect].
    destruct (has_multiple_keys (config x)) eqn:Hm; cbn [negb];
      [|apply started_emit; exact I].
    destruct (has_unattempted_keys (config x)); cbn [negb];
      [|eapply started_trans; apply started_emit; exact I].
    pose proof (get_next_key_keys (config x)) as Hk.
    destruct (get_next_key (config x)) as [[k|e] cfg]; cbn [snd] in Hk.
    + assert (H1 : started_with_usable_keys x
                     (ext_emit (ExtLog LogInfo) (set_config cfg x))).
      { eapply started_trans; [apply started_set_config; exact Hk|].
        apply started_emit. exact I. }
      set (x1 := ext_emit (ExtLog LogInfo) (set_config cfg x)) in *.
      assert (HN1 : 0 < num_keys (config x1)).
      { unfold x1. cbn. unfold num_keys, has_multiple_keys in *. rewrite Hk.
        apply Z.ltb_lt in Hm. unfold num_keys in Hm. lia. }
      clearbody x1.
      set (x2 := if ext_is_connected x1
                 then ext_emit Sleep (stop_connection x1) else x1).
      assert (H2 : started_with_usable_keys x1 x2).
      { unfold x2. destruct (ext_is_connected x1); [|apply started_refl].
        eapply started_trans; [apply started_stop | apply started_emit; exact I]. }
      assert (HN2 : 0 < num_keys (config x2)).
      { unfold num_keys in *. destruct H2 as [-> _]. exact HN1. }
      clearbody x2.
      eapply started_trans; [exact H1|].
      eapply started_trans; [exact H2|].
      eapply started_trans; [apply (started_start false); exact HN2|].
      apply started_emit. exact I.
    + eapply started_trans; [apply started_set_config; exact Hk|].
      eapply started_trans; apply started_emit; exact I.
  - cbn [_rotate_api_key_and_reconnect].
    destruct (has_multiple_keys (config x)) eqn:Hm; cbn [negb];
      [|apply started_emit; exact I].
    destruct (has_unattempted_keys (config x)); cbn [negb];
      [|eapply started_trans; apply started_emit; exact I].
    pose proof (get_next_key_keys (config x)) as Hk.
    destruct (get_next_key (config x)) as [[k|e] cfg]; cbn [snd] in Hk.
    + assert (H1 : started_with_usable_keys x
                     (ext_emit (ExtLog LogInfo) (set_config cfg x))).
      { eapply started_trans; [apply started_set_config; exact Hk|].
        apply started_emit. exact I. }
      set (x1 := ext_emit (ExtLog LogInfo) (set_config cfg x)) in *.
      assert (HN1 : 0 < num_keys (config x1)).
      { unfold x1. cbn. unfold num_keys, has_multiple_keys in *. rewrite Hk.
        apply Z.ltb_lt in Hm. unfold num_keys in Hm. lia. }
      clearbody x1.
      set (x2 := if ext_is_connected x1
                 then ext_emit Sleep (stop_connection x1) else x1).
      assert (H2 : started_with_usable_keys x1 x2).
      { unfold x2. destruct (ext_is_connected x1); [|apply started_refl].
        eapply started_trans; [apply started_stop | apply started_emit; exact I]. }
      assert (HN2 : 0 < num_keys (config x2)).
      { unfold num_keys in *. destruct H2 as [-> _]. exact HN1. }
      clearbody x2.
      eapply started_trans; [exact H1|].
      eapply started_trans; [exact H2|].
      destruct a; cbv beta iota.
      * eapply started_trans; [apply (started_start false); exact HN2|].
        apply started_emit. exact I.
      * eapply started_trans; [apply (started_start true); exact HN2|].
        apply started_emit. exact I.
      * eapply started_trans; [apply (started_start false); exact HN2|].
        destruct (has_unattempted_keys _).
        -- eapply started_trans; [|apply IH].
           eapply started_trans; [|apply started_emit; exact I].
           apply started_emit. exact I.
        -- eapply started_trans; [|apply started_emit; exact I].
           eapply started_trans; [|apply started_emit; exact I].
           apply started_emit. exact I.
    + eapply started_trans; [apply started_set_config; exact Hk|].
      eapply started_trans; apply started_emit; exact I.
Qed.

(** X13.  The error callback never starts the client with a blank key.
    Whatever the message, however many keys there are and however the
    reconnection attempts end, the key list is left as it was, and every
    start of the client that [on_asr_error] causes is made with a key that
    is in the key list and holds something besides blanks. *)
Theorem X13_error_callback_starts_with_usable_keys_only
    (attempts : list attempt) (message : string) x :
  started_with_usable_keys x (on_asr_error attempts message x).
Proof.
  unfold on_asr_error.
  destruct (is_quota_error message && has_multiple_keys (config (ext_emit (ExtLog LogError) x))).
  - eapply started_trans; [|apply started_rotate].
    eapply started_trans; [|apply started_emit; exact I].
    apply started_emit. exact I.
  - eapply started_trans; [|apply started_emit; exact I].
    apply started_emit. exact I.
Qed.
End UsableKeys.

(** * The classification of error messages in [on_asr_error] *)

Section QuotaKeywords.




End QuotaKeywords.

(** * The back-off of [_client_run] *)

Section BackOff.
Context {T : Type}.
Implicit Types c : SpeechmaticsASRClient T.

Lemma within_bounds_round (r : round T) l c :
  within_bounds l -> within_bounds (fst (client_run_round r l c)).
Proof.
  intros (Hlo & Hhi & Hs). unfold client_run_round.
  assert (Hs1 : Forall (fun d => (1 # 2 <= d)%Q /\ (d <= max_retry_interval)%Q)
                  (if negb (Qle_bool (retry_interval l)
                              (current_time r - last_connect_time l))
                   then slept l ++ [retry_interval l] else slept l)).
  { destruct (negb _); [|exact Hs].
    apply Forall_app. split; [exact Hs|]. apply Forall_singleton. split; assumption. }
  destruct (run_raised r); cbn [fst retry_interval slept].
  - split; [|split; [|exact Hs1]].
    + apply Q.min_glb; [|unfold max_retry_interval, Qle; simpl; lia].
      unfold max_retry_interval in *. Lqa.lra.
    + apply Q.le_min_r.
  - split; [apply Qle_refl|]. split; [|exact Hs1].
    unfold max_retry_interval, Qle. simpl. lia.
Qed.

Lemma within_bounds_run (rounds : list (round T)) : forall l c,
  within_bounds l -> within_bounds (fst (client_run_from rounds l c)).
Proof.
  induction rounds as [|r rest IH]; intros l c Hl; [exact Hl|].
  cbn [client_run_from].
  destruct (client_needs_stopping c); [exact Hl|].
  pose proof (within_bounds_round r l c Hl) as H1.
  destruct (client_run_round r l c) as [l1 c1]. cbn [fst] in H1.
  destruct (client_needs_stopping c1); [exact H1|].
  apply IH. exact H1.
Qed.

(** X15.  The back-off of the reconnection loop is bounded.  Whatever
    happens in the rounds of [_client_run] (connections that fail,
    sessions that end, a stop at any time), the retry interval stays
    between half a second and thirty seconds, and so does every sleep the
    loop takes before a new attempt. *)
Theorem X15_retry_interval_stays_within_bounds (rounds : list (round T)) c :
  let l := fst (_client_run rounds c) in
  ((1 # 2) <= retry_interval l)%Q
  /\ (retry_interval l <= 30)%Q
  /\ Forall (fun d => (1 # 2 <= d)%Q /\ (d <= 30)%Q) (slept l).
Proof.
  cbv zeta. apply (within_bounds_run rounds initial_locals c).
  split; [apply Qle_refl|]. split; [|constructor].
  unfold max_retry_interval, Qle. simpl. lia.
Qed.

Lemma backed_off_succ (k : nat) :
  (Qmin (backed_off k * 2) max_retry_interval == backed_off (S k))%Q.
Proof.
  unfold backed_off, max_retry_interval.
  assert (Hp : (inject_Z (2 ^ Z.of_nat (S k)) == 2 * inject_Z (2 ^ Z.of_nat k))%Q).
  { rewrite Nat2Z.inj_succ, Z.pow_succ_r by lia.
    rewrite inject_Z_mult. reflexivity. }
  set (p := inject_Z (2 ^ Z.of_nat k)) in *.
  set (p' := inject_Z (2 ^ Z.of_nat (S k))) in *.
  destruct (Q.min_spec (p * (1 # 2)) 30) as [[H1 E1]|[H1 E1]];
  destruct (Q.min_spec (p' * (1 # 2)) 30) as [[H2 E2]|[H2 E2]];
  destruct (Q.min_spec (Qmin (p * (1 # 2)) 30 * 2) 30) as [[H3 E3]|[H3 E3]];
  rewrite ?E2, ?E3; rewrite ?E1 in *; Lqa.lra.
Qed.

Lemma client_run_failures (rounds : list (round T)) : forall (k : nat) l c,
  Forall failing_round rounds ->
  client_needs_stopping c = false ->
  (retry_interval l == backed_off k)%Q ->
  (retry_interval (fst (client_run_from rounds l c))
   == backed_off (k + length rounds))%Q
  /\ client_needs_stopping (snd (client_run_from rounds l c)) = false.
Proof.
  induction rounds as [|r rest IH]; intros k l c Hf Hc Hl.
  - cbn [client_run_from fst snd length]. rewrite Nat.add_0_r. split; assumption.
  - apply Forall_cons in Hf as [[Hr Hstop] Hf].
    cbn [client_run_from]. rewrite Hc.
    unfold client_run_round. rewrite Hr.
    set (c1 := emit _ _).
    assert (Hc1 : client_needs_stopping c1 = false).
    { unfold c1. cbn [client_needs_stopping emit set_events].
      rewrite Hstop. exact Hc. }
    rewrite Hc1. cbn [length].
    replace (k + S (length rest))%nat with (S k + length rest)%nat by lia.
    apply IH; [exact Hf | exact Hc1|].
    cbn [retry_interval].
    rewrite <- backed_off_succ.
    destruct (Q.min_spec (retry_interval l * 2) max_retry_interval) as [[H1 E1]|[H1 E1]];
    destruct (Q.min_spec (backed_off k * 2) max_retry_interval) as [[H2 E2]|[H2 E2]];
    rewrite E1, E2; rewrite Hl in *; Lqa.lra.
Qed.

(** X16.  The back-off doubles.  After [k] rounds in a row in which the
    connection fails and nobody stops the client, the retry interval of
    [_client_run] is half a second doubled [k] times, capped at thirty
    seconds, and the loop goes on; one round that ends without an
    exception brings the interval back to half a second. *)
Theorem X16_retry_interval_doubles_up_to_the_cap
    (rounds : list (round T)) (r : round T) c :
  Forall failing_round rounds ->
  client_needs_stopping c = false ->
  (retry_interval (fst (_client_run rounds c)) == backed_off (length rounds))%Q
  /\ client_needs_stopping (snd (_client_run rounds c)) = false
  /\ (run_raised r = false ->
      retry_interval (fst (_client_run (rounds ++ [r]) c)) = 1 # 2).
Proof.
  intros Hf Hc.
  destruct (client_run_failures rounds 0 initial_locals c Hf Hc) as [H1 H2].
  { unfold backed_off, max_retry_interval. cbn. reflexivity. }
  split; [exact H1|]. split; [exact H2|].
  intros Hr. unfold _client_run in *.
  assert (Happ : forall rs l c0,
            client_run_from (rs ++ [r]) l c0
            = if client_needs_stopping (snd (client_run_from rs l c0))
              then client_run_from rs l c0
              else client_run_from [r] (fst (client_run_from rs l c0))
                     (snd (client_run_from rs l c0))).
  { induction rs as [|r0 rs IHrs]; intros l c0.
    - cbn [app client_run_from fst snd].
      destruct (client_needs_stopping c0); reflexivity.
    - cbn [app client_run_from].
      destruct (client_needs_stopping c0) eqn:E0; cbn [fst snd]; [rewrite E0; reflexivity|].
      destruct (client_run_round r0 l c0) as [l1 c1].
      destruct (client_needs_stopping c1) eqn:E1; cbn [fst snd]; [rewrite E1; reflexivity|].
      apply IHrs. }
  rewrite Happ, H2. cbn [client_run_from]. rewrite H2.
  unfold client_run_round. rewrite Hr.
  match goal with
  | |- context [if client_needs_stopping ?x then _ else _] =>
      destruct (client_needs_stopping x)
  end; reflexivity.
Qed.
End BackOff.

Lemma X16_retry_interval_witness :
  Forall failing_round
    [refused_at (T := CursorTimeline) 0; refused_at 1; refused_at 3]
  /\ client_needs_stopping demo_client = false
  /\ (retry_interval
        (fst (_client_run [refused_at 0; refused_at 1; refused_at 3] demo_client))
      == backed_off (length [refused_at (T := CursorTimeline) 0;
                             refused_at 1; refused_at 3]))%Q
  /\ client_needs_stopping
       (snd (_client_run [refused_at 0; refused_at 1; refused_at 3] demo_client))
     = false
  /\ (run_raised (ended_at (T := CursorTimeline) 5) = false ->
      retry_interval
        (fst (_client_run ([refused_at 0; refused_at 1; refused_at 3]
                           ++ [ended_at 5]) demo_client)) = 1 # 2).
Proof.
  assert (Hf : Forall failing_round
                 [refused_at (T := CursorTimeline) 0; refused_at 1; refused_at 3]).
  { repeat constructor. }
  assert (Hc : client_needs_stopping demo_client = false) by reflexivity.
  exact (conj Hf (conj Hc
    (X16_retry_interval_doubles_up_to_the_cap _ (ended_at 5) demo_client Hf Hc))).
Defined.

(** * [finalize] and the results handed to the consumer *)

Section Finalize.
Context {T : Type}.
Implicit Types f : Finalizing T.

(** One result with a string for its text: it is handed on without its
    words, after the end of the finalization when it is final and a
    finalization is pending. *)
Lemma on_asr_result_string (r : ASRResult.t) f :
  text_is_string r ->
  let f' := snd (on_asr_result r f) in
  fst (on_asr_result r f) = Ok tt
  /\ handed_on f'
     = handed_on f
       ++ (if ASRResult.final r && negb (last_finalize_timestamp f =? 0)
           then [SendAsrFinalizeEnd] else [])
       ++ [SendAsrResult (without_words r)]
  /\ last_finalize_timestamp f'
     = (if ASRResult.final r then 0 else last_finalize_timestamp f).
Proof.
  intros [s Hs]. cbv zeta. unfold on_asr_result, _handle_asr_result.
  rewrite Hs. cbn [text_to_log].
  set (f1 := if str_nonempty s && str_nonempty (strip s)
             then set_extension (ext_emit (ExtLog LogInfo) (extension f)) f
             else f).
  assert (H1 : handed_on f1 = handed_on f
               /\ last_finalize_timestamp f1 = last_finalize_timestamp f).
  { unfold f1. destruct (_ && _); split; reflexivity. }
  destruct H1 as [Hh Hl]. clearbody f1.
  unfold without_words. rewrite Hs. cbn [fst snd].
  split; [reflexivity|].
  destruct (ASRResult.final r); cbn [andb].
  - unfold _finalize_end. rewrite Hl.
    destruct (last_finalize_timestamp f =? 0) eqn:E; cbn [negb].
    + cbn. rewrite Hh. split; [reflexivity|].
      rewrite Hl. apply Z.eqb_eq. exact E.
    + cbn. rewrite Hh, <- app_assoc. split; reflexivity.
  - cbn. rewrite Hh, Hl. split; reflexivity.
Qed.

Lemma on_asr_results_partial (rs : list ASRResult.t) : forall f,
  Forall text_is_string rs ->
  Forall (fun r => ASRResult.final r = false) rs ->
  handed_on (on_asr_results rs f)
  = handed_on f ++ map SendAsrResult (map without_words rs)
  /\ last_finalize_timestamp (on_asr_results rs f) = last_finalize_timestamp f.
Proof.
  induction rs as [|r rs IH]; intros f Hs Hp.
  - cbn. rewrite app_nil_r. split; reflexivity.
  - apply Forall_cons in Hs as [Hr Hs]. apply Forall_cons in Hp as [Hf Hp].
    cbn [on_asr_results].
    destruct (on_asr_result_string r f Hr) as (_ & Hh & Hl).
    rewrite Hf in Hh, Hl. cbn [andb app] in Hh.
    destruct (IH (snd (on_asr_result r f)) Hs Hp) as [Hh' Hl'].
    rewrite Hh', Hl', Hh, Hl, <- app_assoc. split; reflexivity.
Qed.

Lemma on_asr_results_settled (rs : list ASRResult.t) : forall f,
  Forall text_is_string rs ->
  last_finalize_timestamp f = 0 ->
  handed_on (on_asr_results rs f)
  = handed_on f ++ map SendAsrResult (map without_words rs)
  /\ last_finalize_timestamp (on_asr_results rs f) = 0.
Proof.
  induction rs as [|r rs IH]; intros f Hs H0.
  - cbn. rewrite app_nil_r. split; [reflexivity | exact H0].
  - apply Forall_cons in Hs as [Hr Hs].
    cbn [on_asr_results].
    destruct (on_asr_result_string r f Hr) as (_ & Hh & Hl).
    rewrite H0 in Hh, Hl. cbn [Z.eqb negb] in Hh. rewrite andb_false_r in Hh.
    cbn [app] in Hh.
    assert (Hl0 : last_finalize_timestamp (snd (on_asr_result r f)) = 0)
      by (rewrite Hl; destruct (ASRResult.final r); reflexivity).
    destruct (IH (snd (on_asr_result r f)) Hs Hl0) as [Hh' Hl'].
    rewrite Hh', Hl', Hh, <- app_assoc. split; reflexivity.
Qed.

Lemma on_asr_results_app (rs1 rs2 : list ASRResult.t) : forall f,
  on_asr_results (rs1 ++ rs2) f = on_asr_results rs2 (on_asr_results rs1 f).
Proof.
  induction rs1 as [|r rs1 IH1]; intros f; [reflexivity|].
  cbn [app on_asr_results]. apply IH1.
Qed.

Lemma finalize_pending (now_ms : Z) (drain_mode : string) f :
  last_finalize_timestamp (finalize now_ms drain_mode f) = now_ms
  /\ exists drained,
       handed_on (finalize now_ms drain_mode f) = handed_on f ++ drained
       /\ (drained = [] \/ drained = [PushMutePkg]).
Proof.
  unfold finalize, _handle_finalize_mute_pkg, _handle_finalize_disconnect.
  cbn [extension set_last_finalize_timestamp].
  destruct (String.eqb drain_mode "mute_pkg"); destruct (client (extension f));
    cbn; (split; [reflexivity|]).
  - exists [PushMutePkg]. split; [reflexivity | right; reflexivity].
  - exists []. rewrite app_nil_r. split; [reflexivity | left; reflexivity].
  - exists []. rewrite app_nil_r. split; [reflexivity | left; reflexivity].
  - exists []. rewrite app_nil_r. split; [reflexivity | left; reflexivity].
Qed.

(** X17.  One end of finalization for each [finalize], at the first
    final result.  After [finalize], taken at a time whose timestamp is
    not zero, the results that follow, handled one after the other, are
    handed to the consumer in their order, each once and each without its
    word list, whatever words the client computed;
    [send_asr_finalize_end] is called exactly once, just before the first
    final result, and never again for the results after it; and as long
    as only partial results arrive it is not called and the finalization
    stays pending. *)
Theorem X17_finalize_ends_once_at_the_first_final_result
    (now_ms : Z) (drain_mode : string) f
    (partials : list ASRResult.t) (final_one : ASRResult.t)
    (later : list ASRResult.t) :
  now_ms <> 0 ->
  Forall text_is_string (partials ++ final_one :: later) ->
  Forall (fun r => ASRResult.final r = false) partials ->
  ASRResult.final final_one = true ->
  let f0 := finalize now_ms drain_mode f in
  (handed_on (on_asr_results partials f0)
   = handed_on f0 ++ map SendAsrResult (map without_words partials)
   /\ last_finalize_timestamp (on_asr_results partials f0) = now_ms)
  /\ (handed_on (on_asr_results (partials ++ final_one :: later) f0)
      = handed_on f0
        ++ map SendAsrResult (map without_words partials)
        ++ [SendAsrFinalizeEnd; SendAsrResult (without_words final_one)]
        ++ map SendAsrResult (map without_words later)
      /\ last_finalize_timestamp
           (on_asr_results (partials ++ final_one :: later) f0) = 0).
Proof.
  intros Hnow Hs Hp Hfin. cbv zeta.
  apply Forall_app in Hs as [Hs1 Hs2]. apply Forall_cons in Hs2 as [Hsf Hs3].
  destruct (finalize_pending now_ms drain_mode f) as [Hl0 _].
  set (f0 := finalize now_ms drain_mode f) in *. clearbody f0.
  destruct (on_asr_results_partial partials f0 Hs1 Hp) as [Hh1 Hl1].
  split; [split; [exact Hh1 | rewrite Hl1; exact Hl0]|].
  rewrite on_asr_results_app. cbn [on_asr_results].
  set (f1 := on_asr_results partials f0) in *. clearbody f1.
  destruct (on_asr_result_string final_one f1 Hsf) as (_ & Hh2 & Hl2).
  rewrite Hfin in Hh2, Hl2. rewrite Hl1, Hl0 in Hh2.
  replace (now_ms =? 0) with false in Hh2
    by (symmetry; apply Z.eqb_neq; exact Hnow).
  cbn [andb negb app] in Hh2.
  destruct (on_asr_results_settled later (snd (on_asr_result final_one f1)) Hs3 Hl2)
    as [Hh3 Hl3].
  rewrite Hh3, Hl3, Hh2, Hh1. rewrite <- !app_assoc. split; reflexivity.
Qed.
End Finalize.

Lemma X17_finalize_witness :
  1730700000000 <> 0
  /\ Forall text_is_string ([demo_partial] ++ demo_final :: [demo_partial])
  /\ Forall (fun r => ASRResult.final r = false) [demo_partial]
  /\ ASRResult.final demo_final = true
  /\ (let f0 := finalize 1730700000000 "disconnect" demo_finalizing in
      (handed_on (on_asr_results [demo_partial] f0)
       = handed_on f0 ++ map SendAsrResult (map without_words [demo_partial])
       /\ last_finalize_timestamp (on_asr_results [demo_partial] f0)
          = 1730700000000)
      /\ (handed_on (on_asr_results ([demo_partial] ++ demo_final :: [demo_partial]) f0)
          = handed_on f0
            ++ map SendAsrResult (map without_words [demo_partial])
            ++ [SendAsrFinalizeEnd; SendAsrResult (without_words demo_final)]
            ++ map SendAsrResult (map without_words [demo_partial])
          /\ last_finalize_timestamp
               (on_asr_results ([demo_partial] ++ demo_final :: [demo_partial]) f0)
             = 0)).
Proof.
  assert (H1 : 1730700000000 <> 0) by discriminate.
  assert (H2 : Forall text_is_string ([demo_partial] ++ demo_final :: [demo_partial])).
  { repeat constructor; eexists; reflexivity. }
  assert (H3 : Forall (fun r => ASRResult.final r = false) [demo_partial]).
  { repeat constructor. }
  assert (H4 : ASRResult.final demo_final = true) by reflexivity.
  exact (conj H1 (conj H2 (conj H3 (conj H4
    (X17_finalize_ends_once_at_the_first_final_result 1730700000000 "disconnect"
       demo_finalizing [demo_partial] demo_final [demo_partial] H1 H2 H3 H4))))).
Defined.

(** * The stream id adapter *)

Section Decimal.
Lemma pretty_N_go_length (x : N) : forall s : string,
  (String.length s <= String.length (pretty.pretty_N_go x s))%nat.
Proof.
  induction (N.lt_wf_0 x) as [x _ IH]. intros s.
  destruct (N.eq_dec x 0%N) as [->|Hx].
  - rewrite pretty.pretty_N_go_0. lia.
  - rewrite pretty.pretty_N_go_step by lia.
    etransitivity; [|apply IH; apply N.div_lt; lia].
    cbn [String.length]. lia.
Qed.

(** The decimal form of an integer is never the empty string. *)
Lemma pretty_Z_nonempty (z : Z) : pretty.pretty z <> EmptyString.
Proof.
  assert (Hpos : forall p : positive, pretty.pretty (N.pos p) <> EmptyString).
  { intros p. unfold pretty.pretty, pretty.pretty_N.
    destruct (decide (N.pos p = 0%N)) as [|_]; [discriminate|].
    rewrite pretty.pretty_N_go_step by lia.
    intros E.
    pose proof (pretty_N_go_length (N.pos p `div` 10)%N
                  (String (pretty.pretty_N_char (N.pos p `mod` 10)%N) EmptyString)) as H.
    rewrite E in H. cbn [String.length] in H. lia. }
  destruct z as [|p|p]; unfold pretty.pretty, pretty.pretty_Z.
  - discriminate.
  - apply Hpos.
  - discriminate.
Qed.
End Decimal.

Section Adapter.
Implicit Types a : StreamIdAdapterExtension.

Lemma adapter_actions_app (l k : list adapter_event) :
  adapter_actions (l ++ k) = adapter_actions l ++ adapter_actions k.
Proof. apply List.filter_app. Qed.

Lemma try_numeric_spec (p : property Z) a :
  fst (try_numeric p a) = usable_number p
  /\ _frame_count (snd (try_numeric p a)) = _frame_count a
  /\ adapter_actions (adapter_events (snd (try_numeric p a)))
     = adapter_actions (adapter_events a).
Proof.
  destruct p as [v [|]|e]; cbn.
  - repeat split.
  - destruct (py_ne_zero v); repeat split.
  - rewrite adapter_actions_app. cbn. rewrite app_nil_r. repeat split.
Qed.

Lemma usable_number_nonempty (p : property Z) (s : string) :
  usable_number p = Some s -> s <> EmptyString.
Proof.
  destruct p as [[z|] [|]|e]; cbn; try discriminate.
  - destruct (negb (z =? 0)); [|discriminate]. intros [= <-].
    apply pretty_Z_nonempty.
  - intros [= <-]. discriminate.
Qed.

Lemma usable_string_nonempty (p : property string) (s : string) :
  usable_string p = Some s -> s <> EmptyString.
Proof.
  destruct p as [[s0|] [|]|e]; cbn; try discriminate.
  destruct s0; cbn; [discriminate|]. intros [= <-]. discriminate.
Qed.

(** X18.  The stream id adapter labels every frame.  When the getter of
    the stream id answers, whatever the other getters do (answer, answer
    with an error, raise), [on_audio_frame] returns, counts the frame,
    sets the metadata once and sends the frame on once, in that order.
    The metadata holds the session id, which is the stream id in decimal
    (0 when it is missing or in error), and the speaker, which is the
    first of: the user id as a non-empty string, as a non-zero integer,
    as a non-zero 64-bit integer, and failing all three the session id
    itself.  Neither is ever the empty string.  When that getter raises,
    the exception leaves the method and nothing is sent. *)
Theorem X18_adapter_labels_every_frame (frame : AudioFrame) a :
  match stream_id_int frame with
  | GetterRaises e => on_audio_frame frame a = (Raise e, a)
  | Answer _ _ =>
      let session_id := pretty.pretty (stream_id_of frame) in
      let speaker :=
        default session_id
          (match usable_string (remote_user_id_string frame) with
           | Some s => Some s
           | None =>
               match usable_number (remote_user_id_int frame) with
               | Some s => Some s
               | None => usable_number (remote_user_id_uint64 frame)
               end
           end) in
      fst (on_audio_frame frame a) = Ok tt
      /\ _frame_count (snd (on_audio_frame frame a)) = _frame_count a + 1
      /\ adapter_actions (adapter_events (snd (on_audio_frame frame a)))
         = adapter_actions (adapter_events a)
           ++ [ SetPropertyFromJson "metadata"
                  (JDict [ ("session_id", JStr session_id);
                           ("speaker", JStr speaker) ]%string);
                SendAudioFrame ]
      /\ session_id <> EmptyString
      /\ speaker <> EmptyString
  end.
Proof.
  unfold on_audio_frame.
  destruct (stream_id_int frame) as [v err|e] eqn:Es; [|reflexivity].
  cbv zeta.
  assert (Hsid : (match v with Some z => if err then 0 else z | None => 0 end)
                 = stream_id_of frame).
  { unfold stream_id_of. rewrite Es. destruct v as [z|], err; reflexivity. }
  rewrite Hsid. clear Hsid.
  set (sid := pretty.pretty (stream_id_of frame)).
  (* Method 1 *)
  set (m1 := match remote_user_id_string frame with
             | Answer user_id_str user_err =>
                 match user_id_str with
                 | Some s => if negb user_err && str_nonempty s
                             then (Some s, a) else (None, a)
                 | None => (None, a)
                 end
             | GetterRaises _ => (None, adapter_emit (AdapterLog LogDebug) a)
             end).
  assert (H1 : fst m1 = usable_string (remote_user_id_string frame)
               /\ _frame_count (snd m1) = _frame_count a
               /\ adapter_actions (adapter_events (snd m1))
                  = adapter_actions (adapter_events a)).
  { unfold m1. destruct (remote_user_id_string frame) as [[s|] [|]|e]; cbn;
      try (repeat split; fail).
    - destruct (str_nonempty s); repeat split.
    - rewrite adapter_actions_app. cbn. rewrite app_nil_r. repeat split. }
  destruct m1 as [found1 a1]. cbn [fst snd] in H1.
  destruct H1 as (Hf1 & Hc1 & He1).
  (* Method 2 *)
  set (m2 := match found1 with
             | Some s => (Some s, a1)
             | None => try_numeric (remote_user_id_int frame) a1
             end).
  assert (H2 : fst m2 = match found1 with
                        | Some s => Some s
                        | None => usable_number (remote_user_id_int frame)
                        end
               /\ _frame_count (snd m2) = _frame_count a
               /\ adapter_actions (adapter_events (snd m2))
                  = adapter_actions (adapter_events a)).
  { unfold m2. destruct found1; [repeat split; assumption|].
    destruct (try_numeric_spec (remote_user_id_int frame) a1) as (-> & -> & ->).
    repeat split; assumption. }
  destruct m2 as [found2 a2]. cbn [fst snd] in H2.
  destruct H2 as (Hf2 & Hc2 & He2).
  (* Method 3 *)
  set (m3 := match found2 with
             | Some s => (Some s, a2)
             | None => try_numeric (remote_user_id_uint64 frame) a2
             end).
  assert (H3 : fst m3 = match found2 with
                        | Some s => Some s
                        | None => usable_number (remote_user_id_uint64 frame)
                        end
               /\ _frame_count (snd m3) = _frame_count a
               /\ adapter_actions (adapter_events (snd m3))
                  = adapter_actions (adapter_events a)).
  { unfold m3. destruct found2; [repeat split; assumption|].
    destruct (try_numeric_spec (remote_user_id_uint64 frame) a2) as (-> & -> & ->).
    repeat split; assumption. }
  destruct m3 as [found3 a3]. cbn [fst snd] in H3.
  destruct H3 as (Hf3 & Hc3 & He3).
  cbn [fst snd].
  assert (Hspk : match found3 with Some s => s | None => sid end
                 = default sid
                     (match usable_string (remote_user_id_string frame) with
                      | Some s => Some s
                      | None =>
                          match usable_number (remote_user_id_int frame) with
                          | Some s => Some s
                          | None => usable_number (remote_user_id_uint64 frame)
                          end
                      end)).
  { rewrite <- Hf1. subst found3 found2.
    destruct found1; [reflexivity|].
    destruct (usable_number (remote_user_id_int frame)); [reflexivity|].
    destruct (usable_number (remote_user_id_uint64 frame)); reflexivity. }
  rewrite Hspk. clear Hspk.
  split; [reflexivity|].
  split.
  { destruct (_ =? 1); cbn; exact (f_equal (fun z => z + 1) Hc3). }
  split.
  { destruct (_ =? 1); cbn [adapter_emit adapter_events];
      rewrite ?adapter_actions_app; cbn [adapter_actions List.filter adapter_events];
      rewrite He3, ?app_nil_r, <- ?app_assoc; reflexivity. }
  split; [apply pretty_Z_nonempty|].
  destruct (usable_string (remote_user_id_string frame)) as [s|] eqn:Eu1.
  { cbn. eapply usable_string_nonempty. exact Eu1. }
  destruct (usable_number (remote_user_id_int frame)) as [s|] eqn:Eu2.
  { cbn. eapply usable_number_nonempty. exact Eu2. }
  destruct (usable_number (remote_user_id_uint64 frame)) as [s|] eqn:Eu3.
  { cbn. eapply usable_number_nonempty. exact Eu3. }
  cbn. apply pretty_Z_nonempty.
Qed.
End Adapter.

(** * The labels of a sentence *)

Section FirstLabel.
Implicit Types ws : list SpeechmaticsASRWord.

Lemma add_speaker_channel_lookup (md : gmap string json) w :
  add_speaker_channel md w !! "speaker"
  = (if truthy (speaker w) && negb (truthy_entry (md !! "speaker"))
     then Some (speaker w) else md !! "speaker")
  /\ add_speaker_channel md w !! "channel"
     = (if truthy (channel w) && negb (truthy_entry (md !! "channel"))
        then Some (channel w) else md !! "channel")
  /\ forall k : string, k <> "speaker"%string -> k <> "channel"%string ->
       add_speaker_channel md w !! k = md !! k.
Proof.
  unfold add_speaker_channel.
  destruct (truthy (speaker w) && negb (truthy_entry (md !! "speaker"))) eqn:Es.
  - rewrite (lookup_insert md "speaker" "channel"). case_decide; [discriminate|].
    destruct (truthy (channel w) && negb (truthy_entry (md !! "channel"))) eqn:Ec;
      repeat split; rewrite ?lookup_insert; repeat case_decide;
      try congruence; try reflexivity.
    all: intros k H1 H2; rewrite ?lookup_insert; repeat case_decide;
         congruence.
  - destruct (truthy (channel w) && negb (truthy_entry (md !! "channel"))) eqn:Ec;
      repeat split; rewrite ?lookup_insert; repeat case_decide;
      try congruence; try reflexivity.
    all: intros k H1 H2; rewrite ?lookup_insert; repeat case_decide;
         congruence.
Qed.

Lemma fold_labels ws : forall md : gmap string json,
  (forall v, md !! "speaker" = Some v -> truthy v = true) ->
  (forall v, md !! "channel" = Some v -> truthy v = true) ->
  fold_left add_speaker_channel ws md !! "speaker"
  = match md !! "speaker" with
    | Some v => Some v
    | None => first_label speaker ws
    end
  /\ fold_left add_speaker_channel ws md !! "channel"
     = match md !! "channel" with
       | Some v => Some v
       | None => first_label channel ws
       end
  /\ forall k : string, k <> "speaker"%string -> k <> "channel"%string ->
       fold_left add_speaker_channel ws md !! k = md !! k.
Proof.
  induction ws as [|w ws IH]; intros md Hs Hc.
  - cbn [fold_left]. unfold first_label. cbn [map List.filter head].
    split; [destruct (md !! "speaker"); reflexivity|].
    split; [destruct (md !! "channel"); reflexivity|]. reflexivity.
  - cbn [fold_left].
    destruct (add_speaker_channel_lookup md w) as (Ls & Lc & Lk).
    destruct (IH (add_speaker_channel md w)) as (Is & Ic & Ik).
    { intros v. rewrite Ls.
      destruct (truthy (speaker w) && _) eqn:E; [|apply Hs].
      intros [= <-]. apply andb_true_iff in E as [E _]. exact E. }
    { intros v. rewrite Lc.
      destruct (truthy (channel w) && _) eqn:E; [|apply Hc].
      intros [= <-]. apply andb_true_iff in E as [E _]. exact E. }
    rewrite Is, Ic, Ls, Lc. unfold first_label. cbn [map List.filter].
    split; [|split].
    + destruct (md !! "speaker") as [v|] eqn:E.
      * cbn [truthy_entry]. rewrite (Hs v eq_refl). cbn [negb].
        rewrite andb_false_r. reflexivity.
      * cbn [truthy_entry negb]. rewrite andb_true_r.
        destruct (truthy (speaker w)); reflexivity.
    + destruct (md !! "channel") as [v|] eqn:E.
      * cbn [truthy_entry]. rewrite (Hc v eq_refl). cbn [negb].
        rewrite andb_false_r. reflexivity.
      * cbn [truthy_entry negb]. rewrite andb_true_r.
        destruct (truthy (channel w)); reflexivity.
    + intros k H1 H2. rewrite Ik, Lk by assumption. reflexivity.
Qed.

(** X19.  The labels of a sentence are those of its first labelled
    words.  The metadata loop of the sentence handler gives a segment the
    speaker of the first buffered word whose speaker Python takes for
    true, and likewise the channel of the first word that has one; later
    words never replace them, the two are chosen independently, and the
    metadata holds no other key. *)
Theorem X19_sentence_labels_come_from_the_first_labelled_words ws :
  sentence_metadata ws !! "speaker" = first_label speaker ws
  /\ sentence_metadata ws !! "channel" = first_label channel ws
  /\ forall k : string, k <> "speaker"%string -> k <> "channel"%string ->
       sentence_metadata ws !! k = None.
Proof.
  unfold sentence_metadata.
  destruct (fold_labels ws ∅) as (Hs & Hc & Hk).
  - intros v. rewrite lookup_empty. discriminate.
  - intros v. rewrite lookup_empty. discriminate.
  - rewrite Hs, Hc, !lookup_empty. repeat split.
    intros k H1 H2. rewrite Hk by assumption. apply lookup_empty.
Qed.
End FirstLabel.

(** * The hot words of [start] *)

Section HotwordsParsing.
Variable isdigit : string -> bool.






End HotwordsParsing.
